(** * Streams: a shallow embedding of [Streams.h] (namespace [streams])

    The header defines a family of "extractors" (cursor objects with the two
    operations [advance] and [get], dispatched statically through the CRTP
    base [StreamExtractor]) and the wrapper [BaseStreamInterface] with the
    chaining and terminal methods.

    Modelling choices, all local to this file:
    - member functions mutate [*this]; here every operation returns the
      updated object (explicit state passing);
    - callables (predicates, mapping functions, inspectors) may touch what
      they capture; they run in a state monad over a world [W];
    - dereferencing an iterator that points at no element is undefined
      behaviour in C++; here it is the outcome [Undefined];
    - [while] loops are fixpoints over a fuel counter; running out of it is
      the outcome [OutOfFuel], and the theorems show that a fuel larger than
      the length of the underlying sequence is always enough;
    - [size_t] is an unsigned 64-bit integer, a [Z] with its wrap-around
      written out. *)

From Stdlib Require Import List ZArith Lia Bool Arith.
Import ListNotations.

Set Implicit Arguments.

(** ** Outcomes and the computation monad *)

Inductive outcome (A : Type) : Type :=
| Done (a : A)
| Undefined
| OutOfFuel.

Arguments Done {A} a.
Arguments Undefined {A}.
Arguments OutOfFuel {A}.

(** A computation reads and writes the world [W] the callables capture. *)
Definition comp (W A : Type) : Type := W -> outcome (A * W).

Definition ret {W A : Type} (a : A) : comp W A := fun w => Done (a, w).

Definition bind {W A B : Type} (m : comp W A) (k : A -> comp W B) : comp W B :=
  fun w =>
    match m w with
    | Done (a, w') => k a w'
    | Undefined => Undefined
    | OutOfFuel => OutOfFuel
    end.

Definition undefined {W A : Type} : comp W A := fun _ => Undefined.

Definition out_of_fuel {W A : Type} : comp W A := fun _ => OutOfFuel.

Notation "x <- m ;; k" := (bind m (fun x => k))
  (at level 61, m at next level, right associativity).
Notation "' pat <- m ;; k" := (bind m (fun x => match x with pat => k end))
  (at level 61, pat pattern, m at next level, right associativity).

(** A callable without side effects. *)
Definition pure {W A B : Type} (f : A -> B) : A -> comp W B :=
  fun x => ret (f x).

(** ** [size_t] *)

Definition size_t_bits : Z := 64.
Definition size_t_modulus : Z := 2 ^ size_t_bits.
Definition size_wrap (z : Z) : Z := z mod size_t_modulus.

(** [--n] and [++n] on a [size_t]. *)
Definition size_dec (n : Z) : Z := size_wrap (n - 1).
Definition size_inc (n : Z) : Z := size_wrap (n + 1).

Definition in_size_t (n : Z) : Prop := (0 <= n < size_t_modulus)%Z.

(** ** Iterators

    An iterator of a sequence container: the sequence it ranges over and a
    position in it.  [std::begin] is position 0, [std::end] the length. *)

Record iterator (T : Type) : Type := { seq : list T; pos : nat }.

Definition std_begin {T : Type} (container : list T) : iterator T :=
  {| seq := container; pos := 0 |}.

Definition std_end {T : Type} (container : list T) : iterator T :=
  {| seq := container; pos := length container |}.

(** [a != b] *)
Definition iter_neq {T : Type} (a b : iterator T) : bool :=
  negb (Nat.eqb (pos a) (pos b)).

(** [it++] returns the old iterator; this is the new one. *)
Definition iter_succ {T : Type} (it : iterator T) : iterator T :=
  {| seq := seq it; pos := S (pos it) |}.

(** [*it]: undefined at the end of the sequence. *)
Definition deref {W T : Type} (it : iterator T) : comp W T :=
  match nth_error (seq it) (pos it) with
  | Some x => ret x
  | None => undefined
  end.

(** ** The extractor contract: [StreamExtractor<Derived>]

    [get] stands for [*x.get()]: every call site of the header dereferences
    the pointer or iterator that [get()] returns at once.  [advance] takes
    the fuel of the loops it may run. *)

Class StreamExtractor (W E T : Type) : Type := {
  get : E -> comp W (T * E);
  advance : nat -> E -> comp W (bool * E)
}.

(** ** [SequenceStreamExtractor] *)

Module SequenceStreamExtractor.

Record t (T : Type) : Type := {
  current : iterator T;
  next : iterator T;
  begin : iterator T;
  end_ : iterator T
}.

Definition make {T : Type} (b e : iterator T) : t T :=
  {| current := b; next := b; begin := b; end_ := e |}.

Section Impl.
Context {W T : Type}.

Definition get_impl (s : t T) : comp W (T * t T) :=
  x <- deref (current s) ;; ret (x, s).

Definition advance_impl (fuel : nat) (s : t T) : comp W (bool * t T) :=
  if iter_neq (next s) (end_ s) then
    ret (true, {| current := next s; next := iter_succ (next s);
                  begin := begin s; end_ := end_ s |})
  else
    ret (false, s).
End Impl.

#[global] Instance extractor (W T : Type) : StreamExtractor W (t T) T :=
  {| get := get_impl; advance := advance_impl |}.

End SequenceStreamExtractor.

(** ** [SkipFirstStreamExtractor] *)

Module SkipFirstStreamExtractor.

Record t (E : Type) : Type := { source : E; skipCount : Z }.

Definition make {E : Type} (extractor : E) (count : Z) : t E :=
  {| source := extractor; skipCount := count |}.

Section Impl.
Context {W E T : Type} `{StreamExtractor W E T}.

Definition get_impl (s : t E) : comp W (T * t E) :=
  '(x, src) <- get (source s) ;;
  ret (x, {| source := src; skipCount := skipCount s |}).

(** The [while (skipCount != 0)] loop, with the [return source.advance()]
    that follows it as the exit branch. *)
Fixpoint advance_loop (fuel k : nat) (s : t E) : comp W (bool * t E) :=
  match k with
  | O => out_of_fuel
  | S k' =>
      if negb (skipCount s =? 0)%Z then
        let c := size_dec (skipCount s) in
        '(b, src) <- advance fuel (source s) ;;
        if negb b then ret (false, {| source := src; skipCount := c |})
        else advance_loop fuel k' {| source := src; skipCount := c |}
      else
        '(b, src) <- advance fuel (source s) ;;
        ret (b, {| source := src; skipCount := skipCount s |})
  end.

Definition advance_impl (fuel : nat) (s : t E) : comp W (bool * t E) :=
  advance_loop fuel fuel s.
End Impl.

#[global] Instance extractor (W E T : Type) `{StreamExtractor W E T} :
  StreamExtractor W (t E) T :=
  {| get := get_impl; advance := advance_impl |}.

End SkipFirstStreamExtractor.

(** ** [SkipWhileStreamExtractor] *)

Module SkipWhileStreamExtractor.

Record t (W E T : Type) : Type := {
  source : E;
  predicate : T -> comp W bool;
  skipping : bool
}.

Definition make {W E T : Type} (extractor : E) (predicate : T -> comp W bool)
  : t W E T :=
  {| source := extractor; predicate := predicate; skipping := true |}.

Section Impl.
Context {W E T : Type} `{StreamExtractor W E T}.

Definition get_impl (s : t W E T) : comp W (T * t W E T) :=
  '(x, src) <- get (source s) ;;
  ret (x, {| source := src; predicate := predicate s;
             skipping := skipping s |}).

(** [while (skipping && source.advance()) skipping = predicate( *source.get());] *)
Fixpoint advance_loop (fuel k : nat) (s : t W E T) : comp W (t W E T) :=
  match k with
  | O => out_of_fuel
  | S k' =>
      if skipping s then
        '(b, src) <- advance fuel (source s) ;;
        if b then
          '(x, src') <- get src ;;
          p <- predicate s x ;;
          advance_loop fuel k'
            {| source := src'; predicate := predicate s; skipping := p |}
        else
          ret {| source := src; predicate := predicate s;
                 skipping := skipping s |}
      else ret s
  end.

Definition advance_impl (fuel : nat) (s : t W E T)
  : comp W (bool * t W E T) :=
  if skipping s then
    s' <- advance_loop fuel fuel s ;;
    ret (negb (skipping s'), s')
  else
    '(b, src) <- advance fuel (source s) ;;
    ret (b, {| source := src; predicate := predicate s;
               skipping := skipping s |}).
End Impl.

#[global] Instance extractor (W E T : Type) `{StreamExtractor W E T} :
  StreamExtractor W (t W E T) T :=
  {| get := get_impl; advance := advance_impl |}.

End SkipWhileStreamExtractor.

(** ** [TakeStreamExtractor] *)

Module TakeStreamExtractor.

Record t (E : Type) : Type := { source : E; limit : Z }.

Definition make {E : Type} (extractor : E) (count : Z) : t E :=
  {| source := extractor; limit := count |}.

Section Impl.
Context {W E T : Type} `{StreamExtractor W E T}.

Definition get_impl (s : t E) : comp W (T * t E) :=
  '(x, src) <- get (source s) ;;
  ret (x, {| source := src; limit := limit s |}).

Definition advance_impl (fuel : nat) (s : t E) : comp W (bool * t E) :=
  if negb (limit s =? 0)%Z then
    let l := size_dec (limit s) in
    '(b, src) <- advance fuel (source s) ;;
    ret (b, {| source := src; limit := l |})
  else
    ret (false, s).
End Impl.

#[global] Instance extractor (W E T : Type) `{StreamExtractor W E T} :
  StreamExtractor W (t E) T :=
  {| get := get_impl; advance := advance_impl |}.

End TakeStreamExtractor.


(** ** [TakeWhileStreamExtractor] *)

Module TakeWhileStreamExtractor.

Record t (W E T : Type) : Type := {
  source : E;
  predicate : T -> comp W bool;
  taking : bool
}.

Definition make {W E T : Type} (extractor : E) (predicate : T -> comp W bool)
  : t W E T :=
  {| source := extractor; predicate := predicate; taking := true |}.

Section Impl.
Context {W E T : Type} `{StreamExtractor W E T}.

Definition get_impl (s : t W E T) : comp W (T * t W E T) :=
  '(x, src) <- get (source s) ;;
  ret (x, {| source := src; predicate := predicate s; taking := taking s |}).

(** [taking &= taking && source.advance() && predicate( *source.get())]:
    the right operand short-circuits from left to right and never writes
    [taking]; [&=] then stores the bitwise and. *)
Definition advance_impl (fuel : nat) (s : t W E T)
  : comp W (bool * t W E T) :=
  '(rhs, src) <-
    (if taking s then
       '(b, src) <- advance fuel (source s) ;;
       if b then
         '(x, src') <- get src ;;
         p <- predicate s x ;;
         ret (p, src')
       else ret (false, src)
     else ret (false, source s)) ;;
  let taking' := andb (taking s) rhs in
  ret (taking', {| source := src; predicate := predicate s;
                   taking := taking' |}).
End Impl.

#[global] Instance extractor (W E T : Type) `{StreamExtractor W E T} :
  StreamExtractor W (t W E T) T :=
  {| get := get_impl; advance := advance_impl |}.

End TakeWhileStreamExtractor.

(** ** [FilterStreamExtractor] *)

Module FilterStreamExtractor.

Record t (W E T : Type) : Type := {
  source : E;
  predicate : T -> comp W bool
}.

Definition make {W E T : Type} (extractor : E) (p : T -> comp W bool)
  : t W E T :=
  {| source := extractor; predicate := p |}.

Section Impl.
Context {W E T : Type} `{StreamExtractor W E T}.

Definition get_impl (s : t W E T) : comp W (T * t W E T) :=
  '(x, src) <- get (source s) ;;
  ret (x, {| source := src; predicate := predicate s |}).

(** [while (!predicate( *element)) ...], followed by [return true]. *)
Fixpoint advance_loop (fuel k : nat) (s : t W E T) (element : T)
  : comp W (bool * t W E T) :=
  match k with
  | O => out_of_fuel
  | S k' =>
      p <- predicate s element ;;
      if negb p then
        '(b, src) <- advance fuel (source s) ;;
        if b then
          '(element', src') <- get src ;;
          advance_loop fuel k'
            {| source := src'; predicate := predicate s |} element'
        else
          ret (false, {| source := src; predicate := predicate s |})
      else ret (true, s)
  end.

Definition advance_impl (fuel : nat) (s : t W E T)
  : comp W (bool * t W E T) :=
  '(b, src) <- advance fuel (source s) ;;
  if negb b then
    ret (false, {| source := src; predicate := predicate s |})
  else
    '(element, src') <- get src ;;
    advance_loop fuel fuel
      {| source := src'; predicate := predicate s |} element.
End Impl.

#[global] Instance extractor (W E T : Type) `{StreamExtractor W E T} :
  StreamExtractor W (t W E T) T :=
  {| get := get_impl; advance := advance_impl |}.

End FilterStreamExtractor.

(** ** [MapStreamExtractor]

    [value] is the slot the stage owns; [get_impl] overwrites it and hands
    out its address.  The slot is value-initialised and never read before
    the first [get_impl]: [None] stands for that initial content. *)

Module MapStreamExtractor.

Record t (W E T U : Type) : Type := {
  source : E;
  mapFunc : T -> comp W U;
  value : option U
}.

Definition make {W E T U : Type} (sourceExtractor : E) (m : T -> comp W U)
  : t W E T U :=
  {| source := sourceExtractor; mapFunc := m; value := None |}.

Section Impl.
Context {W E T U : Type} `{StreamExtractor W E T}.

Definition get_impl (s : t W E T U) : comp W (U * t W E T U) :=
  '(x, src) <- get (source s) ;;
  y <- mapFunc s x ;;
  ret (y, {| source := src; mapFunc := mapFunc s; value := Some y |}).

Definition advance_impl (fuel : nat) (s : t W E T U)
  : comp W (bool * t W E T U) :=
  '(b, src) <- advance fuel (source s) ;;
  ret (b, {| source := src; mapFunc := mapFunc s; value := value s |}).
End Impl.

#[global] Instance extractor (W E T U : Type) `{StreamExtractor W E T} :
  StreamExtractor W (t W E T U) U :=
  {| get := get_impl; advance := advance_impl |}.

End MapStreamExtractor.

(** ** [InspectStreamExtractor] *)

Module InspectStreamExtractor.

Record t (W E T : Type) : Type := {
  source : E;
  inspector : T -> comp W unit
}.

Definition make {W E T : Type} (extractor : E) (inspector : T -> comp W unit)
  : t W E T :=
  {| source := extractor; inspector := inspector |}.

Section Impl.
Context {W E T : Type} `{StreamExtractor W E T}.

Definition get_impl (s : t W E T) : comp W (T * t W E T) :=
  '(value, src) <- get (source s) ;;
  _ <- inspector s value ;;
  ret (value, {| source := src; inspector := inspector s |}).

Definition advance_impl (fuel : nat) (s : t W E T)
  : comp W (bool * t W E T) :=
  '(b, src) <- advance fuel (source s) ;;
  ret (b, {| source := src; inspector := inspector s |}).
End Impl.

#[global] Instance extractor (W E T : Type) `{StreamExtractor W E T} :
  StreamExtractor W (t W E T) T :=
  {| get := get_impl; advance := advance_impl |}.

End InspectStreamExtractor.

(** ** [BaseStreamInterface]: the stream handle *)

Module BaseStreamInterface.

Record t (E : Type) : Type := { extractor : E }.

Definition make {E : Type} (e : E) : t E := {| extractor := e |}.

Section Methods.
Context {W E T : Type} `{StreamExtractor W E T}.

(** *** Intermediate operations: each copies the extractor into a new stage *)

Definition map {U : Type} (h : t E) (mapper : T -> comp W U)
  : t (MapStreamExtractor.t W E T U) :=
  make (MapStreamExtractor.make (extractor h) mapper).

Definition filter (h : t E) (predicate : T -> comp W bool)
  : t (FilterStreamExtractor.t W E T) :=
  make (FilterStreamExtractor.make (extractor h) predicate).

Definition skip (h : t E) (count : Z) : t (SkipFirstStreamExtractor.t E) :=
  make (SkipFirstStreamExtractor.make (extractor h) count).

Definition skipWhile (h : t E) (predicate : T -> comp W bool)
  : t (SkipWhileStreamExtractor.t W E T) :=
  make (SkipWhileStreamExtractor.make (extractor h) predicate).

Definition take (h : t E) (count : Z) : t (TakeStreamExtractor.t E) :=
  make (TakeStreamExtractor.make (extractor h) count).

Definition takeWhile (h : t E) (predicate : T -> comp W bool)
  : t (TakeWhileStreamExtractor.t W E T) :=
  make (TakeWhileStreamExtractor.make (extractor h) predicate).

Definition inspect (h : t E) (inspector : T -> comp W unit)
  : t (InspectStreamExtractor.t W E T) :=
  make (InspectStreamExtractor.make (extractor h) inspector).

(** *** Non-terminal *)

Definition next (fuel : nat) (h : t E) : comp W (option T * t E) :=
  '(b, e) <- advance fuel (extractor h) ;;
  if b then
    '(x, e') <- get e ;;
    ret (Some x, make e')
  else ret (None, make e).

(** [while (n && extractor.advance()) --n;] *)
Fixpoint nth_loop (fuel k : nat) (n : Z) (e : E) : comp W E :=
  match k with
  | O => out_of_fuel
  | S k' =>
      if negb (n =? 0)%Z then
        '(b, e') <- advance fuel e ;;
        if b then nth_loop fuel k' (size_dec n) e' else ret e'
      else ret e
  end.

Definition nth (fuel : nat) (h : t E) (n : Z) : comp W (option T * t E) :=
  e <- nth_loop fuel fuel n (extractor h) ;;
  next fuel (make e).

(** *** Terminal operations *)

Fixpoint forEach_loop (fuel k : nat) (callable : T -> comp W unit) (e : E)
  : comp W E :=
  match k with
  | O => out_of_fuel
  | S k' =>
      '(b, e') <- advance fuel e ;;
      if b then
        '(x, e'') <- get e' ;;
        _ <- callable x ;;
        forEach_loop fuel k' callable e''
      else ret e'
  end.

Definition forEach (fuel : nat) (h : t E) (callable : T -> comp W unit)
  : comp W (t E) :=
  e <- forEach_loop fuel fuel callable (extractor h) ;; ret (make e).

Fixpoint count_loop (fuel k : nat) (e : E) (counter : Z) : comp W (Z * E) :=
  match k with
  | O => out_of_fuel
  | S k' =>
      '(b, e') <- advance fuel e ;;
      if b then count_loop fuel k' e' (size_inc counter)
      else ret (counter, e')
  end.

Definition count (fuel : nat) (h : t E) : comp W (Z * t E) :=
  '(counter, e) <- count_loop fuel fuel (extractor h) 0%Z ;;
  ret (counter, make e).

Fixpoint any_loop (fuel k : nat) (predicate : T -> comp W bool) (e : E)
  : comp W (bool * E) :=
  match k with
  | O => out_of_fuel
  | S k' =>
      '(b, e') <- advance fuel e ;;
      if b then
        '(x, e'') <- get e' ;;
        p <- predicate x ;;
        if p then ret (true, e'') else any_loop fuel k' predicate e''
      else ret (false, e')
  end.

Definition any (fuel : nat) (h : t E) (predicate : T -> comp W bool)
  : comp W (bool * t E) :=
  '(r, e) <- any_loop fuel fuel predicate (extractor h) ;; ret (r, make e).

Fixpoint all_loop (fuel k : nat) (predicate : T -> comp W bool) (e : E)
  : comp W (bool * E) :=
  match k with
  | O => out_of_fuel
  | S k' =>
      '(b, e') <- advance fuel e ;;
      if b then
        '(x, e'') <- get e' ;;
        p <- predicate x ;;
        if negb p then ret (false, e'') else all_loop fuel k' predicate e''
      else ret (true, e')
  end.

Definition all (fuel : nat) (h : t E) (predicate : T -> comp W bool)
  : comp W (bool * t E) :=
  '(r, e) <- all_loop fuel fuel predicate (extractor h) ;; ret (r, make e).

Fixpoint fold_loop {A : Type} (fuel k : nat) (fold : A -> T -> comp W A)
  (e : E) (a : A) : comp W (A * E) :=
  match k with
  | O => out_of_fuel
  | S k' =>
      '(b, e') <- advance fuel e ;;
      if b then
        '(x, e'') <- get e' ;;
        a' <- fold a x ;;
        fold_loop fuel k' fold e'' a'
      else ret (a, e')
  end.

Definition fold {A : Type} (fuel : nat) (h : t E) (a : A)
  (fold : A -> T -> comp W A) : comp W (A * t E) :=
  '(r, e) <- fold_loop fuel fuel fold (extractor h) a ;; ret (r, make e).

(** [container.push_back(x)] appends at the end. *)
Fixpoint collect_loop (fuel k : nat) (e : E) (container : list T)
  : comp W (list T * E) :=
  match k with
  | O => out_of_fuel
  | S k' =>
      '(b, e') <- advance fuel e ;;
      if b then
        '(x, e'') <- get e' ;;
        collect_loop fuel k' e'' (container ++ [x])
      else ret (container, e')
  end.

Definition collect (fuel : nat) (h : t E) : comp W (list T * t E) :=
  '(container, e) <- collect_loop fuel fuel (extractor h) [] ;;
  ret (container, make e).

End Methods.

End BaseStreamInterface.

(** ** [from]: only the overload for an lvalue container exists at run time *)

Definition from {T : Type} (container : list T)
  : BaseStreamInterface.t (SequenceStreamExtractor.t T) :=
  BaseStreamInterface.make
    (SequenceStreamExtractor.make (std_begin container) (std_end container)).

(** The returned value of a finished computation. *)
Definition fst_done {A B W : Type} (o : outcome (A * B * W)) : option A :=
  match o with
  | Done (a, _, _) => Some a
  | _ => None
  end.

Import BaseStreamInterface.

(** ** Auxiliary definitions for the statements *)

(** The sequence extractor of [from container] after some calls: [current]
    at position [c], [next] at position [i]. *)
Definition seq_at {T : Type} (container : list T) (c i : nat)
  : SequenceStreamExtractor.t T :=
  {| SequenceStreamExtractor.current := {| seq := container; pos := c |};
     SequenceStreamExtractor.next := {| seq := container; pos := i |};
     SequenceStreamExtractor.begin := std_begin container;
     SequenceStreamExtractor.end_ := std_end container |}.

(** [k] calls of [advance] in a row, with their results in call order. *)
Fixpoint advance_n {W E T : Type} `{StreamExtractor W E T}
  (fuel k : nat) (e : E) : comp W (list bool * E) :=
  match k with
  | O => ret ([], e)
  | S k' =>
      '(b, e') <- advance fuel e ;;
      '(bs, e'') <- advance_n fuel k' e' ;;
      ret (b :: bs, e'')
  end.

(** [k] calls of [next] in a row, with their results in call order. *)
Fixpoint next_n {W E T : Type} `{StreamExtractor W E T}
  (fuel k : nat) (h : BaseStreamInterface.t E)
  : comp W (list (option T) * BaseStreamInterface.t E) :=
  match k with
  | O => ret ([], h)
  | S k' =>
      '(r, h') <- next fuel h ;;
      '(rs, h'') <- next_n fuel k' h' ;;
      ret (r :: rs, h'')
  end.

(** An extractor is exhaustible when "has run dry" is a state it cannot
    leave: [advance] answers false only by entering it, and in it
    [advance] answers false again without touching the world. *)
Class Exhaustible (W E T : Type) `{StreamExtractor W E T} : Type := {
  exhausted : E -> Prop;
  advance_false_exhausted :
    forall fuel e w e' w',
      advance fuel e w = Done (false, e', w') -> exhausted e';
  exhausted_advance :
    forall fuel e w,
      0 < fuel -> exhausted e ->
      exists e', advance fuel e w = Done (false, e', w) /\ exhausted e'
}.

Arguments Exhaustible W E T {_}.
Arguments exhausted {W E T _ _} e.
Arguments advance_false_exhausted {W E T _ _} fuel e w e' w' _.
Arguments exhausted_advance {W E T _ _} fuel e w _ _.

(** [nth] as the documentation words it: advance and discard [n] times,
    stop early with an empty result if the stream is exhausted first, then
    behave as [next]. *)
Fixpoint nth_spec_loop {W E T : Type} `{StreamExtractor W E T}
  (fuel n : nat) (e : E) : comp W (option T * BaseStreamInterface.t E) :=
  match n with
  | O => next fuel (BaseStreamInterface.make e)
  | S n' =>
      '(b, e') <- advance fuel e ;;
      if b then nth_spec_loop fuel n' e'
      else ret (None, BaseStreamInterface.make e')
  end.

Definition nth_spec {W E T : Type} `{StreamExtractor W E T}
  (fuel : nat) (h : BaseStreamInterface.t E) (n : Z)
  : comp W (option T * BaseStreamInterface.t E) :=
  nth_spec_loop fuel (Z.to_nat n) (extractor h).

(** Two runs agree on what the caller sees: the returned value and the
    world.  The internal state of the handle is left aside. *)
Definition same_result {A B W : Type} (o1 o2 : outcome (A * B * W)) : Prop :=
  match o1, o2 with
  | Done (a1, _, w1), Done (a2, _, w2) => a1 = a2 /\ w1 = w2
  | Undefined, Undefined => True
  | OutOfFuel, OutOfFuel => True
  | _, _ => False
  end.

(** The sequence extractor has run dry when [next] has reached [end]. *)
Definition sequence_exhausted {T : Type} (s : SequenceStreamExtractor.t T)
  : Prop :=
  pos (SequenceStreamExtractor.next s) = pos (SequenceStreamExtractor.end_ s).

(** A [Take] stage has run dry when its limit is used up or its upstream
    has run dry. *)
Definition take_exhausted {W E T : Type} `{Exhaustible W E T}
  (s : TakeStreamExtractor.t E) : Prop :=
  TakeStreamExtractor.limit s = 0%Z
  \/ exhausted (TakeStreamExtractor.source s).

(** [FilterStreamExtractor.advance_impl] over a sequence with the fuel [k]
    of its inner loop made a parameter: what remains of an [advance_impl]
    call after the loop has rejected an element. *)
Definition filter_advance_from {W T : Type} (fuel k : nat)
  (s : FilterStreamExtractor.t W (SequenceStreamExtractor.t T) T)
  : comp W (bool * FilterStreamExtractor.t W (SequenceStreamExtractor.t T) T) :=
  '(b, src) <- advance fuel (FilterStreamExtractor.source s) ;;
  if negb b then
    ret (false, {| FilterStreamExtractor.source := src;
                   FilterStreamExtractor.predicate :=
                     FilterStreamExtractor.predicate s |})
  else
    '(element, src') <- get src ;;
    FilterStreamExtractor.advance_loop fuel k
      {| FilterStreamExtractor.source := src';
         FilterStreamExtractor.predicate := FilterStreamExtractor.predicate s |}
      element.

(** ** Reference semantics on lists *)

(** The longest prefix whose elements satisfy [p], and what follows it. *)
Fixpoint take_while {T : Type} (p : T -> bool) (xs : list T) : list T :=
  match xs with
  | [] => []
  | x :: xs' => if p x then x :: take_while p xs' else []
  end.

Fixpoint drop_while {T : Type} (p : T -> bool) (xs : list T) : list T :=
  match xs with
  | [] => []
  | x :: xs' => if p x then drop_while p xs' else xs
  end.

(** Runs an effectful callable on the elements of a list, in order. *)
Fixpoint for_each {W T : Type} (callable : T -> comp W unit) (xs : list T)
  : comp W unit :=
  match xs with
  | [] => ret tt
  | x :: xs' => _ <- callable x ;; for_each callable xs'
  end.

(** Maps an effectful function over a list, in order. *)
Fixpoint map_each {W T U : Type} (f : T -> comp W U) (xs : list T)
  : comp W (list U) :=
  match xs with
  | [] => ret []
  | x :: xs' => y <- f x ;; ys <- map_each f xs' ;; ret (y :: ys)
  end.

(** A two-argument callable without side effects. *)
Definition pure2 {W A B C : Type} (f : A -> B -> C) : A -> B -> comp W C :=
  fun a b => ret (f a b).

(** An extractor state [e] denotes a list: [denotes e c xs] says that [e]
    is a well-formed state of a chain whose callables are pure, that the
    current element is [c] (if any) and that the elements still to come
    are [xs].  The laws tie the relation to the code: [advance] steps to the
    head of [xs] or answers false at the end, [get] returns the current
    element, neither touches the world, and a fuel above [bound e] is
    enough for every loop. *)
Class Denotes (W E T : Type) `{StreamExtractor W E T} : Type := {
  denotes : E -> option T -> list T -> Prop;
  bound : E -> nat;
  denotes_bound :
    forall e c xs, denotes e c xs -> length xs <= bound e;
  denotes_advance_cons :
    forall fuel e w c x xs,
      denotes e c (x :: xs) -> bound e < fuel ->
      exists e',
        advance fuel e w = Done (true, e', w)
        /\ denotes e' (Some x) xs /\ bound e' <= bound e;
  denotes_advance_nil :
    forall fuel e w c,
      denotes e c [] -> bound e < fuel ->
      exists e' c',
        advance fuel e w = Done (false, e', w)
        /\ denotes e' c' [] /\ bound e' <= bound e;
  denotes_get :
    forall e w x xs,
      denotes e (Some x) xs ->
      exists e',
        get e w = Done (x, e', w)
        /\ denotes e' (Some x) xs /\ bound e' <= bound e
}.

Arguments Denotes W E T {_}.
Arguments denotes {W E T _ _} e c xs.
Arguments bound {W E T _ _} e.
Arguments denotes_bound {W E T _ _} e c xs _.
Arguments denotes_advance_cons {W E T _ _} fuel e w c x xs _ _.
Arguments denotes_advance_nil {W E T _ _} fuel e w c _ _.
Arguments denotes_get {W E T _ _} e w x xs _.

(** What each extractor of the header denotes.  A sequence extractor
    denotes the elements from [next] on; each stage denotes the image of
    what its upstream denotes under the list function it implements. *)

Definition sequence_denotes {T : Type} (s : SequenceStreamExtractor.t T)
  (c : option T) (xs : list T) : Prop :=
  c = nth_error (seq (SequenceStreamExtractor.current s))
        (pos (SequenceStreamExtractor.current s))
  /\ xs = skipn (pos (SequenceStreamExtractor.next s))
            (seq (SequenceStreamExtractor.next s))
  /\ pos (SequenceStreamExtractor.end_ s)
     = length (seq (SequenceStreamExtractor.next s))
  /\ pos (SequenceStreamExtractor.next s)
     <= length (seq (SequenceStreamExtractor.next s)).

Definition sequence_bound {T : Type} (s : SequenceStreamExtractor.t T) : nat :=
  length (seq (SequenceStreamExtractor.next s))
  - pos (SequenceStreamExtractor.next s).

Section StageDenotations.
Context {W E T : Type} `{Denotes W E T}.

Definition skip_denotes (s : SkipFirstStreamExtractor.t E)
  (c : option T) (xs : list T) : Prop :=
  exists ys,
    denotes (SkipFirstStreamExtractor.source s) c ys
    /\ in_size_t (SkipFirstStreamExtractor.skipCount s)
    /\ xs = skipn (Z.to_nat (SkipFirstStreamExtractor.skipCount s)) ys.

Definition skipWhile_denotes (s : SkipWhileStreamExtractor.t W E T)
  (c : option T) (xs : list T) : Prop :=
  exists p ys,
    SkipWhileStreamExtractor.predicate s = pure p
    /\ denotes (SkipWhileStreamExtractor.source s) c ys
    /\ xs = if SkipWhileStreamExtractor.skipping s then drop_while p ys
            else ys.

Definition take_denotes (s : TakeStreamExtractor.t E)
  (c : option T) (xs : list T) : Prop :=
  exists ys,
    denotes (TakeStreamExtractor.source s) c ys
    /\ in_size_t (TakeStreamExtractor.limit s)
    /\ xs = firstn (Z.to_nat (TakeStreamExtractor.limit s)) ys.

Definition takeWhile_denotes (s : TakeWhileStreamExtractor.t W E T)
  (c : option T) (xs : list T) : Prop :=
  exists p ys,
    TakeWhileStreamExtractor.predicate s = pure p
    /\ denotes (TakeWhileStreamExtractor.source s) c ys
    /\ xs = if TakeWhileStreamExtractor.taking s then take_while p ys
            else [].

Definition filter_denotes (s : FilterStreamExtractor.t W E T)
  (c : option T) (xs : list T) : Prop :=
  exists p ys,
    FilterStreamExtractor.predicate s = pure p
    /\ denotes (FilterStreamExtractor.source s) c ys
    /\ xs = List.filter p ys.

Definition map_denotes {U : Type} (s : MapStreamExtractor.t W E T U)
  (c : option U) (xs : list U) : Prop :=
  exists f c0 ys,
    MapStreamExtractor.mapFunc s = pure f
    /\ denotes (MapStreamExtractor.source s) c0 ys
    /\ c = option_map f c0
    /\ xs = List.map f ys.

Definition inspect_denotes (s : InspectStreamExtractor.t W E T)
  (c : option T) (xs : list T) : Prop :=
  InspectStreamExtractor.inspector s = pure (fun _ => tt)
  /\ denotes (InspectStreamExtractor.source s) c xs.

End StageDenotations.

(** A callable that always returns and whose effect on the world is
    [step]. *)
Definition records {W T : Type} (step : T -> W -> W) : T -> comp W unit :=
  fun x w => Done (tt, step x w).

(** The elements a filter examines in one [advance]: those up to and
    including the first that satisfies [p]. *)
Fixpoint scanned {T : Type} (p : T -> bool) (xs : list T) : list T :=
  match xs with
  | [] => []
  | x :: xs' => if p x then [x] else x :: scanned p xs'
  end.

(** [FilterStreamExtractor.advance_impl] over any upstream with the fuel
    [k] of its inner loop made a parameter. *)
Definition filter_resume {W E T : Type} `{StreamExtractor W E T}
  (fuel k : nat) (s : FilterStreamExtractor.t W E T)
  : comp W (bool * FilterStreamExtractor.t W E T) :=
  '(b, src) <- advance fuel (FilterStreamExtractor.source s) ;;
  if negb b then
    ret (false, {| FilterStreamExtractor.source := src;
                   FilterStreamExtractor.predicate :=
                     FilterStreamExtractor.predicate s |})
  else
    '(element, src') <- get src ;;
    FilterStreamExtractor.advance_loop fuel k
      {| FilterStreamExtractor.source := src';
         FilterStreamExtractor.predicate := FilterStreamExtractor.predicate s |}
      element.

(** A predicate that always returns, answers [p] and whose effect on the
    world is [step]. *)
Definition observed {W T : Type} (p : T -> bool) (step : T -> W -> W)
  : T -> comp W bool :=
  fun x w => Done (p x, step x w).

(** * Properties *)

Unset Implicit Arguments.

(** ** Scenarios of the documentation, by evaluation *)

Example scenario_filter_map :
  fst_done (collect 7 (map (filter (W:=unit) (from [1;2;3;4;5;6]%Z) (pure Z.even))
                     (pure (fun x => x * 10)%Z)) tt)
  = Some [20;40;60]%Z.
Proof. reflexivity. Qed.

Example scenario_skip_take :
  fst_done (collect (W:=unit) 6 (take (skip (from [1;2;3;4;5]%Z) 2) 2) tt)
  = Some [3;4]%Z.
Proof. reflexivity. Qed.

Example scenario_empty :
  fst_done (count (W:=unit) 1 (from (@nil Z)) tt) = Some 0%Z
  /\ fst_done (next (W:=unit) 1 (from (@nil Z)) tt) = Some None.
Proof. split; reflexivity. Qed.

(** ** The sequence extractor *)

Section SequenceFacts.
Context {W T : Type}.
Implicit Types (S pre suf : list T) (w : W).

Lemma from_seq_at S : from S = BaseStreamInterface.make (seq_at S 0 0).
Proof. reflexivity. Qed.

Lemma seq_advance_more fuel pre x suf c w :
  advance fuel (seq_at (pre ++ x :: suf) c (length pre)) w
  = Done (true, seq_at (pre ++ x :: suf) (length pre) (S (length pre)), w).
Proof.
  cbn. unfold SequenceStreamExtractor.advance_impl, iter_neq; cbn.
  rewrite length_app; cbn.
  destruct (Nat.eqb_spec (length pre) (length pre + S (length suf))); [lia|].
  reflexivity.
Qed.

Lemma seq_advance_end fuel S c w :
  advance fuel (seq_at S c (length S)) w = Done (false, seq_at S c (length S), w).
Proof.
  cbn. unfold SequenceStreamExtractor.advance_impl, iter_neq; cbn.
  rewrite Nat.eqb_refl. reflexivity.
Qed.

Lemma seq_get pre x suf i w :
  get (seq_at (pre ++ x :: suf) (length pre) i) w
  = Done (x, seq_at (pre ++ x :: suf) (length pre) i, w).
Proof.
  cbn. unfold SequenceStreamExtractor.get_impl, deref, bind; cbn.
  rewrite nth_error_app2, Nat.sub_diag by lia. reflexivity.
Qed.

End SequenceFacts.

(** ** Proof automation *)

(** Unfolds the monad once the head computation is known. *)
Ltac monad := unfold bind, ret; cbn beta iota.

(** Reduces the field accesses of the stage records. *)
Ltac fields :=
  cbn [SkipFirstStreamExtractor.source SkipFirstStreamExtractor.skipCount
       SkipWhileStreamExtractor.source SkipWhileStreamExtractor.predicate
       SkipWhileStreamExtractor.skipping
       TakeStreamExtractor.source TakeStreamExtractor.limit
       TakeWhileStreamExtractor.source TakeWhileStreamExtractor.predicate
       TakeWhileStreamExtractor.taking
       FilterStreamExtractor.source FilterStreamExtractor.predicate
       MapStreamExtractor.source MapStreamExtractor.mapFunc
       MapStreamExtractor.value
       InspectStreamExtractor.source InspectStreamExtractor.inspector
       BaseStreamInterface.extractor] in *.

(** Resolves [advance] and [get] of a stage to its [advance_impl] and
    [get_impl] and opens them. *)
Ltac stage :=
  cbn [advance get
       SkipFirstStreamExtractor.extractor SkipWhileStreamExtractor.extractor
       TakeStreamExtractor.extractor TakeWhileStreamExtractor.extractor
       FilterStreamExtractor.extractor MapStreamExtractor.extractor
       InspectStreamExtractor.extractor];
  unfold SkipFirstStreamExtractor.advance_impl,
         SkipFirstStreamExtractor.get_impl,
         SkipWhileStreamExtractor.advance_impl,
         SkipWhileStreamExtractor.get_impl,
         TakeStreamExtractor.advance_impl, TakeStreamExtractor.get_impl,
         TakeWhileStreamExtractor.advance_impl,
         TakeWhileStreamExtractor.get_impl,
         FilterStreamExtractor.advance_impl, FilterStreamExtractor.get_impl,
         MapStreamExtractor.advance_impl, MapStreamExtractor.get_impl,
         InspectStreamExtractor.advance_impl,
         InspectStreamExtractor.get_impl;
  fields; monad.

(** Takes one more iteration of a fuel-counted loop. *)
Ltac more_fuel k H :=
  destruct k as [|k]; [cbn [length] in H; lia|].

Section SizeFacts.

Lemma size_t_modulus_pos : (0 < size_t_modulus)%Z.
Proof. reflexivity. Qed.

Lemma size_dec_pos n : in_size_t n -> n <> 0%Z -> size_dec n = (n - 1)%Z.
Proof.
  unfold in_size_t, size_dec, size_wrap. intros Hn Hz.
  apply Z.mod_small. lia.
Qed.

Lemma size_inc_small n :
  (0 <= n)%Z -> (n + 1 < size_t_modulus)%Z -> size_inc n = (n + 1)%Z.
Proof.
  unfold size_inc, size_wrap. intros H0 H1. apply Z.mod_small. lia.
Qed.

Lemma size_wrap_inc n m :
  size_wrap (size_inc n + m) = size_wrap (n + (1 + m)).
Proof.
  unfold size_inc, size_wrap.
  rewrite Zplus_mod_idemp_l. f_equal. lia.
Qed.

Lemma size_wrap_in_range n : in_size_t (size_wrap n).
Proof.
  unfold in_size_t, size_wrap. apply Z.mod_pos_bound, size_t_modulus_pos.
Qed.

End SizeFacts.

(** ** Terminal loops over the bare sequence extractor *)

Section SequenceLoops.
Context {W T : Type}.
Implicit Types (S pre suf : list T) (w : W).

Lemma app_cons_snoc pre (x : T) suf : pre ++ x :: suf = (pre ++ [x]) ++ suf.
Proof. rewrite <- app_assoc. reflexivity. Qed.

Lemma length_snoc pre (x : T) : length (pre ++ [x]) = S (length pre).
Proof. rewrite length_app. cbn. lia. Qed.

Lemma seq_collect_loop fuel suf : forall pre c k acc w,
  length suf < k ->
  exists c',
    collect_loop fuel k (seq_at (pre ++ suf) c (length pre)) acc w
    = Done (acc ++ suf, seq_at (pre ++ suf) c' (length (pre ++ suf)), w).
Proof.
  induction suf as [|x suf IH]; intros pre c k acc w Hk; more_fuel k Hk.
  - cbn [collect_loop]. rewrite !app_nil_r. monad.
    rewrite seq_advance_end. eauto.
  - cbn [collect_loop]. monad.
    rewrite seq_advance_more, seq_get.
    rewrite (app_cons_snoc pre x suf), <- length_snoc with (x := x).
    destruct (IH (pre ++ [x]) (length pre) k (acc ++ [x]) w) as [c' Hc'];
      [cbn [length] in Hk; lia|].
    exists c'. rewrite length_snoc in Hc' |- *.
    rewrite Hc', <- app_assoc. reflexivity.
Qed.

Lemma seq_count_loop fuel suf : forall pre c k counter w,
  length suf < k ->
  in_size_t counter ->
  exists c',
    count_loop fuel k (seq_at (pre ++ suf) c (length pre)) counter w
    = Done (size_wrap (counter + Z.of_nat (length suf)),
            seq_at (pre ++ suf) c' (length (pre ++ suf)), w).
Proof.
  induction suf as [|x suf IH]; intros pre c k counter w Hk Hc; more_fuel k Hk.
  - cbn [count_loop]. rewrite !app_nil_r. monad.
    rewrite seq_advance_end. exists c. cbn [length Z.of_nat].
    rewrite Z.add_0_r. unfold size_wrap. rewrite Z.mod_small; auto.
  - cbn [count_loop]. monad.
    rewrite seq_advance_more.
    rewrite (app_cons_snoc pre x suf), <- length_snoc with (x := x).
    destruct (IH (pre ++ [x]) (length pre) k (size_inc counter) w) as [c' Hc'];
      [cbn [length] in Hk; lia | apply size_wrap_in_range |].
    exists c'. rewrite length_snoc in Hc' |- *.
    rewrite Hc', size_wrap_inc. do 4 f_equal. cbn [length]. lia.
Qed.

End SequenceLoops.

(** ** [count] never calls [get]: stages whose [advance] is a pure
    delegate are invisible to it, over any upstream extractor *)

Section CountPassthrough.
Context {W E T : Type} `{StreamExtractor W E T}.

Lemma map_count_loop {U : Type} fuel :
  forall k (s : MapStreamExtractor.t W E T U) counter w,
    count_loop fuel k s counter w
    = match count_loop fuel k (MapStreamExtractor.source s) counter w with
      | Done (n, src, w') =>
          Done (n, {| MapStreamExtractor.source := src;
                      MapStreamExtractor.mapFunc := MapStreamExtractor.mapFunc s;
                      MapStreamExtractor.value := MapStreamExtractor.value s |},
                w')
      | Undefined => Undefined
      | OutOfFuel => OutOfFuel
      end.
Proof.
  induction k as [|k IH]; intros s counter w; [reflexivity|].
  cbn [count_loop]. monad. cbn [advance MapStreamExtractor.extractor].
  unfold MapStreamExtractor.advance_impl. monad.
  destruct (advance fuel (MapStreamExtractor.source s) w) as [[[b src] w']| |];
    try reflexivity.
  destruct b; [|reflexivity]. rewrite IH. reflexivity.
Qed.

Lemma inspect_count_loop fuel :
  forall k (s : InspectStreamExtractor.t W E T) counter w,
    count_loop fuel k s counter w
    = match count_loop fuel k (InspectStreamExtractor.source s) counter w with
      | Done (n, src, w') =>
          Done (n, {| InspectStreamExtractor.source := src;
                      InspectStreamExtractor.inspector :=
                        InspectStreamExtractor.inspector s |},
                w')
      | Undefined => Undefined
      | OutOfFuel => OutOfFuel
      end.
Proof.
  induction k as [|k IH]; intros s counter w; [reflexivity|].
  cbn [count_loop]. monad. cbn [advance InspectStreamExtractor.extractor].
  unfold InspectStreamExtractor.advance_impl. monad.
  destruct (advance fuel (InspectStreamExtractor.source s) w) as [[[b src] w']| |];
    try reflexivity.
  destruct b; [|reflexivity]. rewrite IH. reflexivity.
Qed.

End CountPassthrough.

(** C9. [count] only calls [advance]: for every sequence [S], every mapping
    function [f] and every inspector [c], [from(S).map(f).count()] and
    [from(S).inspect(c).count()] return what [from(S).count()] returns, and
    neither [f] nor [c] is invoked.  [f] and [c] range over all callables,
    also those that write the world [w] or have no defined result, and the
    world after the count is the world before it: not one call happened. *)
Theorem count_ignores_map_and_inspect
  (W T U : Type) (S : list T) (f : T -> comp W U) (c : T -> comp W unit)
  (fuel : nat) (w : W) :
  length S < fuel ->
  exists n h hm hi,
    count fuel (from S) w = Done (n, h, w)
    /\ count fuel (map (from S) f) w = Done (n, hm, w)
    /\ count fuel (inspect (from S) c) w = Done (n, hi, w)
    /\ n = size_wrap (Z.of_nat (length S)).
Proof.
  intros Hfuel.
  assert (H0 : in_size_t 0) by (unfold in_size_t; split; [lia|reflexivity]).
  destruct (seq_count_loop fuel S [] 0 fuel 0%Z w Hfuel H0) as [c' Hc'].
  cbn [app length] in Hc'.
  exists (size_wrap (Z.of_nat (length S))).
  unfold count. monad.
  rewrite map_count_loop, inspect_count_loop.
  cbn [extractor map inspect make from MapStreamExtractor.make
       InspectStreamExtractor.make MapStreamExtractor.source
       InspectStreamExtractor.source].
  change (SequenceStreamExtractor.make (std_begin S) (std_end S))
    with (seq_at S 0 0).
  rewrite Hc'. cbn [Z.add]. do 3 eexists. repeat split.
Qed.

(** The world does record calls: [collect], which calls [get], runs a
    counting inspector and a counting mapping function once per element. *)
Example collect_invokes_inspector :
  exists h,
    collect 4 (inspect (from [1; 2; 3]%Z) (fun _ calls => Done (tt, 1 + calls))) 0
    = Done ([1; 2; 3]%Z, h, 3).
Proof. eexists. reflexivity. Qed.

Example collect_invokes_mapFunc :
  exists h,
    collect 4 (map (from [1; 2; 3]%Z)
                 (fun x calls => Done ((x + 1)%Z, 1 + calls))) 0
    = Done ([2; 3; 4]%Z, h, 3).
Proof. eexists. reflexivity. Qed.

(** ** [map] then [collect], over any upstream extractor *)

Section MapCollect.
Context {W E T U : Type} `{StreamExtractor W E T}.

Lemma map_collect_loop (f : T -> U) fuel :
  forall k (s : MapStreamExtractor.t W E T U) acc w,
    MapStreamExtractor.mapFunc s = pure f ->
    match collect_loop fuel k (MapStreamExtractor.source s) acc w with
    | Done (xs, src, w') =>
        exists v,
          collect_loop fuel k s (List.map f acc) w
          = Done (List.map f xs,
                  {| MapStreamExtractor.source := src;
                     MapStreamExtractor.mapFunc := pure f;
                     MapStreamExtractor.value := v |}, w')
    | Undefined => collect_loop fuel k s (List.map f acc) w = Undefined
    | OutOfFuel => collect_loop fuel k s (List.map f acc) w = OutOfFuel
    end.
Proof.
  induction k as [|k IH]; intros [src0 g v0] acc w Hg;
    cbn [MapStreamExtractor.mapFunc MapStreamExtractor.source] in *; subst g;
    [reflexivity|].
  cbn [collect_loop]. stage.
  destruct (advance fuel src0 w) as [[[b src] w']| |]; try reflexivity.
  destruct b; [|eauto]. stage.
  destruct (get src w') as [[[x src'] w'']| |]; try reflexivity.
  unfold pure at 1. monad.
  specialize (IH {| MapStreamExtractor.source := src';
                    MapStreamExtractor.mapFunc := pure f;
                    MapStreamExtractor.value := Some (f x) |}
                (acc ++ [x]) w'' eq_refl).
  cbn [MapStreamExtractor.source] in IH.
  rewrite map_app in IH. exact IH.
Qed.

End MapCollect.

(** C5. For every sequence [S] and pure function [f],
    [from(S).map(f).collect()] is the element-wise application of [f] to
    [from(S).collect()]: the same length, and at every position [f] of the
    unmapped element.  Both collections are the whole of [S]. *)
Theorem map_collect_elementwise
  (W T U : Type) (S : list T) (f : T -> U) (fuel : nat) (w : W) :
  length S < fuel ->
  exists xs h hm,
    collect fuel (from S) w = Done (xs, h, w)
    /\ collect fuel (map (from S) (pure f)) w = Done (List.map f xs, hm, w)
    /\ xs = S.
Proof.
  intros Hfuel.
  destruct (seq_collect_loop fuel S [] 0 fuel [] w Hfuel) as [c' Hc'].
  cbn [app length] in Hc'.
  pose proof (map_collect_loop f fuel fuel
                (extractor (map (from S) (pure f))) [] w eq_refl) as Hm.
  cbn [extractor map make from MapStreamExtractor.make
       MapStreamExtractor.source] in Hm.
  change (SequenceStreamExtractor.make (std_begin S) (std_end S))
    with (seq_at S 0 0) in Hm.
  rewrite Hc' in Hm. destruct Hm as [v Hv].
  exists S. unfold collect. monad.
  cbn [extractor map make from MapStreamExtractor.make] in *.
  change (SequenceStreamExtractor.make (std_begin S) (std_end S))
    with (seq_at S 0 0).
  cbn [List.map] in Hv. rewrite Hc', Hv.
  do 2 eexists. repeat split.
Qed.

(** ** The [Take] stage *)

Section TakeFacts.
Context {W T : Type}.
Implicit Types (S pre suf : list T) (w : W).

Lemma take_count_loop fuel suf : forall pre c k l counter w,
  length suf < k ->
  in_size_t l ->
  (0 <= counter)%Z ->
  (counter + Z.min l (Z.of_nat (length suf)) < size_t_modulus)%Z ->
  exists e',
    count_loop fuel k
      {| TakeStreamExtractor.source := seq_at (pre ++ suf) c (length pre);
         TakeStreamExtractor.limit := l |} counter w
    = Done ((counter + Z.min l (Z.of_nat (length suf)))%Z, e', w).
Proof.
  induction suf as [|x suf IH]; intros pre c k l counter w Hk Hl H0 Hlt;
    more_fuel k Hk; cbn [count_loop]; monad;
    cbn [advance TakeStreamExtractor.extractor];
    unfold TakeStreamExtractor.advance_impl;
    cbn [TakeStreamExtractor.source TakeStreamExtractor.limit];
    destruct (Z.eqb_spec l 0) as [->|Hnz]; cbn [negb]; monad.
  - eexists. rewrite Z.min_l by lia. rewrite Z.add_0_r. reflexivity.
  - rewrite app_nil_r, seq_advance_end. eexists.
    cbn [length Z.of_nat]. rewrite Z.min_r by (unfold in_size_t in Hl; lia).
    rewrite Z.add_0_r. reflexivity.
  - eexists. rewrite Z.min_l by lia. rewrite Z.add_0_r. reflexivity.
  - rewrite seq_advance_more.
    rewrite (app_cons_snoc pre x suf), <- length_snoc with (x := x).
    assert (Hl' : in_size_t (size_dec l)) by apply size_wrap_in_range.
    rewrite size_dec_pos in * by assumption.
    cbn [length] in Hk, Hlt. unfold in_size_t in Hl.
    rewrite size_inc_small by lia.
    destruct (IH (pre ++ [x]) (length pre) k (l - 1)%Z (counter + 1)%Z w)
      as [e' He']; try lia; [exact Hl'|].
    exists e'. rewrite He'. do 3 f_equal. cbn [length]. lia.
Qed.

End TakeFacts.

(** C2. For every sequence [S] and every [n >= 0] (a [size_t]),
    [from(S).take(n).count()] is [min(n, |S|)], hence at most [n]. *)
Theorem take_count_min
  (W T : Type) (S : list T) (n : Z) (fuel : nat) (w : W) :
  in_size_t n ->
  length S < fuel ->
  exists h,
    count fuel (take (from S) n) w
    = Done (Z.min n (Z.of_nat (length S)), h, w)
    /\ (Z.min n (Z.of_nat (length S)) <= n)%Z.
Proof.
  intros Hn Hfuel.
  destruct (take_count_loop fuel S [] 0 fuel n 0%Z w Hfuel Hn) as [e' He'];
    [lia | unfold in_size_t in Hn; lia |].
  unfold count, take, from, BaseStreamInterface.make,
    TakeStreamExtractor.make. fields.
  change (SequenceStreamExtractor.make (std_begin S) (std_end S))
    with (seq_at S 0 0).
  cbn [app length] in He'. monad. rewrite He'. cbn [Z.add].
  eexists. split; [reflexivity|lia].
Qed.

(** C4. A [Take] stage whose remaining count is zero (the state in which
    [advance] returns false because of the limit) returns false on every
    later call and is left as it was: the upstream extractor is not called,
    whatever its [advance] would do, and the count stays zero.  Moreover a
    call of [advance] never raises the count: from a [size_t] in range it
    stays between zero and its old value, so it neither goes below zero nor
    wraps. *)
Theorem take_limit_latch
  (W E T : Type) (X : StreamExtractor W E T)
  (s : TakeStreamExtractor.t E) (fuel : nat) (w : W) :
  in_size_t (TakeStreamExtractor.limit s) ->
  (TakeStreamExtractor.limit s = 0%Z ->
   advance fuel s w = Done (false, s, w)
   /\ forall k, advance_n fuel k s w = Done (repeat false k, s, w))
  /\ (forall b s' w',
        advance fuel s w = Done (b, s', w') ->
        (0 <= TakeStreamExtractor.limit s' <= TakeStreamExtractor.limit s)%Z).
Proof.
  intros Hl. split.
  - intros Hz.
    assert (Hadv : forall w0, advance fuel s w0 = Done (false, s, w0)).
    { intros w0. cbn [advance TakeStreamExtractor.extractor].
      unfold TakeStreamExtractor.advance_impl. rewrite Hz. reflexivity. }
    split; [apply Hadv|].
    induction k as [|k IH]; [reflexivity|].
    cbn [advance_n repeat]. monad. rewrite Hadv, IH. reflexivity.
  - intros b s' w'. cbn [advance TakeStreamExtractor.extractor].
    unfold TakeStreamExtractor.advance_impl.
    destruct (Z.eqb_spec (TakeStreamExtractor.limit s) 0) as [Hz|Hnz];
      cbn [negb]; monad.
    + intros [= <- <- <-]. unfold in_size_t in Hl. lia.
    + destruct (advance fuel (TakeStreamExtractor.source s) w)
        as [[[b0 src] w0]| |]; try discriminate.
      intros [= <- <- <-]. cbn [TakeStreamExtractor.limit].
      rewrite size_dec_pos by assumption. unfold in_size_t in Hl. lia.
Qed.

(** ** The [TakeWhile] stage over a sequence *)

Section TakeWhileFacts.
Context {W T : Type}.
Implicit Types (S pre suf out rest : list T) (w : W).

(** Every sequence splits at the first element that fails [p]. *)
Lemma split_at_first_failure (p : T -> bool) S :
  exists out rest,
    S = out ++ rest
    /\ Forall (fun x => p x = true) out
    /\ match rest with [] => True | x :: _ => p x = false end.
Proof.
  induction S as [|x S (out & rest & -> & Hout & Hrest)].
  - exists [], []. repeat split. constructor.
  - destruct (p x) eqn:Hpx.
    + exists (x :: out), rest. repeat split; [constructor|]; assumption.
    + exists [], (x :: out ++ rest). repeat split; [constructor|assumption].
Qed.

Lemma takeWhile_collect_loop (p : T -> bool) fuel out : forall rest pre c k acc w,
  Forall (fun x => p x = true) out ->
  match rest with [] => True | x :: _ => p x = false end ->
  length out < k ->
  exists c',
    collect_loop fuel k
      {| TakeWhileStreamExtractor.source :=
           seq_at (pre ++ out ++ rest) c (length pre);
         TakeWhileStreamExtractor.predicate := pure p;
         TakeWhileStreamExtractor.taking := true |} acc w
    = Done (acc ++ out,
            {| TakeWhileStreamExtractor.source :=
                 seq_at (pre ++ out ++ rest) c'
                   (length pre + length out
                    + match rest with [] => 0 | _ :: _ => 1 end);
               TakeWhileStreamExtractor.predicate := pure p;
               TakeWhileStreamExtractor.taking := false |}, w).
Proof.
  induction out as [|y out IH]; intros rest pre c k acc w Hout Hrest Hk;
    more_fuel k Hk; cbn [collect_loop]; stage; cbn [app].
  - destruct rest as [|x rest].
    + rewrite app_nil_r, seq_advance_end. monad. cbn [andb].
      exists c. rewrite app_nil_r, !Nat.add_0_r. reflexivity.
    + rewrite seq_advance_more. monad. rewrite seq_get.
      unfold pure at 1. monad. rewrite Hrest. cbn [andb].
      exists (length pre). rewrite app_nil_r, Nat.add_0_r, Nat.add_1_r.
      reflexivity.
  - inversion Hout as [|? ? Hy Hout']; subst.
    rewrite seq_advance_more. monad. rewrite seq_get.
    unfold pure at 1. monad. rewrite Hy. cbn [andb]. stage.
    rewrite seq_get.
    rewrite (app_cons_snoc pre y (out ++ rest)), <- length_snoc with (x := y).
    destruct (IH rest (pre ++ [y]) (length pre) k (acc ++ [y]) w Hout' Hrest)
      as [c' Hc']; [cbn [length] in Hk; lia|].
    exists c'. rewrite length_snoc in Hc' |- *. rewrite Hc', <- app_assoc.
    cbn [length app]. do 5 f_equal. lia.
Qed.

End TakeWhileFacts.

(** C1. For every sequence [S] and predicate [p],
    [from(S).takeWhile(p).collect()] returns the longest prefix [out] of [S]
    whose elements all satisfy [p]: [S = out ++ rest], all of [out] satisfy
    [p], and [rest] is empty or starts with an element that fails [p].  That
    first failing element is consumed from the sequence (the upstream cursor
    stands one past it) but not emitted, nothing after it is consumed or
    emitted, and the stage has stopped taking. *)
Theorem takeWhile_collect_longest_prefix
  (W T : Type) (S : list T) (p : T -> bool) (fuel : nat) (w : W) :
  length S < fuel ->
  exists out rest h,
    S = out ++ rest
    /\ Forall (fun x => p x = true) out
    /\ match rest with [] => True | x :: _ => p x = false end
    /\ collect fuel (takeWhile (from S) (pure p)) w = Done (out, h, w)
    /\ pos (SequenceStreamExtractor.next
              (TakeWhileStreamExtractor.source (extractor h)))
       = length out + match rest with [] => 0 | _ :: _ => 1 end
    /\ TakeWhileStreamExtractor.taking (extractor h) = false.
Proof.
  intros Hfuel.
  destruct (split_at_first_failure p S) as (out & rest & -> & Hout & Hrest).
  assert (Hk : length out < fuel) by (rewrite length_app in Hfuel; lia).
  destruct (takeWhile_collect_loop p fuel out rest [] 0 fuel [] w Hout Hrest Hk)
    as [c' Hc'].
  exists out, rest.
  unfold collect, takeWhile, from, BaseStreamInterface.make,
    TakeWhileStreamExtractor.make. fields.
  change (SequenceStreamExtractor.make (std_begin (out ++ rest))
            (std_end (out ++ rest)))
    with (seq_at (out ++ rest) 0 0).
  cbn [app length] in Hc'. monad. rewrite Hc'.
  eexists. repeat split; assumption.
Qed.

(** The scenario of the documentation for C1, by evaluation. *)
Example scenario_takeWhile :
  fst_done (collect (W:=unit) 6
              (takeWhile (from [5;6;1;2;9]%Z) (pure (fun x => 3 <? x)%Z)) tt)
  = Some [5;6]%Z.
Proof. reflexivity. Qed.

(** ** The [SkipWhile] stage over a sequence *)

Section SkipWhileFacts.
Context {W T : Type}.
Implicit Types (S pre suf skipped rest : list T) (w : W).

(** The skipping loop stops at the first element that fails [p]. *)
Lemma skipWhile_loop_stops (p : T -> bool) fuel skipped :
  forall x rest pre c k w,
    Forall (fun y => p y = true) skipped ->
    p x = false ->
    S (length skipped) < k ->
    SkipWhileStreamExtractor.advance_loop fuel k
      {| SkipWhileStreamExtractor.source :=
           seq_at (pre ++ skipped ++ x :: rest) c (length pre);
         SkipWhileStreamExtractor.predicate := pure p;
         SkipWhileStreamExtractor.skipping := true |} w
    = Done ({| SkipWhileStreamExtractor.source :=
                 seq_at (pre ++ skipped ++ x :: rest)
                   (length pre + length skipped)
                   (S (length pre + length skipped));
               SkipWhileStreamExtractor.predicate := pure p;
               SkipWhileStreamExtractor.skipping := false |}, w).
Proof.
  induction skipped as [|y skipped IH]; intros x rest pre c k w Hsk Hx Hk;
    more_fuel k Hk; cbn [SkipWhileStreamExtractor.advance_loop]; fields; monad;
    cbn [app length]; rewrite seq_advance_more, seq_get;
    unfold pure at 1; monad.
  - rewrite Hx. more_fuel k Hk.
    cbn [SkipWhileStreamExtractor.advance_loop]. fields.
    rewrite Nat.add_0_r. reflexivity.
  - inversion Hsk as [|? ? Hy Hsk']; subst. rewrite Hy.
    rewrite (app_cons_snoc pre y (skipped ++ x :: rest)),
      <- length_snoc with (x := y).
    rewrite (IH x rest (pre ++ [y]) (length pre) k w Hsk' Hx)
      by (cbn [length] in Hk; lia).
    rewrite length_snoc. do 4 f_equal; lia.
Qed.

(** The skipping loop runs to the end of a sequence that satisfies [p]
    throughout, and stays in skipping mode. *)
Lemma skipWhile_loop_exhausts (p : T -> bool) fuel suf :
  forall pre c k w,
    Forall (fun y => p y = true) suf ->
    length suf < k ->
    exists c',
      SkipWhileStreamExtractor.advance_loop fuel k
        {| SkipWhileStreamExtractor.source :=
             seq_at (pre ++ suf) c (length pre);
           SkipWhileStreamExtractor.predicate := pure p;
           SkipWhileStreamExtractor.skipping := true |} w
      = Done ({| SkipWhileStreamExtractor.source :=
                   seq_at (pre ++ suf) c' (length (pre ++ suf));
                 SkipWhileStreamExtractor.predicate := pure p;
                 SkipWhileStreamExtractor.skipping := true |}, w).
Proof.
  induction suf as [|y suf IH]; intros pre c k w Hsuf Hk;
    more_fuel k Hk; cbn [SkipWhileStreamExtractor.advance_loop]; fields; monad.
  - rewrite !app_nil_r, seq_advance_end. eauto.
  - inversion Hsuf as [|? ? Hy Hsuf']; subst.
    rewrite seq_advance_more, seq_get. unfold pure at 1. monad. rewrite Hy.
    rewrite (app_cons_snoc pre y suf), <- length_snoc with (x := y).
    apply IH; [assumption | cbn [length] in Hk; lia].
Qed.

(** Out of skipping mode the stage is transparent: the predicate [q], pure
    or not, is not consulted. *)
Lemma skipWhile_collect_loop_passthrough (q : T -> comp W bool) fuel suf :
  forall pre c k acc w,
    length suf < k ->
    exists c',
      collect_loop fuel k
        {| SkipWhileStreamExtractor.source :=
             seq_at (pre ++ suf) c (length pre);
           SkipWhileStreamExtractor.predicate := q;
           SkipWhileStreamExtractor.skipping := false |} acc w
      = Done (acc ++ suf,
              {| SkipWhileStreamExtractor.source :=
                   seq_at (pre ++ suf) c' (length (pre ++ suf));
                 SkipWhileStreamExtractor.predicate := q;
                 SkipWhileStreamExtractor.skipping := false |}, w).
Proof.
  induction suf as [|x suf IH]; intros pre c k acc w Hk;
    more_fuel k Hk; cbn [collect_loop]; stage.
  - rewrite !app_nil_r, seq_advance_end. eauto.
  - rewrite seq_advance_more. stage. rewrite seq_get.
    rewrite (app_cons_snoc pre x suf), <- length_snoc with (x := x).
    destruct (IH (pre ++ [x]) (length pre) k (acc ++ [x]) w) as [c' Hc'];
      [cbn [length] in Hk; lia|].
    exists c'. rewrite Hc', <- app_assoc. reflexivity.
Qed.

(** A skipping stage whose upstream stands at the end answers false and
    does not change. *)
Lemma skipWhile_advance_at_end (q : T -> comp W bool) fuel S c w :
  0 < fuel ->
  let e := {| SkipWhileStreamExtractor.source := seq_at S c (length S);
              SkipWhileStreamExtractor.predicate := q;
              SkipWhileStreamExtractor.skipping := true |} in
  advance fuel e w = Done (false, e, w).
Proof.
  intros Hfuel e. subst e. stage. more_fuel fuel Hfuel.
  cbn [SkipWhileStreamExtractor.advance_loop]. fields. monad.
  rewrite seq_advance_end. reflexivity.
Qed.

End SkipWhileFacts.

(** C3. For every sequence [S] and predicate [p], on
    [from(S).skipWhile(p)]:
    - when [S = skipped ++ x :: rest] with [p] true on all of [skipped] and
      false on [x], the first [advance] returns true, leaves skipping mode
      and makes [x] the current element; from then on nothing is skipped,
      whatever [p] says of the elements of [rest]: they are all emitted, so
      that the stream as a whole emits [x :: rest];
    - when [p] is true on all of [S], the upstream is exhausted while still
      skipping: [advance] returns false on the first call and on every
      subsequent call, and nothing is emitted. *)
Theorem skipWhile_drops_leading_then_passes
  (W T : Type) (S : list T) (p : T -> bool) (fuel : nat) (w : W) :
  length S < fuel ->
  (forall skipped x rest,
      S = skipped ++ x :: rest ->
      Forall (fun y => p y = true) skipped ->
      p x = false ->
      exists e1 h2 h3,
        advance fuel (extractor (skipWhile (from S) (pure p))) w
        = Done (true, e1, w)
        /\ SkipWhileStreamExtractor.skipping e1 = false
        /\ get e1 w = Done (x, e1, w)
        /\ collect fuel (BaseStreamInterface.make e1) w = Done (rest, h2, w)
        /\ collect fuel (skipWhile (from S) (pure p)) w
           = Done (x :: rest, h3, w))
  /\ (Forall (fun y => p y = true) S ->
      (forall k, exists e',
          advance_n fuel (1 + k) (extractor (skipWhile (from S) (pure p))) w
          = Done (repeat false (1 + k), e', w))
      /\ exists h,
          collect fuel (skipWhile (from S) (pure p)) w = Done ([], h, w)).
Proof.
  intros Hfuel.
  unfold skipWhile, from, BaseStreamInterface.make,
    SkipWhileStreamExtractor.make. fields.
  change (SequenceStreamExtractor.make (std_begin S) (std_end S))
    with (seq_at S 0 0).
  split.
  - intros skipped x rest -> Hsk Hx.
    rewrite length_app in Hfuel. cbn [length] in Hfuel.
    pose proof (skipWhile_loop_stops p fuel skipped x rest [] 0 fuel w Hsk Hx)
      as Hloop.
    cbn [app length Nat.add] in Hloop. specialize (Hloop ltac:(lia)).
    assert (Hadv :
      advance fuel
        {| SkipWhileStreamExtractor.source := seq_at (skipped ++ x :: rest) 0 0;
           SkipWhileStreamExtractor.predicate := pure p;
           SkipWhileStreamExtractor.skipping := true |} w
      = Done (true,
              {| SkipWhileStreamExtractor.source :=
                   seq_at (skipped ++ x :: rest) (length skipped)
                     (1 + length skipped);
                 SkipWhileStreamExtractor.predicate := pure p;
                 SkipWhileStreamExtractor.skipping := false |}, w)).
    { stage. rewrite Hloop. reflexivity. }
    assert (Hget :
      get {| SkipWhileStreamExtractor.source :=
               seq_at (skipped ++ x :: rest) (length skipped)
                 (1 + length skipped);
             SkipWhileStreamExtractor.predicate := pure (W := W) p;
             SkipWhileStreamExtractor.skipping := false |} w
      = Done (x,
              {| SkipWhileStreamExtractor.source :=
                   seq_at (skipped ++ x :: rest) (length skipped)
                     (1 + length skipped);
                 SkipWhileStreamExtractor.predicate := pure p;
                 SkipWhileStreamExtractor.skipping := false |}, w)).
    { stage. rewrite seq_get. reflexivity. }
    assert (Hrest : forall k, length rest < k ->
      exists c',
        collect_loop fuel k
          {| SkipWhileStreamExtractor.source :=
               seq_at (skipped ++ x :: rest) (length skipped)
                 (1 + length skipped);
             SkipWhileStreamExtractor.predicate := pure (W := W) p;
             SkipWhileStreamExtractor.skipping := false |} [x] w
        = Done (x :: rest,
                {| SkipWhileStreamExtractor.source :=
                     seq_at (skipped ++ x :: rest) c'
                       (length (skipped ++ x :: rest));
                   SkipWhileStreamExtractor.predicate := pure p;
                   SkipWhileStreamExtractor.skipping := false |}, w)).
    { intros k Hk.
      destruct (skipWhile_collect_loop_passthrough (pure p) fuel rest
                  (skipped ++ [x]) (length skipped) k [x] w Hk) as [c' Hc'].
      rewrite <- !app_cons_snoc, length_snoc in Hc'. eauto. }
    assert (Hrest0 : exists c',
        collect_loop fuel fuel
          {| SkipWhileStreamExtractor.source :=
               seq_at (skipped ++ x :: rest) (length skipped)
                 (1 + length skipped);
             SkipWhileStreamExtractor.predicate := pure (W := W) p;
             SkipWhileStreamExtractor.skipping := false |} [] w
        = Done (rest,
                {| SkipWhileStreamExtractor.source :=
                     seq_at (skipped ++ x :: rest) c'
                       (length (skipped ++ x :: rest));
                   SkipWhileStreamExtractor.predicate := pure p;
                   SkipWhileStreamExtractor.skipping := false |}, w)).
    { destruct (skipWhile_collect_loop_passthrough (pure p) fuel rest
                  (skipped ++ [x]) (length skipped) fuel [] w ltac:(lia))
        as [c' Hc'].
      rewrite <- !app_cons_snoc, length_snoc in Hc'. eauto. }
    destruct Hrest0 as [c0 Hc0].
    destruct fuel as [|k]; [lia|].
    destruct (Hrest k ltac:(lia)) as [c1 Hc1].
    do 3 eexists. split; [exact Hadv|].
    split; [reflexivity|]. split; [exact Hget|].
    unfold collect. fields. monad. rewrite Hc0.
    split; [reflexivity|].
    cbn [collect_loop]. monad. rewrite Hadv, Hget. cbn [app].
    rewrite Hc1. reflexivity.
  - intros Hall.
    destruct (skipWhile_loop_exhausts p fuel S [] 0 fuel w Hall Hfuel)
      as [c' Hc'].
    cbn [app length] in Hc'.
    assert (Hadv :
      advance fuel
        {| SkipWhileStreamExtractor.source := seq_at S 0 0;
           SkipWhileStreamExtractor.predicate := pure p;
           SkipWhileStreamExtractor.skipping := true |} w
      = Done (false,
              {| SkipWhileStreamExtractor.source := seq_at S c' (length S);
                 SkipWhileStreamExtractor.predicate := pure p;
                 SkipWhileStreamExtractor.skipping := true |}, w)).
    { stage. rewrite Hc'. reflexivity. }
    split.
    + intros k. eexists. cbn [advance_n Nat.add repeat]. monad. rewrite Hadv.
      assert (Hn : forall k,
        advance_n fuel k
          {| SkipWhileStreamExtractor.source := seq_at S c' (length S);
             SkipWhileStreamExtractor.predicate := pure (W := W) p;
             SkipWhileStreamExtractor.skipping := true |} w
        = Done (repeat false k,
                {| SkipWhileStreamExtractor.source := seq_at S c' (length S);
                   SkipWhileStreamExtractor.predicate := pure p;
                   SkipWhileStreamExtractor.skipping := true |}, w)).
      { induction k0 as [|k0 IH]; [reflexivity|].
        cbn [advance_n repeat]. monad.
        rewrite (skipWhile_advance_at_end (pure p) fuel S c' w) by lia.
        rewrite IH. reflexivity. }
      rewrite Hn. reflexivity.
    + eexists. unfold collect. fields. monad.
      destruct fuel as [|k]; [lia|].
      cbn [collect_loop]. monad. rewrite Hadv. reflexivity.
Qed.

(** ** The [Filter] stage over a sequence *)

Section FilterFacts.
Context {W T : Type}.
Implicit Types (S pre suf fails rest : list T) (w : W).

Lemma filter_advance_unfold fuel
  (s : FilterStreamExtractor.t W (SequenceStreamExtractor.t T) T) w :
  advance fuel s w = filter_advance_from fuel fuel s w.
Proof. reflexivity. Qed.

Lemma filter_loop_reject (p : T -> bool) fuel k src y w :
  p y = false ->
  FilterStreamExtractor.advance_loop fuel (1 + k)
    {| FilterStreamExtractor.source := src;
       FilterStreamExtractor.predicate := pure p |} y w
  = filter_advance_from fuel k
      {| FilterStreamExtractor.source := src;
         FilterStreamExtractor.predicate := pure p |} w.
Proof.
  intros Hy. cbn [Nat.add FilterStreamExtractor.advance_loop]. fields.
  unfold pure at 1. monad. rewrite Hy. cbn [negb].
  unfold filter_advance_from. fields. monad.
  destruct (advance fuel src w) as [[[b src'] w']| |]; try reflexivity.
  destruct b; reflexivity.
Qed.

Lemma filter_advance_from_finds (p : T -> bool) fuel x rest fails :
  forall pre c k w,
    Forall (fun y => p y = false) fails ->
    p x = true ->
    length fails < k ->
    filter_advance_from fuel k
      {| FilterStreamExtractor.source :=
           seq_at ((pre ++ fails) ++ x :: rest) c (length pre);
         FilterStreamExtractor.predicate := pure p |} w
    = Done (true,
            {| FilterStreamExtractor.source :=
                 seq_at ((pre ++ fails) ++ x :: rest) (length (pre ++ fails))
                   (1 + length (pre ++ fails));
               FilterStreamExtractor.predicate := pure p |}, w).
Proof.
  induction fails as [|y fails IH]; intros pre c k w Hf Hx Hk;
    more_fuel k Hk; unfold filter_advance_from; fields; monad.
  - rewrite app_nil_r, seq_advance_more. cbn [negb]. rewrite seq_get.
    cbn [FilterStreamExtractor.advance_loop]. fields.
    unfold pure at 1. monad. rewrite Hx. reflexivity.
  - inversion Hf as [|? ? Hy Hf']; subst.
    rewrite <- (app_assoc pre (y :: fails)). cbn [app].
    rewrite seq_advance_more. cbn [negb]. rewrite seq_get.
    rewrite (filter_loop_reject p fuel k _ y w Hy).
    rewrite (app_cons_snoc pre y (fails ++ x :: rest)), app_assoc.
    rewrite <- length_snoc with (x := y) at 1.
    rewrite (IH (pre ++ [y]) (length pre) k w Hf' Hx)
      by (cbn [length] in Hk; lia).
    rewrite <- (app_cons_snoc pre y fails). reflexivity.
Qed.

Lemma filter_advance_from_exhausts (p : T -> bool) fuel suf :
  forall pre c k w,
    Forall (fun y => p y = false) suf ->
    length suf <= k ->
    exists c',
      filter_advance_from fuel k
        {| FilterStreamExtractor.source := seq_at (pre ++ suf) c (length pre);
           FilterStreamExtractor.predicate := pure p |} w
      = Done (false,
              {| FilterStreamExtractor.source :=
                   seq_at (pre ++ suf) c' (length (pre ++ suf));
                 FilterStreamExtractor.predicate := pure p |}, w).
Proof.
  induction suf as [|y suf IH]; intros pre c k w Hf Hk;
    unfold filter_advance_from; fields; monad.
  - rewrite !app_nil_r, seq_advance_end. cbn [negb]. eauto.
  - inversion Hf as [|? ? Hy Hf']; subst. more_fuel k Hk.
    rewrite seq_advance_more. cbn [negb]. rewrite seq_get.
    rewrite (filter_loop_reject p fuel k _ y w Hy).
    rewrite (app_cons_snoc pre y suf), <- length_snoc with (x := y).
    apply IH; [assumption | cbn [length] in Hk; lia].
Qed.

(** Every sequence splits at the first element that satisfies [p]. *)
Lemma split_at_first_match (p : T -> bool) S :
  (exists fails x rest,
      S = fails ++ x :: rest
      /\ Forall (fun y => p y = false) fails /\ p x = true)
  \/ Forall (fun y => p y = false) S.
Proof.
  induction S as [|y S IH]; [right; constructor|].
  destruct (p y) eqn:Hy.
  - left. exists [], y, S. repeat split; [constructor|assumption].
  - destruct IH as [(fails & x & rest & -> & Hf & Hx)|Hall].
    + left. exists (y :: fails), x, rest.
      repeat split; [constructor|]; assumption.
    + right. constructor; assumption.
Qed.

Lemma filter_rejected (p : T -> bool) fails :
  Forall (fun y => p y = false) fails -> List.filter p fails = [].
Proof.
  induction 1 as [|y fails Hy _ IH]; [reflexivity|].
  cbn [List.filter]. rewrite Hy. exact IH.
Qed.

(** One [advance] of the filter stage: it stops on the first element that
    satisfies [p], or runs to the end. *)
Lemma filter_advance_cases (p : T -> bool) fuel suf pre c w :
  length suf < fuel ->
  (exists fails x rest,
      suf = fails ++ x :: rest
      /\ List.filter p suf = x :: List.filter p rest
      /\ p x = true
      /\ advance fuel
           {| FilterStreamExtractor.source := seq_at (pre ++ suf) c (length pre);
              FilterStreamExtractor.predicate := pure p |} w
         = Done (true,
                 {| FilterStreamExtractor.source :=
                      seq_at (pre ++ suf) (length (pre ++ fails))
                        (1 + length (pre ++ fails));
                    FilterStreamExtractor.predicate := pure p |}, w))
  \/ (List.filter p suf = []
      /\ exists c',
          advance fuel
            {| FilterStreamExtractor.source :=
                 seq_at (pre ++ suf) c (length pre);
               FilterStreamExtractor.predicate := pure p |} w
          = Done (false,
                  {| FilterStreamExtractor.source :=
                       seq_at (pre ++ suf) c' (length (pre ++ suf));
                     FilterStreamExtractor.predicate := pure p |}, w)).
Proof.
  intros Hfuel.
  destruct (split_at_first_match p suf)
    as [(fails & x & rest & -> & Hf & Hx)|Hall].
  - left. exists fails, x, rest. repeat split; [|assumption|].
    + rewrite filter_app, (filter_rejected p fails Hf). cbn [app List.filter].
      rewrite Hx. reflexivity.
    + rewrite filter_advance_unfold, app_assoc.
      apply filter_advance_from_finds; try assumption.
      rewrite length_app in Hfuel. lia.
  - right. split; [apply filter_rejected; assumption|].
    rewrite filter_advance_unfold.
    apply filter_advance_from_exhausts; [assumption|lia].
Qed.

Lemma filter_get (q : T -> comp W bool) pre x suf i w :
  get {| FilterStreamExtractor.source :=
           seq_at (pre ++ x :: suf) (length pre) i;
         FilterStreamExtractor.predicate := q |} w
  = Done (x, {| FilterStreamExtractor.source :=
                  seq_at (pre ++ x :: suf) (length pre) i;
                FilterStreamExtractor.predicate := q |}, w).
Proof. stage. rewrite seq_get. reflexivity. Qed.

Lemma filter_all_loop (p : T -> bool) fuel n : forall suf pre c k w,
  length suf <= n ->
  length suf < fuel ->
  length suf < k ->
  exists e',
    all_loop fuel k (pure p)
      {| FilterStreamExtractor.source := seq_at (pre ++ suf) c (length pre);
         FilterStreamExtractor.predicate := pure p |} w
    = Done (true, e', w).
Proof.
  induction n as [|n IH]; intros suf pre c k w Hn Hfuel Hk;
    more_fuel k Hk; cbn [all_loop]; monad;
    destruct (filter_advance_cases p fuel suf pre c w Hfuel)
      as [(fails & x & rest & -> & _ & Hx & ->)|(_ & c' & ->)]; eauto.
  - rewrite length_app in Hn. cbn [length] in Hn. lia.
  - rewrite (app_assoc pre fails (x :: rest)), filter_get.
    unfold pure at 1. monad. rewrite Hx. cbn [negb].
    rewrite (app_cons_snoc (pre ++ fails) x rest).
    change (1 + length (pre ++ fails)) with (S (length (pre ++ fails))).
    rewrite <- length_snoc with (x := x).
    rewrite length_app in Hn, Hfuel, Hk. cbn [length] in Hn, Hfuel, Hk.
    apply IH; lia.
Qed.

Lemma filter_collect_loop (p : T -> bool) fuel n : forall suf pre c k acc w,
  length suf <= n ->
  length suf < fuel ->
  length suf < k ->
  exists e',
    collect_loop fuel k
      {| FilterStreamExtractor.source := seq_at (pre ++ suf) c (length pre);
         FilterStreamExtractor.predicate := pure p |} acc w
    = Done (acc ++ List.filter p suf, e', w).
Proof.
  induction n as [|n IH]; intros suf pre c k acc w Hn Hfuel Hk;
    more_fuel k Hk; cbn [collect_loop]; monad;
    destruct (filter_advance_cases p fuel suf pre c w Hfuel)
      as [(fails & x & rest & -> & -> & Hx & ->)|(-> & c' & ->)];
    try (rewrite app_nil_r; eauto).
  - rewrite length_app in Hn. cbn [length] in Hn. lia.
  - rewrite (app_assoc pre fails (x :: rest)), filter_get.
    rewrite (app_cons_snoc (pre ++ fails) x rest).
    change (1 + length (pre ++ fails)) with (S (length (pre ++ fails))).
    rewrite <- length_snoc with (x := x).
    rewrite length_app in Hn, Hfuel, Hk. cbn [length] in Hn, Hfuel, Hk.
    destruct (IH rest ((pre ++ fails) ++ [x]) (length (pre ++ fails)) k
                (acc ++ [x]) w) as [e' He']; try lia.
    exists e'. rewrite He', <- app_assoc. reflexivity.
Qed.

End FilterFacts.

(** C8. For every sequence [S] and predicate [p],
    [from(S).filter(p).all(p)] returns true, the empty sequence included:
    the filter stage emits exactly the elements of [S] that satisfy [p], in
    order, so every retained element satisfies [p], and [all] answers true
    when the stream is exhausted without a failure. *)
Theorem filter_then_all_true
  (W T : Type) (S : list T) (p : T -> bool) (fuel : nat) (w : W) :
  length S < fuel ->
  exists h hc,
    all fuel (filter (from S) (pure p)) (pure p) w = Done (true, h, w)
    /\ collect fuel (filter (from S) (pure p)) w
       = Done (List.filter p S, hc, w)
    /\ Forall (fun x => p x = true) (List.filter p S).
Proof.
  intros Hfuel.
  destruct (filter_all_loop p fuel (length S) S [] 0 fuel w
              (le_n _) Hfuel Hfuel) as [e1 He1].
  destruct (filter_collect_loop p fuel (length S) S [] 0 fuel [] w
              (le_n _) Hfuel Hfuel) as [e2 He2].
  cbn [app length] in He1, He2.
  unfold all, collect, filter, from, BaseStreamInterface.make,
    FilterStreamExtractor.make. fields.
  change (SequenceStreamExtractor.make (std_begin S) (std_end S))
    with (seq_at S 0 0).
  monad. rewrite He1, He2.
  do 2 eexists. repeat split.
  apply Forall_forall. intros x Hx. apply filter_In in Hx. tauto.
Qed.

(** ** Exhaustion is a trap state of every stage *)

Section ExhaustibleSequence.
Context {W T : Type}.

Lemma sequence_advance_false fuel (s : SequenceStreamExtractor.t T) (w : W)
  (s' : SequenceStreamExtractor.t T) (w' : W) :
  advance fuel s w = Done (false, s', w') -> sequence_exhausted s'.
Proof.
  cbn [advance SequenceStreamExtractor.extractor].
  unfold SequenceStreamExtractor.advance_impl, iter_neq, sequence_exhausted.
  destruct (Nat.eqb_spec (pos (SequenceStreamExtractor.next s))
              (pos (SequenceStreamExtractor.end_ s))) as [Heq|Hne];
    cbn [negb]; monad; [|discriminate].
  intros [= <- _]. exact Heq.
Qed.

Lemma sequence_exhausted_advance fuel (s : SequenceStreamExtractor.t T) (w : W) :
  sequence_exhausted s ->
  exists s', advance fuel s w = Done (false, s', w) /\ sequence_exhausted s'.
Proof.
  intros Hs. exists s. split; [|exact Hs].
  cbn [advance SequenceStreamExtractor.extractor].
  unfold SequenceStreamExtractor.advance_impl, iter_neq.
  unfold sequence_exhausted in Hs. rewrite Hs, Nat.eqb_refl. reflexivity.
Qed.

End ExhaustibleSequence.

#[global] Instance sequence_exhaustible (W T : Type) :
  Exhaustible W (SequenceStreamExtractor.t T) T :=
  {| exhausted := sequence_exhausted;
     advance_false_exhausted := sequence_advance_false;
     exhausted_advance := fun fuel e w _ => sequence_exhausted_advance fuel e w |}.

Section ExhaustibleStages.
Context {W E T : Type} `{Exhaustible W E T}.

(** Case analysis on a call of the upstream [advance]. *)
Ltac upstream src w :=
  let b := fresh "b" in
  let src' := fresh "src" in
  let w' := fresh "w" in
  let Hadv := fresh "Hadv" in
  destruct (advance _ src w) as [[[b src'] w']| |] eqn:Hadv;
  [destruct b|..]; try discriminate.

(** *** Skip *)

Lemma skip_loop_false fuel : forall k (s s' : SkipFirstStreamExtractor.t E) w w',
  SkipFirstStreamExtractor.advance_loop fuel k s w = Done (false, s', w') ->
  exhausted (SkipFirstStreamExtractor.source s').
Proof.
  induction k as [|k IH]; intros s s' w w'; [discriminate|].
  cbn [SkipFirstStreamExtractor.advance_loop].
  destruct (negb (SkipFirstStreamExtractor.skipCount s =? 0)%Z); monad;
    upstream (SkipFirstStreamExtractor.source s) w; cbn [negb].
  - apply IH.
  - intros [= <- <-]. fields. eapply advance_false_exhausted; eassumption.
  - intros [= <- <-]. fields. eapply advance_false_exhausted; eassumption.
Qed.

Lemma skip_exhausted_advance fuel (s : SkipFirstStreamExtractor.t E) w :
  0 < fuel ->
  exhausted (SkipFirstStreamExtractor.source s) ->
  exists s',
    advance fuel s w = Done (false, s', w)
    /\ exhausted (SkipFirstStreamExtractor.source s').
Proof.
  intros Hfuel Hs.
  destruct (exhausted_advance fuel _ w Hfuel Hs) as (src' & Hadv & Hsrc').
  stage. more_fuel fuel Hfuel.
  cbn [SkipFirstStreamExtractor.advance_loop].
  destruct (negb (SkipFirstStreamExtractor.skipCount s =? 0)%Z); monad;
    rewrite Hadv; cbn [negb]; eexists; (split; [reflexivity|exact Hsrc']).
Qed.

#[global] Instance skip_exhaustible :
  Exhaustible W (SkipFirstStreamExtractor.t E) T :=
  {| exhausted := fun s => exhausted (SkipFirstStreamExtractor.source s);
     advance_false_exhausted :=
       fun fuel e w e' w' => skip_loop_false fuel fuel e e' w w';
     exhausted_advance := skip_exhausted_advance |}.

(** *** SkipWhile *)

Lemma skipWhile_loop_still_skipping fuel :
  forall k (s s' : SkipWhileStreamExtractor.t W E T) w w',
    SkipWhileStreamExtractor.advance_loop fuel k s w = Done (s', w') ->
    SkipWhileStreamExtractor.skipping s' = true ->
    exhausted (SkipWhileStreamExtractor.source s').
Proof.
  induction k as [|k IH]; intros s s' w w'; [discriminate|].
  cbn [SkipWhileStreamExtractor.advance_loop].
  destruct (SkipWhileStreamExtractor.skipping s) eqn:Hsk; monad.
  - upstream (SkipWhileStreamExtractor.source s) w.
    + destruct (get src w0) as [[[x src'] w1]| |]; try discriminate.
      destruct (SkipWhileStreamExtractor.predicate s x w1) as [[q w2]| |];
        try discriminate.
      apply IH.
    + intros [= <- <-] _. fields.
      eapply advance_false_exhausted; eassumption.
  - intros [= <- <-] Hsk'. congruence.
Qed.

Lemma skipWhile_advance_false fuel (s : SkipWhileStreamExtractor.t W E T) w
  (s' : SkipWhileStreamExtractor.t W E T) w' :
  advance fuel s w = Done (false, s', w') ->
  exhausted (SkipWhileStreamExtractor.source s').
Proof.
  stage. destruct (SkipWhileStreamExtractor.skipping s); monad.
  - destruct (SkipWhileStreamExtractor.advance_loop fuel fuel s w)
      as [[s1 w1]| |] eqn:Hloop; try discriminate.
    intros [= Hsk <- <-].
    apply (skipWhile_loop_still_skipping fuel fuel s s1 w w1 Hloop).
    destruct (SkipWhileStreamExtractor.skipping s1); [reflexivity|discriminate].
  - upstream (SkipWhileStreamExtractor.source s) w.
    intros [= <- <-]. fields. eapply advance_false_exhausted; eassumption.
Qed.

Lemma skipWhile_exhausted_advance fuel (s : SkipWhileStreamExtractor.t W E T) w :
  0 < fuel ->
  exhausted (SkipWhileStreamExtractor.source s) ->
  exists s',
    advance fuel s w = Done (false, s', w)
    /\ exhausted (SkipWhileStreamExtractor.source s').
Proof.
  intros Hfuel Hs.
  destruct (exhausted_advance fuel _ w Hfuel Hs) as (src' & Hadv & Hsrc').
  stage. destruct (SkipWhileStreamExtractor.skipping s) eqn:Hsk; monad.
  - more_fuel fuel Hfuel. cbn [SkipWhileStreamExtractor.advance_loop].
    rewrite Hsk. monad. rewrite Hadv. fields.
    eexists. split; [reflexivity|exact Hsrc'].
  - rewrite Hadv. eexists. split; [reflexivity|exact Hsrc'].
Qed.

#[global] Instance skipWhile_exhaustible :
  Exhaustible W (SkipWhileStreamExtractor.t W E T) T :=
  {| exhausted := fun s => exhausted (SkipWhileStreamExtractor.source s);
     advance_false_exhausted := skipWhile_advance_false;
     exhausted_advance := skipWhile_exhausted_advance |}.

(** *** Take: the limit at zero, or the upstream run dry *)

Lemma take_advance_false fuel (s : TakeStreamExtractor.t E) w
  (s' : TakeStreamExtractor.t E) w' :
  advance fuel s w = Done (false, s', w') -> take_exhausted s'.
Proof.
  stage. destruct (Z.eqb_spec (TakeStreamExtractor.limit s) 0) as [Hz|Hnz];
    cbn [negb]; monad.
  - intros [= <- <-]. left. exact Hz.
  - upstream (TakeStreamExtractor.source s) w.
    intros [= <- <-]. right. fields.
    eapply advance_false_exhausted; eassumption.
Qed.

Lemma take_exhausted_advance fuel (s : TakeStreamExtractor.t E) w :
  0 < fuel ->
  take_exhausted s ->
  exists s', advance fuel s w = Done (false, s', w) /\ take_exhausted s'.
Proof.
  intros Hfuel Hs. stage.
  destruct (Z.eqb_spec (TakeStreamExtractor.limit s) 0) as [Hz|Hnz];
    cbn [negb]; monad.
  - exists s. split; [reflexivity|]. left. exact Hz.
  - destruct Hs as [Hz|Hs]; [contradiction|].
    destruct (exhausted_advance fuel _ w Hfuel Hs) as (src' & Hadv & Hsrc').
    rewrite Hadv. eexists. split; [reflexivity|]. right. exact Hsrc'.
Qed.

#[global] Instance take_exhaustible :
  Exhaustible W (TakeStreamExtractor.t E) T :=
  {| exhausted := take_exhausted;
     advance_false_exhausted := take_advance_false;
     exhausted_advance := take_exhausted_advance |}.

(** *** TakeWhile: the [taking] flag is a latch *)

Lemma takeWhile_advance_false fuel (s : TakeWhileStreamExtractor.t W E T) w
  (s' : TakeWhileStreamExtractor.t W E T) w' :
  advance fuel s w = Done (false, s', w') ->
  TakeWhileStreamExtractor.taking s' = false.
Proof.
  stage. destruct (TakeWhileStreamExtractor.taking s); monad.
  - upstream (TakeWhileStreamExtractor.source s) w.
    + destruct (get src w0) as [[[x src'] w1]| |]; try discriminate.
      destruct (TakeWhileStreamExtractor.predicate s x w1) as [[q w2]| |];
        try discriminate.
      intros [= Hq <- <-]. exact Hq.
    + intros [= <- <-]. reflexivity.
  - intros [= <- <-]. reflexivity.
Qed.

Lemma takeWhile_exhausted_advance fuel (s : TakeWhileStreamExtractor.t W E T) w :
  0 < fuel ->
  TakeWhileStreamExtractor.taking s = false ->
  exists s',
    advance fuel s w = Done (false, s', w)
    /\ TakeWhileStreamExtractor.taking s' = false.
Proof.
  intros _ Hs. stage. rewrite Hs. monad.
  eexists. split; reflexivity.
Qed.

#[global] Instance takeWhile_exhaustible :
  Exhaustible W (TakeWhileStreamExtractor.t W E T) T :=
  {| exhausted := fun s => TakeWhileStreamExtractor.taking s = false;
     advance_false_exhausted := takeWhile_advance_false;
     exhausted_advance := takeWhile_exhausted_advance |}.

(** *** Filter *)

Lemma filter_loop_false fuel :
  forall k (s s' : FilterStreamExtractor.t W E T) x w w',
    FilterStreamExtractor.advance_loop fuel k s x w = Done (false, s', w') ->
    exhausted (FilterStreamExtractor.source s').
Proof.
  induction k as [|k IH]; intros s s' x w w'; [discriminate|].
  cbn [FilterStreamExtractor.advance_loop]. monad.
  destruct (FilterStreamExtractor.predicate s x w) as [[q w1]| |];
    try discriminate.
  destruct q; cbn [negb]; monad; [discriminate|].
  upstream (FilterStreamExtractor.source s) w1.
  - destruct (get src w0) as [[[y src'] w2]| |]; try discriminate. apply IH.
  - intros [= <- <-]. fields. eapply advance_false_exhausted; eassumption.
Qed.

Lemma filter_advance_false fuel (s : FilterStreamExtractor.t W E T) w
  (s' : FilterStreamExtractor.t W E T) w' :
  advance fuel s w = Done (false, s', w') ->
  exhausted (FilterStreamExtractor.source s').
Proof.
  stage. upstream (FilterStreamExtractor.source s) w; cbn [negb].
  - destruct (get src w0) as [[[y src'] w2]| |]; try discriminate.
    apply filter_loop_false.
  - intros [= <- <-]. fields. eapply advance_false_exhausted; eassumption.
Qed.

Lemma filter_exhausted_advance fuel (s : FilterStreamExtractor.t W E T) w :
  0 < fuel ->
  exhausted (FilterStreamExtractor.source s) ->
  exists s',
    advance fuel s w = Done (false, s', w)
    /\ exhausted (FilterStreamExtractor.source s').
Proof.
  intros Hfuel Hs.
  destruct (exhausted_advance fuel _ w Hfuel Hs) as (src' & Hadv & Hsrc').
  stage. rewrite Hadv. cbn [negb].
  eexists. split; [reflexivity|exact Hsrc'].
Qed.

#[global] Instance filter_exhaustible :
  Exhaustible W (FilterStreamExtractor.t W E T) T :=
  {| exhausted := fun s => exhausted (FilterStreamExtractor.source s);
     advance_false_exhausted := filter_advance_false;
     exhausted_advance := filter_exhausted_advance |}.

(** *** Map and Inspect: [advance] is a pure delegate *)

Lemma map_advance_false {U : Type} fuel (s : MapStreamExtractor.t W E T U) w
  (s' : MapStreamExtractor.t W E T U) w' :
  advance fuel s w = Done (false, s', w') ->
  exhausted (MapStreamExtractor.source s').
Proof.
  stage. upstream (MapStreamExtractor.source s) w.
  intros [= <- <-]. fields. eapply advance_false_exhausted; eassumption.
Qed.

Lemma map_exhausted_advance {U : Type} fuel (s : MapStreamExtractor.t W E T U) w :
  0 < fuel ->
  exhausted (MapStreamExtractor.source s) ->
  exists s',
    advance fuel s w = Done (false, s', w)
    /\ exhausted (MapStreamExtractor.source s').
Proof.
  intros Hfuel Hs.
  destruct (exhausted_advance fuel _ w Hfuel Hs) as (src' & Hadv & Hsrc').
  stage. rewrite Hadv. eexists. split; [reflexivity|exact Hsrc'].
Qed.

#[global] Instance map_exhaustible (U : Type) :
  Exhaustible W (MapStreamExtractor.t W E T U) U :=
  {| exhausted := fun s => exhausted (MapStreamExtractor.source s);
     advance_false_exhausted := map_advance_false;
     exhausted_advance := map_exhausted_advance |}.

Lemma inspect_advance_false fuel (s : InspectStreamExtractor.t W E T) w
  (s' : InspectStreamExtractor.t W E T) w' :
  advance fuel s w = Done (false, s', w') ->
  exhausted (InspectStreamExtractor.source s').
Proof.
  stage. upstream (InspectStreamExtractor.source s) w.
  intros [= <- <-]. fields. eapply advance_false_exhausted; eassumption.
Qed.

Lemma inspect_exhausted_advance fuel (s : InspectStreamExtractor.t W E T) w :
  0 < fuel ->
  exhausted (InspectStreamExtractor.source s) ->
  exists s',
    advance fuel s w = Done (false, s', w)
    /\ exhausted (InspectStreamExtractor.source s').
Proof.
  intros Hfuel Hs.
  destruct (exhausted_advance fuel _ w Hfuel Hs) as (src' & Hadv & Hsrc').
  stage. rewrite Hadv. eexists. split; [reflexivity|exact Hsrc'].
Qed.

#[global] Instance inspect_exhaustible :
  Exhaustible W (InspectStreamExtractor.t W E T) T :=
  {| exhausted := fun s => exhausted (InspectStreamExtractor.source s);
     advance_false_exhausted := inspect_advance_false;
     exhausted_advance := inspect_exhausted_advance |}.

End ExhaustibleStages.

(** ** Handles over exhaustible extractors *)

Section ExhaustedHandles.
Context {W E T : Type} `{Exhaustible W E T}.

Lemma next_none_exhausted fuel (h h' : BaseStreamInterface.t E) w w' :
  next fuel h w = Done (None, h', w') -> exhausted (extractor h').
Proof.
  unfold next. monad.
  destruct (advance fuel (extractor h) w) as [[[b e] w0]| |] eqn:Hadv;
    try discriminate.
  destruct b.
  - destruct (get e w0) as [[[x e'] w1]| |]; discriminate.
  - intros [= <- <-]. cbn [extractor BaseStreamInterface.make].
    exact (advance_false_exhausted _ _ _ _ _ Hadv).
Qed.

Lemma count_loop_exhausted fuel : forall k (e e' : E) counter n w w',
  count_loop fuel k e counter w = Done (n, e', w') -> exhausted e'.
Proof.
  induction k as [|k IH]; intros e e' counter n w w'; [discriminate|].
  cbn [count_loop]. monad.
  destruct (advance fuel e w) as [[[b e0] w0]| |] eqn:Hadv; try discriminate.
  destruct b; [apply IH|].
  intros [= _ <- <-]. exact (advance_false_exhausted _ _ _ _ _ Hadv).
Qed.

Lemma collect_loop_exhausted fuel : forall k (e e' : E) acc xs w w',
  collect_loop fuel k e acc w = Done (xs, e', w') -> exhausted e'.
Proof.
  induction k as [|k IH]; intros e e' acc xs w w'; [discriminate|].
  cbn [collect_loop]. monad.
  destruct (advance fuel e w) as [[[b e0] w0]| |] eqn:Hadv; try discriminate.
  destruct b.
  - destruct (get e0 w0) as [[[x e1] w1]| |]; try discriminate. apply IH.
  - intros [= _ <- <-]. exact (advance_false_exhausted _ _ _ _ _ Hadv).
Qed.

Lemma next_exhausted fuel (h : BaseStreamInterface.t E) w :
  0 < fuel ->
  exhausted (extractor h) ->
  exists h', next fuel h w = Done (None, h', w) /\ exhausted (extractor h').
Proof.
  intros Hfuel Hh.
  destruct (exhausted_advance fuel _ w Hfuel Hh) as (e' & Hadv & He').
  unfold next. monad. rewrite Hadv.
  eexists. split; [reflexivity|exact He'].
Qed.

Lemma next_n_exhausted fuel : forall k (h : BaseStreamInterface.t E) w,
  0 < fuel ->
  exhausted (extractor h) ->
  exists h', next_n fuel k h w = Done (repeat None k, h', w).
Proof.
  induction k as [|k IH]; intros h w Hfuel Hh; [eexists; reflexivity|].
  destruct (next_exhausted fuel h w Hfuel Hh) as (h1 & Hnext & Hh1).
  destruct (IH h1 w Hfuel Hh1) as (h2 & Hh2).
  exists h2. cbn [next_n repeat]. monad. rewrite Hnext, Hh2. reflexivity.
Qed.

Lemma same_result_refl {A B : Type} (o : outcome (A * B * W)) :
  same_result o o.
Proof. destruct o as [[[a b] w]| |]; cbn; auto. Qed.

(** The loop of [nth] followed by [next] agrees with the documented
    behaviour: when the loop stops on exhaustion, the extra [advance] that
    [next] makes answers false again. *)
Lemma nth_loop_refines fuel : forall m n k (e : E) w,
  0 < fuel ->
  in_size_t n ->
  Z.to_nat n = m ->
  m < k ->
  same_result
    ((e' <- nth_loop fuel k n e ;; next fuel (BaseStreamInterface.make e')) w)
    (nth_spec_loop fuel m e w).
Proof.
  induction m as [|m IH]; intros n k e w Hfuel Hn Hm Hk; more_fuel k Hk;
    cbn [nth_loop nth_spec_loop]; unfold in_size_t in Hn.
  - replace n with 0%Z by lia. cbn [Z.eqb negb]. monad.
    apply same_result_refl.
  - destruct (Z.eqb_spec n 0) as [->|Hnz]; [discriminate|]. cbn [negb]. monad.
    destruct (advance fuel e w) as [[[b e0] w0]| |] eqn:Hadv; cbn; auto.
    destruct b.
    + apply (IH (size_dec n) k e0 w0 Hfuel).
      * apply size_wrap_in_range.
      * rewrite size_dec_pos by (unfold in_size_t; lia). lia.
      * lia.
    + pose proof (advance_false_exhausted _ _ _ _ _ Hadv) as He0.
      destruct (next_exhausted fuel (BaseStreamInterface.make e0) w0 Hfuel He0)
        as (h1 & Hnext & _).
      rewrite Hnext. cbn. auto.
Qed.

End ExhaustedHandles.

(** C6. Exhaustion is idempotent, for every stream handle: the handles are
    those over an exhaustible extractor, which [from] and every chaining
    method produce (the instances above).  Once [next] has returned empty,
    or [count] or [collect] has run to completion, every subsequent [next]
    on the handle so left returns empty, however many are made, and the
    world is not touched. *)
Theorem exhaustion_idempotent
  (W E T : Type) (X : StreamExtractor W E T) (Exh : Exhaustible W E T)
  (fuel : nat) (h h' : BaseStreamInterface.t E) (w w' : W) (k : nat) :
  0 < fuel ->
  (next fuel h w = Done (None, h', w')
   \/ (exists n, count fuel h w = Done (n, h', w'))
   \/ (exists xs, collect fuel h w = Done (xs, h', w'))) ->
  exists h'', next_n fuel k h' w' = Done (repeat None k, h'', w').
Proof.
  intros Hfuel Hspent. apply next_n_exhausted; [exact Hfuel|].
  destruct Hspent as [Hnext|[[n Hcount]|[xs Hcollect]]].
  - exact (next_none_exhausted fuel h h' w w' Hnext).
  - unfold count, bind, ret in Hcount.
    destruct (count_loop fuel fuel (extractor h) 0%Z w)
      as [[[n0 e0] w0]| |] eqn:Hloop; try discriminate.
    injection Hcount as _ <- <-. cbn [extractor BaseStreamInterface.make].
    exact (count_loop_exhausted fuel fuel _ _ _ _ _ _ Hloop).
  - unfold collect, bind, ret in Hcollect.
    destruct (collect_loop fuel fuel (extractor h) [] w)
      as [[[xs0 e0] w0]| |] eqn:Hloop; try discriminate.
    injection Hcollect as _ <- <-. cbn [extractor BaseStreamInterface.make].
    exact (collect_loop_exhausted fuel fuel _ _ _ _ _ _ Hloop).
Qed.

(** ** [nth] over a sequence *)

Section SequenceNth.
Context {W T : Type}.
Implicit Types (S pre suf : list T) (w : W).

Lemma seq_next_at_end fuel S c w :
  next fuel (BaseStreamInterface.make (seq_at S c (length S))) w
  = Done (None, BaseStreamInterface.make (seq_at S c (length S)), w).
Proof.
  unfold next. cbn [extractor BaseStreamInterface.make]. monad.
  rewrite seq_advance_end. reflexivity.
Qed.

Lemma seq_nth fuel suf : forall pre c k n w,
  in_size_t n ->
  length suf < k ->
  exists h',
    (e <- nth_loop fuel k n (seq_at (pre ++ suf) c (length pre)) ;;
     next fuel (BaseStreamInterface.make e)) w
    = Done (nth_error suf (Z.to_nat n), h', w).
Proof.
  induction suf as [|x suf IH]; intros pre c k n w Hn Hk; more_fuel k Hk;
    cbn [nth_loop]; destruct (Z.eqb_spec n 0) as [->|Hnz]; cbn [negb]; monad.
  - rewrite app_nil_r, seq_next_at_end. eexists. reflexivity.
  - rewrite app_nil_r, seq_advance_end, seq_next_at_end.
    eexists. destruct (Z.to_nat n); reflexivity.
  - unfold next. cbn [extractor BaseStreamInterface.make]. monad.
    rewrite seq_advance_more, seq_get. eexists. reflexivity.
  - rewrite seq_advance_more.
    rewrite (app_cons_snoc pre x suf), <- length_snoc with (x := x).
    destruct (IH (pre ++ [x]) (length pre) k (size_dec n) w) as [h' Hh'];
      [apply size_wrap_in_range | cbn [length] in Hk; lia |].
    exists h'. unfold bind, ret in Hh'. cbn beta iota in Hh'.
    rewrite Hh'. rewrite size_dec_pos by assumption.
    unfold in_size_t in Hn.
    replace (Z.to_nat n) with (1 + Z.to_nat (n - 1)) by lia. reflexivity.
Qed.

End SequenceNth.

(** C7. [nth(n)] advances and discards [n] elements, stops early with an
    empty result if the stream is exhausted first, and then behaves as
    [next()]:
    - on every handle [h] (over an exhaustible extractor) it returns what
      the documented procedure [nth_spec] returns and leaves the same world;
    - on a sequence handle with the elements [suf] remaining it returns the
      [(n+1)]-th of them, and empty when fewer than [n+1] remain. *)
Theorem nth_discards_then_next
  (W E T : Type) (X : StreamExtractor W E T) (Exh : Exhaustible W E T)
  (h : BaseStreamInterface.t E) (pre suf : list T) (c : nat)
  (n : Z) (fuel : nat) (w : W) :
  in_size_t n ->
  (Z.to_nat n < fuel ->
   same_result (nth fuel h n w) (nth_spec fuel h n w))
  /\ (length suf < fuel ->
      exists h',
        nth fuel (BaseStreamInterface.make (seq_at (pre ++ suf) c (length pre)))
          n w
        = Done (nth_error suf (Z.to_nat n), h', w)
        /\ (length suf <= Z.to_nat n -> nth_error suf (Z.to_nat n) = None)).
Proof.
  intros Hn. split.
  - intros Hfuel. unfold nth, nth_spec.
    apply nth_loop_refines; [lia | assumption | reflexivity | assumption].
  - intros Hfuel.
    destruct (seq_nth fuel suf pre c fuel n w Hn Hfuel) as [h' Hh'].
    exists h'. split; [exact Hh'|]. apply nth_error_None.
Qed.

(** * The theorems at concrete inputs *)

Lemma in_size_t_small (n : Z) :
  (0 <= n)%Z -> (n < 1000)%Z -> in_size_t n.
Proof.
  intros H0 H1. unfold in_size_t. split; [exact H0|].
  apply Z.lt_trans with 1000%Z; [exact H1|reflexivity].
Defined.

Lemma takeWhile_collect_longest_prefix_witness :
  length [5; 6; 1; 2; 9]%Z < 6
  /\ exists out rest h,
      [5; 6; 1; 2; 9]%Z = out ++ rest
      /\ Forall (fun x => (3 <? x)%Z = true) out
      /\ match rest with [] => True | x :: _ => (3 <? x)%Z = false end
      /\ collect 6 (takeWhile (from [5; 6; 1; 2; 9]%Z)
                      (pure (fun x => 3 <? x)%Z)) tt
         = Done (out, h, tt)
      /\ pos (SequenceStreamExtractor.next
                (TakeWhileStreamExtractor.source (extractor h)))
         = length out + match rest with [] => 0 | _ :: _ => 1 end
      /\ TakeWhileStreamExtractor.taking (extractor h) = false.
Proof.
  split; [cbn; lia|].
  apply (takeWhile_collect_longest_prefix unit Z [5; 6; 1; 2; 9]%Z
           (fun x => 3 <? x)%Z 6 tt).
  cbn; lia.
Defined.

Lemma take_count_min_witness :
  in_size_t 2
  /\ length [7; 8; 9]%Z < 4
  /\ exists h,
      count 4 (take (from [7; 8; 9]%Z) 2) tt
      = Done (Z.min 2 (Z.of_nat (length [7; 8; 9]%Z)), h, tt)
      /\ (Z.min 2 (Z.of_nat (length [7; 8; 9]%Z)) <= 2)%Z.
Proof.
  assert (H2 : in_size_t 2) by (apply in_size_t_small; lia).
  assert (Hlen : length [7; 8; 9]%Z < 4) by (cbn; lia).
  split; [exact H2|]. split; [exact Hlen|].
  exact (take_count_min unit Z [7; 8; 9]%Z 2 4 tt H2 Hlen).
Defined.

Lemma skipWhile_drops_leading_then_passes_witness :
  (length [1; 2; 5; 1]%Z < 5
   /\ [1; 2; 5; 1]%Z = [1; 2]%Z ++ 5%Z :: [1]%Z
   /\ Forall (fun y => (y <? 3)%Z = true) [1; 2]%Z
   /\ (5 <? 3)%Z = false
   /\ exists e1 h2 h3,
       advance 5 (extractor (skipWhile (from [1; 2; 5; 1]%Z)
                               (pure (fun y => y <? 3)%Z))) tt
       = Done (true, e1, tt)
       /\ SkipWhileStreamExtractor.skipping e1 = false
       /\ get e1 tt = Done (5%Z, e1, tt)
       /\ collect 5 (BaseStreamInterface.make e1) tt = Done ([1]%Z, h2, tt)
       /\ collect 5 (skipWhile (from [1; 2; 5; 1]%Z)
                       (pure (fun y => y <? 3)%Z)) tt
          = Done ([5; 1]%Z, h3, tt))
  /\ (length [1; 2]%Z < 3
      /\ Forall (fun y => (y <? 3)%Z = true) [1; 2]%Z
      /\ (forall k, exists e',
             advance_n 3 (1 + k)
               (extractor (skipWhile (from [1; 2]%Z)
                             (pure (fun y => y <? 3)%Z))) tt
             = Done (repeat false (1 + k), e', tt))
      /\ exists h,
          collect 3 (skipWhile (from [1; 2]%Z) (pure (fun y => y <? 3)%Z)) tt
          = Done ([], h, tt)).
Proof.
  assert (Hall : Forall (fun y => (y <? 3)%Z = true) [1; 2]%Z)
    by (repeat constructor).
  assert (Hlen1 : length [1; 2; 5; 1]%Z < 5) by (cbn; lia).
  assert (Hlen2 : length [1; 2]%Z < 3) by (cbn; lia).
  split.
  - split; [exact Hlen1|]. split; [reflexivity|]. split; [exact Hall|].
    split; [reflexivity|].
    exact (proj1 (skipWhile_drops_leading_then_passes unit Z [1; 2; 5; 1]%Z
                    (fun y => y <? 3)%Z 5 tt Hlen1)
             [1; 2]%Z 5%Z [1]%Z eq_refl Hall eq_refl).
  - split; [exact Hlen2|]. split; [exact Hall|].
    exact (proj2 (skipWhile_drops_leading_then_passes unit Z [1; 2]%Z
                    (fun y => y <? 3)%Z 3 tt Hlen2) Hall).
Defined.

Lemma take_limit_latch_witness :
  (in_size_t 0
   /\ advance 1 (TakeStreamExtractor.make (seq_at [7; 8]%Z 0 0) 0) tt
      = Done (false, TakeStreamExtractor.make (seq_at [7; 8]%Z 0 0) 0, tt)
   /\ forall k,
       advance_n 1 k (TakeStreamExtractor.make (seq_at [7; 8]%Z 0 0) 0) tt
       = Done (repeat false k,
               TakeStreamExtractor.make (seq_at [7; 8]%Z 0 0) 0, tt))
  /\ (in_size_t 2
      /\ advance 1 (TakeStreamExtractor.make (seq_at [7; 8]%Z 0 0) 2) tt
         = Done (true, TakeStreamExtractor.make (seq_at [7; 8]%Z 0 1) 1, tt)
      /\ (0 <= 1 <= 2)%Z).
Proof.
  assert (H0 : in_size_t 0) by (apply in_size_t_small; lia).
  assert (H2 : in_size_t 2) by (apply in_size_t_small; lia).
  split.
  - split; [exact H0|].
    exact (proj1 (take_limit_latch unit _ Z _
                    (TakeStreamExtractor.make (seq_at [7; 8]%Z 0 0) 0) 1 tt H0)
             eq_refl).
  - split; [exact H2|]. split; [reflexivity|].
    exact (proj2 (take_limit_latch unit _ Z _
                    (TakeStreamExtractor.make (seq_at [7; 8]%Z 0 0) 2) 1 tt H2)
             true (TakeStreamExtractor.make (seq_at [7; 8]%Z 0 1) 1) tt
             eq_refl).
Defined.

Lemma map_collect_elementwise_witness :
  length [1; 2; 3]%Z < 4
  /\ exists xs h hm,
      collect 4 (from [1; 2; 3]%Z) tt = Done (xs, h, tt)
      /\ collect 4 (map (from [1; 2; 3]%Z) (pure (fun x => x * 10)%Z)) tt
         = Done (List.map (fun x => x * 10)%Z xs, hm, tt)
      /\ xs = [1; 2; 3]%Z.
Proof.
  split; [cbn; lia|].
  apply (map_collect_elementwise unit Z Z [1; 2; 3]%Z (fun x => x * 10)%Z 4 tt).
  cbn; lia.
Defined.

Lemma exhaustion_idempotent_witness :
  0 < 5
  /\ exists h',
      count 5 (map (take (filter (skip (from [1; 2; 3; 4; 5; 6]%Z) 1)
                            (pure Z.even)) 2)
                 (pure (fun x => x * 10)%Z)) tt
      = Done (2%Z, h', tt)
      /\ exists h'', next_n 5 3 h' tt = Done ([None; None; None], h'', tt).
Proof.
  split; [lia|]. eexists. split; [reflexivity|].
  apply (exhaustion_idempotent unit _ Z _ _ 5
           (map (take (filter (skip (from [1; 2; 3; 4; 5; 6]%Z) 1)
                         (pure Z.even)) 2)
              (pure (fun x => x * 10)%Z))
           _ tt tt 3); [lia|].
  right. left. exists 2%Z. reflexivity.
Defined.

Lemma nth_discards_then_next_witness :
  (in_size_t 1
   /\ Z.to_nat 1 < 4
   /\ same_result (nth 4 (take (from [10; 20; 30]%Z) 2) 1 tt)
        (nth_spec 4 (take (from [10; 20; 30]%Z) 2) 1 tt)
   /\ length [20; 30]%Z < 4
   /\ exists h',
       nth 4 (BaseStreamInterface.make
                (seq_at ([10]%Z ++ [20; 30]%Z) 0 (length [10]%Z))) 1 tt
       = Done (nth_error [20; 30]%Z (Z.to_nat 1), h', tt))
  /\ (in_size_t 2
      /\ length [20; 30]%Z <= Z.to_nat 2
      /\ nth_error [20; 30]%Z (Z.to_nat 2) = None).
Proof.
  assert (H1 : in_size_t 1) by (apply in_size_t_small; lia).
  assert (H2 : in_size_t 2) by (apply in_size_t_small; lia).
  assert (Hn : Z.to_nat 1 < 4) by (cbn; lia).
  assert (Hlen : length [20; 30]%Z < 4) by (cbn; lia).
  assert (Hle : length [20; 30]%Z <= Z.to_nat 2) by (cbn; lia).
  pose proof (nth_discards_then_next unit _ Z _ _
                (take (from [10; 20; 30]%Z) 2) [10]%Z [20; 30]%Z 0 1 4 tt H1)
    as [Hgen Hseq].
  pose proof (nth_discards_then_next unit _ Z _ _
                (take (from [10; 20; 30]%Z) 2) [10]%Z [20; 30]%Z 0 2 4 tt H2)
    as [_ Hseq2].
  split.
  - split; [exact H1|]. split; [exact Hn|]. split; [exact (Hgen Hn)|].
    split; [exact Hlen|].
    destruct (Hseq Hlen) as (h' & Hh' & _). exists h'. exact Hh'.
  - split; [exact H2|]. split; [exact Hle|].
    destruct (Hseq2 Hlen) as (h' & _ & Hnone). exact (Hnone Hle).
Defined.

Lemma filter_then_all_true_witness :
  length [1; 2; 3; 4]%Z < 5
  /\ exists h hc,
      all 5 (filter (from [1; 2; 3; 4]%Z) (pure Z.even)) (pure Z.even) tt
      = Done (true, h, tt)
      /\ collect 5 (filter (from [1; 2; 3; 4]%Z) (pure Z.even)) tt
         = Done (List.filter Z.even [1; 2; 3; 4]%Z, hc, tt)
      /\ Forall (fun x => Z.even x = true) (List.filter Z.even [1; 2; 3; 4]%Z).
Proof.
  split; [cbn; lia|].
  apply (filter_then_all_true unit Z [1; 2; 3; 4]%Z Z.even 5 tt).
  cbn; lia.
Defined.

(** At this input the world counts the calls of the callables: both
    increment it, and it is still zero after the counts. *)
Lemma count_ignores_map_and_inspect_witness :
  length [1; 2; 3]%Z < 4
  /\ exists n h hm hi,
      count 4 (from [1; 2; 3]%Z) 0 = Done (n, h, 0)
      /\ count 4 (map (from [1; 2; 3]%Z)
                    (fun x calls => Done ((x + 1)%Z, 1 + calls))) 0
         = Done (n, hm, 0)
      /\ count 4 (inspect (from [1; 2; 3]%Z)
                    (fun _ calls => Done (tt, 1 + calls))) 0
         = Done (n, hi, 0)
      /\ n = size_wrap (Z.of_nat (length [1; 2; 3]%Z)).
Proof.
  split; [cbn; lia|].
  apply (count_ignores_map_and_inspect nat Z Z [1; 2; 3]%Z
           (fun x calls => Done ((x + 1)%Z, 1 + calls))
           (fun _ calls => Done (tt, 1 + calls)) 4 0).
  cbn; lia.
Defined.

(** * Every chain denotes a list *)

(** Evaluates the calls of pure callables. *)
Ltac run_pure :=
  repeat match goal with
    | |- context [pure ?f ?x ?w] => change (pure f x w) with (Done (f x, w))
    end;
  cbn beta iota.

(** ** The sequence extractor *)

Section DenotesSequence.
Context {W T : Type}.

Lemma skipn_cons_nth_error (l : list T) : forall i x xs,
  skipn i l = x :: xs ->
  nth_error l i = Some x /\ skipn (1 + i) l = xs /\ i < length l.
Proof.
  induction l as [|y l IH]; intros i x xs Hsk.
  - destruct i; discriminate.
  - destruct i as [|i]; cbn [skipn nth_error length Nat.add] in *.
    + injection Hsk as -> ->. repeat split. lia.
    + destruct (IH i x xs Hsk) as (Hn & Hs & Hl). repeat split; [assumption..|lia].
Qed.

Lemma sequence_denotes_bound (s : SequenceStreamExtractor.t T) c xs :
  sequence_denotes s c xs -> length xs <= sequence_bound s.
Proof.
  intros (_ & -> & _ & _). unfold sequence_bound. rewrite length_skipn. lia.
Qed.

Lemma sequence_denotes_advance_cons fuel (s : SequenceStreamExtractor.t T)
  (w : W) c x xs :
  sequence_denotes s c (x :: xs) -> sequence_bound s < fuel ->
  exists s',
    advance fuel s w = Done (true, s', w)
    /\ sequence_denotes s' (Some x) xs /\ sequence_bound s' <= sequence_bound s.
Proof.
  intros (_ & Hxs & Hend & Hle) _. symmetry in Hxs.
  destruct (skipn_cons_nth_error _ _ _ _ Hxs) as (Hnth & Hsk & Hlt).
  cbn [advance SequenceStreamExtractor.extractor].
  unfold SequenceStreamExtractor.advance_impl, iter_neq. rewrite Hend.
  destruct (Nat.eqb_spec (pos (SequenceStreamExtractor.next s))
              (length (seq (SequenceStreamExtractor.next s)))) as [Heq|_];
    [lia|]. cbn [negb].
  eexists. split; [reflexivity|].
  unfold sequence_denotes, sequence_bound, iter_succ.
  cbn [SequenceStreamExtractor.current SequenceStreamExtractor.next
       SequenceStreamExtractor.end_ seq pos].
  repeat split; auto; lia.
Qed.

Lemma sequence_denotes_advance_nil fuel (s : SequenceStreamExtractor.t T)
  (w : W) c :
  sequence_denotes s c [] -> sequence_bound s < fuel ->
  exists s' c',
    advance fuel s w = Done (false, s', w)
    /\ sequence_denotes s' c' [] /\ sequence_bound s' <= sequence_bound s.
Proof.
  intros Hs _. pose proof Hs as (_ & Hxs & Hend & Hle).
  assert (Hlen : length (skipn (pos (SequenceStreamExtractor.next s))
                           (seq (SequenceStreamExtractor.next s))) = 0)
    by (rewrite <- Hxs; reflexivity).
  rewrite length_skipn in Hlen.
  cbn [advance SequenceStreamExtractor.extractor].
  unfold SequenceStreamExtractor.advance_impl, iter_neq. rewrite Hend.
  destruct (Nat.eqb_spec (pos (SequenceStreamExtractor.next s))
              (length (seq (SequenceStreamExtractor.next s)))) as [_|Hne];
    [|lia]. cbn [negb].
  exists s, c. split; [reflexivity|]. split; [exact Hs|lia].
Qed.

Lemma sequence_denotes_get (s : SequenceStreamExtractor.t T) (w : W) x xs :
  sequence_denotes s (Some x) xs ->
  exists s',
    get s w = Done (x, s', w)
    /\ sequence_denotes s' (Some x) xs /\ sequence_bound s' <= sequence_bound s.
Proof.
  intros Hs. pose proof Hs as (Hc & _). exists s.
  cbn [get SequenceStreamExtractor.extractor].
  unfold SequenceStreamExtractor.get_impl, deref. rewrite <- Hc.
  split; [reflexivity|]. split; [exact Hs|lia].
Qed.

End DenotesSequence.

#[global] Instance sequence_denoting (W T : Type) :
  Denotes W (SequenceStreamExtractor.t T) T :=
  {| denotes := sequence_denotes;
     bound := sequence_bound;
     denotes_bound := sequence_denotes_bound;
     denotes_advance_cons := sequence_denotes_advance_cons;
     denotes_advance_nil := sequence_denotes_advance_nil;
     denotes_get := sequence_denotes_get |}.

(** [from(S)] denotes [S], and a fuel above the length of [S] is enough. *)
Lemma from_denotes (W T : Type) (S : list T) :
  denotes (W := W) (extractor (from S)) (nth_error S 0) S
  /\ bound (W := W) (extractor (from S)) = length S.
Proof.
  split.
  - repeat split. cbn. lia.
  - cbn. unfold sequence_bound. cbn. lia.
Qed.

(** ** The stages *)

Section DenotesStages.
Context {W E T : Type} `{Denotes W E T}.

(** *** Take denotes [firstn] *)

Lemma take_denotes_bound (s : TakeStreamExtractor.t E) c xs :
  take_denotes s c xs -> length xs <= bound (TakeStreamExtractor.source s).
Proof.
  intros (ys & Hys & _ & ->). rewrite length_firstn.
  pose proof (denotes_bound _ _ _ Hys). lia.
Qed.

Lemma take_denotes_advance_cons fuel (s : TakeStreamExtractor.t E) w c x xs :
  take_denotes s c (x :: xs) ->
  bound (TakeStreamExtractor.source s) < fuel ->
  exists s',
    advance fuel s w = Done (true, s', w)
    /\ take_denotes s' (Some x) xs
    /\ bound (TakeStreamExtractor.source s')
       <= bound (TakeStreamExtractor.source s).
Proof.
  intros (ys & Hys & Hl & Hxs) Hfuel. stage.
  destruct (Z.eqb_spec (TakeStreamExtractor.limit s) 0) as [Hz|Hnz].
  { rewrite Hz in Hxs. discriminate. }
  cbn [negb]. unfold in_size_t in Hl.
  replace (Z.to_nat (TakeStreamExtractor.limit s))
    with (1 + Z.to_nat (TakeStreamExtractor.limit s - 1)) in Hxs by lia.
  destruct ys as [|y ys]; [discriminate|].
  cbn [Nat.add firstn] in Hxs. injection Hxs as <- ->.
  destruct (denotes_advance_cons fuel _ w _ _ _ Hys Hfuel)
    as (src' & -> & Hsrc' & Hb).
  eexists. split; [reflexivity|]. split; [|exact Hb].
  exists ys. fields. rewrite size_dec_pos by (unfold in_size_t; lia).
  repeat split; [assumption | lia | lia].
Qed.

Lemma take_denotes_advance_nil fuel (s : TakeStreamExtractor.t E) w c :
  take_denotes s c [] ->
  bound (TakeStreamExtractor.source s) < fuel ->
  exists s' c',
    advance fuel s w = Done (false, s', w)
    /\ take_denotes s' c' []
    /\ bound (TakeStreamExtractor.source s')
       <= bound (TakeStreamExtractor.source s).
Proof.
  intros Hs Hfuel. pose proof Hs as (ys & Hys & Hl & Hxs). stage.
  destruct (Z.eqb_spec (TakeStreamExtractor.limit s) 0) as [Hz|Hnz];
    cbn [negb].
  { exists s, c. split; [reflexivity|]. split; [exact Hs|lia]. }
  unfold in_size_t in Hl.
  destruct ys as [|y ys].
  - destruct (denotes_advance_nil fuel _ w _ Hys Hfuel)
      as (src' & c' & -> & Hsrc' & Hb).
    do 2 eexists. split; [reflexivity|]. split; [|exact Hb].
    exists []. fields. split; [exact Hsrc'|].
    split; [apply size_wrap_in_range|]. rewrite firstn_nil. reflexivity.
  - replace (Z.to_nat (TakeStreamExtractor.limit s))
      with (1 + Z.to_nat (TakeStreamExtractor.limit s - 1)) in Hxs by lia.
    discriminate.
Qed.

Lemma take_denotes_get (s : TakeStreamExtractor.t E) w x xs :
  take_denotes s (Some x) xs ->
  exists s',
    get s w = Done (x, s', w)
    /\ take_denotes s' (Some x) xs
    /\ bound (TakeStreamExtractor.source s')
       <= bound (TakeStreamExtractor.source s).
Proof.
  intros (ys & Hys & Hl & Hxs). stage.
  destruct (denotes_get _ w _ _ Hys) as (src' & -> & Hsrc' & Hb).
  eexists. split; [reflexivity|]. split; [|exact Hb].
  exists ys. fields. eauto.
Qed.

#[global] Instance take_denoting : Denotes W (TakeStreamExtractor.t E) T :=
  {| denotes := take_denotes;
     bound := fun s => bound (TakeStreamExtractor.source s);
     denotes_bound := take_denotes_bound;
     denotes_advance_cons := take_denotes_advance_cons;
     denotes_advance_nil := take_denotes_advance_nil;
     denotes_get := take_denotes_get |}.

(** *** Map denotes [List.map] *)

Lemma map_denotes_bound {U : Type} (s : MapStreamExtractor.t W E T U) c xs :
  map_denotes s c xs -> length xs <= bound (MapStreamExtractor.source s).
Proof.
  intros (f & c0 & ys & _ & Hys & _ & ->). rewrite length_map.
  exact (denotes_bound _ _ _ Hys).
Qed.

Lemma map_denotes_advance_cons {U : Type} fuel
  (s : MapStreamExtractor.t W E T U) w c x xs :
  map_denotes s c (x :: xs) ->
  bound (MapStreamExtractor.source s) < fuel ->
  exists s',
    advance fuel s w = Done (true, s', w)
    /\ map_denotes s' (Some x) xs
    /\ bound (MapStreamExtractor.source s')
       <= bound (MapStreamExtractor.source s).
Proof.
  intros (f & c0 & ys & Hf & Hys & _ & Hxs) Hfuel. stage.
  destruct ys as [|y ys]; [discriminate|]. injection Hxs as -> ->.
  destruct (denotes_advance_cons fuel _ w _ _ _ Hys Hfuel)
    as (src' & -> & Hsrc' & Hb).
  eexists. split; [reflexivity|]. split; [|exact Hb].
  exists f, (Some y), ys. fields. eauto.
Qed.

Lemma map_denotes_advance_nil {U : Type} fuel
  (s : MapStreamExtractor.t W E T U) w c :
  map_denotes s c [] ->
  bound (MapStreamExtractor.source s) < fuel ->
  exists s' c',
    advance fuel s w = Done (false, s', w)
    /\ map_denotes s' c' []
    /\ bound (MapStreamExtractor.source s')
       <= bound (MapStreamExtractor.source s).
Proof.
  intros (f & c0 & ys & Hf & Hys & _ & Hxs) Hfuel. stage.
  destruct ys as [|y ys]; [|discriminate].
  destruct (denotes_advance_nil fuel _ w _ Hys Hfuel)
    as (src' & c' & -> & Hsrc' & Hb).
  exists {| MapStreamExtractor.source := src';
            MapStreamExtractor.mapFunc := MapStreamExtractor.mapFunc s;
            MapStreamExtractor.value := MapStreamExtractor.value s |},
    (option_map f c').
  split; [reflexivity|]. split; [|exact Hb].
  exists f, c', []. fields. eauto.
Qed.

Lemma map_denotes_get {U : Type} (s : MapStreamExtractor.t W E T U) w x xs :
  map_denotes s (Some x) xs ->
  exists s',
    get s w = Done (x, s', w)
    /\ map_denotes s' (Some x) xs
    /\ bound (MapStreamExtractor.source s')
       <= bound (MapStreamExtractor.source s).
Proof.
  intros (f & c0 & ys & Hf & Hys & Hc & Hxs). stage.
  destruct c0 as [x0|]; [|discriminate]. injection Hc as ->.
  destruct (denotes_get _ w _ _ Hys) as (src' & -> & Hsrc' & Hb).
  rewrite Hf. run_pure.
  eexists. split; [reflexivity|]. split; [|exact Hb].
  exists f, (Some x0), ys. fields. eauto.
Qed.

#[global] Instance map_denoting (U : Type) :
  Denotes W (MapStreamExtractor.t W E T U) U :=
  {| denotes := map_denotes;
     bound := fun s => bound (MapStreamExtractor.source s);
     denotes_bound := map_denotes_bound;
     denotes_advance_cons := map_denotes_advance_cons;
     denotes_advance_nil := map_denotes_advance_nil;
     denotes_get := map_denotes_get |}.

(** *** Inspect with an inspector that does nothing denotes its upstream *)

Lemma inspect_denotes_bound (s : InspectStreamExtractor.t W E T) c xs :
  inspect_denotes s c xs -> length xs <= bound (InspectStreamExtractor.source s).
Proof. intros (_ & Hys). exact (denotes_bound _ _ _ Hys). Qed.

Lemma inspect_denotes_advance_cons fuel
  (s : InspectStreamExtractor.t W E T) w c x xs :
  inspect_denotes s c (x :: xs) ->
  bound (InspectStreamExtractor.source s) < fuel ->
  exists s',
    advance fuel s w = Done (true, s', w)
    /\ inspect_denotes s' (Some x) xs
    /\ bound (InspectStreamExtractor.source s')
       <= bound (InspectStreamExtractor.source s).
Proof.
  intros (Hi & Hys) Hfuel. stage.
  destruct (denotes_advance_cons fuel _ w _ _ _ Hys Hfuel)
    as (src' & -> & Hsrc' & Hb).
  eexists. split; [reflexivity|]. split; [|exact Hb]. split; assumption.
Qed.

Lemma inspect_denotes_advance_nil fuel
  (s : InspectStreamExtractor.t W E T) w c :
  inspect_denotes s c [] ->
  bound (InspectStreamExtractor.source s) < fuel ->
  exists s' c',
    advance fuel s w = Done (false, s', w)
    /\ inspect_denotes s' c' []
    /\ bound (InspectStreamExtractor.source s')
       <= bound (InspectStreamExtractor.source s).
Proof.
  intros (Hi & Hys) Hfuel. stage.
  destruct (denotes_advance_nil fuel _ w _ Hys Hfuel)
    as (src' & c' & -> & Hsrc' & Hb).
  do 2 eexists. split; [reflexivity|]. split; [|exact Hb].
  split; [exact Hi|exact Hsrc'].
Qed.

Lemma inspect_denotes_get (s : InspectStreamExtractor.t W E T) w x xs :
  inspect_denotes s (Some x) xs ->
  exists s',
    get s w = Done (x, s', w)
    /\ inspect_denotes s' (Some x) xs
    /\ bound (InspectStreamExtractor.source s')
       <= bound (InspectStreamExtractor.source s).
Proof.
  intros (Hi & Hys). stage.
  destruct (denotes_get _ w _ _ Hys) as (src' & -> & Hsrc' & Hb).
  rewrite Hi. run_pure.
  eexists. split; [reflexivity|]. split; [|exact Hb]. split; [reflexivity|exact Hsrc'].
Qed.

#[global] Instance inspect_denoting :
  Denotes W (InspectStreamExtractor.t W E T) T :=
  {| denotes := inspect_denotes;
     bound := fun s => bound (InspectStreamExtractor.source s);
     denotes_bound := inspect_denotes_bound;
     denotes_advance_cons := inspect_denotes_advance_cons;
     denotes_advance_nil := inspect_denotes_advance_nil;
     denotes_get := inspect_denotes_get |}.

(** *** TakeWhile denotes [take_while] until it stops, then nothing *)

Lemma length_take_while (p : T -> bool) ys :
  length (take_while p ys) <= length ys.
Proof.
  induction ys as [|y ys IH]; cbn [take_while length]; [lia|].
  destruct (p y); cbn [length]; lia.
Qed.

Lemma takeWhile_denotes_bound (s : TakeWhileStreamExtractor.t W E T) c xs :
  takeWhile_denotes s c xs ->
  length xs <= bound (TakeWhileStreamExtractor.source s).
Proof.
  intros (p & ys & _ & Hys & ->).
  pose proof (denotes_bound _ _ _ Hys). pose proof (length_take_while p ys).
  destruct (TakeWhileStreamExtractor.taking s); cbn [length]; lia.
Qed.

Lemma takeWhile_denotes_advance_cons fuel
  (s : TakeWhileStreamExtractor.t W E T) w c x xs :
  takeWhile_denotes s c (x :: xs) ->
  bound (TakeWhileStreamExtractor.source s) < fuel ->
  exists s',
    advance fuel s w = Done (true, s', w)
    /\ takeWhile_denotes s' (Some x) xs
    /\ bound (TakeWhileStreamExtractor.source s')
       <= bound (TakeWhileStreamExtractor.source s).
Proof.
  intros (p & ys & Hp & Hys & Hxs) Hfuel. stage.
  destruct (TakeWhileStreamExtractor.taking s); [|discriminate].
  destruct ys as [|y ys]; [discriminate|]. cbn [take_while] in Hxs.
  destruct (p y) eqn:Hy; [|discriminate]. injection Hxs as <- ->.
  destruct (denotes_advance_cons fuel _ w _ _ _ Hys Hfuel)
    as (src1 & -> & Hsrc1 & Hb1).
  destruct (denotes_get _ w _ _ Hsrc1) as (src2 & -> & Hsrc2 & Hb2).
  rewrite Hp. run_pure. rewrite Hy. cbn [andb].
  eexists. split; [reflexivity|]. split; [|fields; lia].
  exists p, ys. fields. eauto.
Qed.

Lemma takeWhile_denotes_advance_nil fuel
  (s : TakeWhileStreamExtractor.t W E T) w c :
  takeWhile_denotes s c [] ->
  bound (TakeWhileStreamExtractor.source s) < fuel ->
  exists s' c',
    advance fuel s w = Done (false, s', w)
    /\ takeWhile_denotes s' c' []
    /\ bound (TakeWhileStreamExtractor.source s')
       <= bound (TakeWhileStreamExtractor.source s).
Proof.
  intros (p & ys & Hp & Hys & Hxs) Hfuel. stage.
  destruct (TakeWhileStreamExtractor.taking s) eqn:Htaking; monad.
  - destruct ys as [|y ys].
    + destruct (denotes_advance_nil fuel _ w _ Hys Hfuel)
        as (src' & c' & -> & Hsrc' & Hb).
      cbn [andb]. do 2 eexists. split; [reflexivity|]. split; [|exact Hb].
      exists p, []. fields. eauto.
    + cbn [take_while] in Hxs. destruct (p y) eqn:Hy; [discriminate|].
      destruct (denotes_advance_cons fuel _ w _ _ _ Hys Hfuel)
        as (src1 & -> & Hsrc1 & Hb1).
      destruct (denotes_get _ w _ _ Hsrc1) as (src2 & -> & Hsrc2 & Hb2).
      rewrite Hp. run_pure. rewrite Hy. cbn [andb].
      do 2 eexists. split; [reflexivity|]. split; [|fields; lia].
      exists p, ys. fields. eauto.
  - cbn [andb]. do 2 eexists. split; [reflexivity|]. split; [|fields; lia].
    exists p, ys. fields. eauto.
Qed.

Lemma takeWhile_denotes_get (s : TakeWhileStreamExtractor.t W E T) w x xs :
  takeWhile_denotes s (Some x) xs ->
  exists s',
    get s w = Done (x, s', w)
    /\ takeWhile_denotes s' (Some x) xs
    /\ bound (TakeWhileStreamExtractor.source s')
       <= bound (TakeWhileStreamExtractor.source s).
Proof.
  intros (p & ys & Hp & Hys & Hxs). stage.
  destruct (denotes_get _ w _ _ Hys) as (src' & -> & Hsrc' & Hb).
  eexists. split; [reflexivity|]. split; [|exact Hb].
  exists p, ys. fields. eauto.
Qed.

#[global] Instance takeWhile_denoting :
  Denotes W (TakeWhileStreamExtractor.t W E T) T :=
  {| denotes := takeWhile_denotes;
     bound := fun s => bound (TakeWhileStreamExtractor.source s);
     denotes_bound := takeWhile_denotes_bound;
     denotes_advance_cons := takeWhile_denotes_advance_cons;
     denotes_advance_nil := takeWhile_denotes_advance_nil;
     denotes_get := takeWhile_denotes_get |}.

End DenotesStages.

(** ** The stages with a loop *)

Section DenotesLoopStages.
Context {W E T : Type} `{Denotes W E T}.

(** *** Skip denotes [skipn] *)

Lemma skip_loop_denotes fuel ys : forall (src : E) c n k w,
  denotes src c ys ->
  in_size_t n ->
  bound src < fuel ->
  length ys < k ->
  exists src' n',
    bound src' <= bound src
    /\ in_size_t n'
    /\ match skipn (Z.to_nat n) ys with
       | x :: xs =>
           SkipFirstStreamExtractor.advance_loop fuel k
             {| SkipFirstStreamExtractor.source := src;
                SkipFirstStreamExtractor.skipCount := n |} w
           = Done (true, {| SkipFirstStreamExtractor.source := src';
                            SkipFirstStreamExtractor.skipCount := n' |}, w)
           /\ n' = 0%Z /\ denotes src' (Some x) xs
       | [] =>
           exists c',
             SkipFirstStreamExtractor.advance_loop fuel k
               {| SkipFirstStreamExtractor.source := src;
                  SkipFirstStreamExtractor.skipCount := n |} w
             = Done (false, {| SkipFirstStreamExtractor.source := src';
                               SkipFirstStreamExtractor.skipCount := n' |}, w)
             /\ denotes src' c' []
       end.
Proof.
  assert (H0' : in_size_t 0) by (unfold in_size_t; split; [lia|reflexivity]).
  induction ys as [|y ys IH]; intros src c n k w Hys Hn Hfuel Hk;
    more_fuel k Hk; cbn [SkipFirstStreamExtractor.advance_loop]; fields;
    destruct (Z.eqb_spec n 0) as [->|Hnz]; cbn [negb]; monad.
  - destruct (denotes_advance_nil fuel _ w _ Hys Hfuel)
      as (src' & c' & -> & Hsrc' & Hb).
    exists src', 0%Z. rewrite skipn_nil.
    split; [exact Hb|]. split; [exact H0'|]. eauto.
  - destruct (denotes_advance_nil fuel _ w _ Hys Hfuel)
      as (src' & c' & -> & Hsrc' & Hb).
    exists src', (size_dec n). rewrite skipn_nil. cbn [negb].
    split; [exact Hb|]. split; [apply size_wrap_in_range|]. eauto.
  - destruct (denotes_advance_cons fuel _ w _ _ _ Hys Hfuel)
      as (src' & -> & Hsrc' & Hb).
    exists src', 0%Z. cbn [Z.to_nat skipn].
    split; [exact Hb|]. split; [exact H0'|]. repeat split; eauto.
  - destruct (denotes_advance_cons fuel _ w _ _ _ Hys Hfuel)
      as (src1 & -> & Hsrc1 & Hb1). cbn [negb].
    unfold in_size_t in Hn.
    replace (Z.to_nat n) with (1 + Z.to_nat (n - 1)) by lia.
    cbn [Nat.add skipn]. rewrite size_dec_pos by (unfold in_size_t; lia).
    destruct (IH src1 (Some y) (n - 1)%Z k w Hsrc1)
      as (src' & n' & Hb' & Hn' & Hres);
      [unfold in_size_t; lia | lia | cbn [length] in Hk; lia |].
    exists src', n'. split; [lia|]. split; [exact Hn'|exact Hres].
Qed.

Lemma skip_denotes_bound (s : SkipFirstStreamExtractor.t E) c xs :
  skip_denotes s c xs -> length xs <= bound (SkipFirstStreamExtractor.source s).
Proof.
  intros (ys & Hys & _ & ->). rewrite length_skipn.
  pose proof (denotes_bound _ _ _ Hys). lia.
Qed.

Lemma skip_denotes_advance_cons fuel (s : SkipFirstStreamExtractor.t E) w c x xs :
  skip_denotes s c (x :: xs) ->
  bound (SkipFirstStreamExtractor.source s) < fuel ->
  exists s',
    advance fuel s w = Done (true, s', w)
    /\ skip_denotes s' (Some x) xs
    /\ bound (SkipFirstStreamExtractor.source s')
       <= bound (SkipFirstStreamExtractor.source s).
Proof.
  intros (ys & Hys & Hn & Hxs) Hfuel. destruct s as [src n]. fields.
  pose proof (denotes_bound _ _ _ Hys) as Hlen.
  destruct (skip_loop_denotes fuel ys src c n fuel w Hys Hn Hfuel ltac:(lia))
    as (src' & n' & Hb & Hn' & Hres).
  rewrite <- Hxs in Hres. destruct Hres as (Hloop & -> & Hsrc').
  eexists. split; [exact Hloop|]. split; [|exact Hb].
  exists xs. fields. auto.
Qed.

Lemma skip_denotes_advance_nil fuel (s : SkipFirstStreamExtractor.t E) w c :
  skip_denotes s c [] ->
  bound (SkipFirstStreamExtractor.source s) < fuel ->
  exists s' c',
    advance fuel s w = Done (false, s', w)
    /\ skip_denotes s' c' []
    /\ bound (SkipFirstStreamExtractor.source s')
       <= bound (SkipFirstStreamExtractor.source s).
Proof.
  intros (ys & Hys & Hn & Hxs) Hfuel. destruct s as [src n]. fields.
  pose proof (denotes_bound _ _ _ Hys) as Hlen.
  destruct (skip_loop_denotes fuel ys src c n fuel w Hys Hn Hfuel ltac:(lia))
    as (src' & n' & Hb & Hn' & Hres).
  rewrite <- Hxs in Hres. destruct Hres as (c' & Hloop & Hsrc').
  do 2 eexists. split; [exact Hloop|]. split; [|exact Hb].
  exists []. fields. rewrite skipn_nil. eauto.
Qed.

Lemma skip_denotes_get (s : SkipFirstStreamExtractor.t E) w x xs :
  skip_denotes s (Some x) xs ->
  exists s',
    get s w = Done (x, s', w)
    /\ skip_denotes s' (Some x) xs
    /\ bound (SkipFirstStreamExtractor.source s')
       <= bound (SkipFirstStreamExtractor.source s).
Proof.
  intros (ys & Hys & Hn & Hxs). stage.
  destruct (denotes_get _ w _ _ Hys) as (src' & -> & Hsrc' & Hb).
  eexists. split; [reflexivity|]. split; [|exact Hb].
  exists ys. fields. eauto.
Qed.

#[global] Instance skip_denoting :
  Denotes W (SkipFirstStreamExtractor.t E) T :=
  {| denotes := skip_denotes;
     bound := fun s => bound (SkipFirstStreamExtractor.source s);
     denotes_bound := skip_denotes_bound;
     denotes_advance_cons := skip_denotes_advance_cons;
     denotes_advance_nil := skip_denotes_advance_nil;
     denotes_get := skip_denotes_get |}.

(** *** SkipWhile denotes [drop_while] while skipping, then its upstream *)

Lemma length_drop_while (p : T -> bool) ys :
  length (drop_while p ys) <= length ys.
Proof.
  induction ys as [|y ys IH]; cbn [drop_while length]; [lia|].
  destruct (p y); cbn [length]; lia.
Qed.

Lemma skipWhile_loop_denotes (p : T -> bool) fuel ys : forall (src : E) c k w,
  denotes src c ys ->
  bound src < fuel ->
  length ys < k ->
  exists src',
    bound src' <= bound src
    /\ match drop_while p ys with
       | x :: xs =>
           SkipWhileStreamExtractor.advance_loop fuel k
             {| SkipWhileStreamExtractor.source := src;
                SkipWhileStreamExtractor.predicate := pure p;
                SkipWhileStreamExtractor.skipping := true |} w
           = Done ({| SkipWhileStreamExtractor.source := src';
                      SkipWhileStreamExtractor.predicate := pure p;
                      SkipWhileStreamExtractor.skipping := false |}, w)
           /\ denotes src' (Some x) xs
       | [] =>
           exists c',
             SkipWhileStreamExtractor.advance_loop fuel k
               {| SkipWhileStreamExtractor.source := src;
                  SkipWhileStreamExtractor.predicate := pure p;
                  SkipWhileStreamExtractor.skipping := true |} w
             = Done ({| SkipWhileStreamExtractor.source := src';
                        SkipWhileStreamExtractor.predicate := pure p;
                        SkipWhileStreamExtractor.skipping := true |}, w)
             /\ denotes src' c' []
       end.
Proof.
  induction ys as [|y ys IH]; intros src c k w Hys Hfuel Hk;
    more_fuel k Hk; cbn [SkipWhileStreamExtractor.advance_loop drop_while];
    fields; monad.
  - destruct (denotes_advance_nil fuel _ w _ Hys Hfuel)
      as (src' & c' & -> & Hsrc' & Hb).
    exists src'. split; [exact Hb|]. eauto.
  - destruct (denotes_advance_cons fuel _ w _ _ _ Hys Hfuel)
      as (src1 & -> & Hsrc1 & Hb1).
    destruct (denotes_get _ w _ _ Hsrc1) as (src2 & -> & Hsrc2 & Hb2).
    run_pure. destruct (p y) eqn:Hy.
    + destruct (IH src2 (Some y) k w Hsrc2) as (src' & Hb' & Hres);
        [lia | cbn [length] in Hk; lia |].
      exists src'. split; [lia|exact Hres].
    + more_fuel k Hk. cbn [SkipWhileStreamExtractor.advance_loop]. fields.
      exists src2. split; [lia|]. split; [reflexivity|exact Hsrc2].
Qed.

Lemma skipWhile_denotes_bound (s : SkipWhileStreamExtractor.t W E T) c xs :
  skipWhile_denotes s c xs ->
  length xs <= bound (SkipWhileStreamExtractor.source s).
Proof.
  intros (p & ys & _ & Hys & ->).
  pose proof (denotes_bound _ _ _ Hys). pose proof (length_drop_while p ys).
  destruct (SkipWhileStreamExtractor.skipping s); lia.
Qed.

Lemma skipWhile_denotes_advance_cons fuel
  (s : SkipWhileStreamExtractor.t W E T) w c x xs :
  skipWhile_denotes s c (x :: xs) ->
  bound (SkipWhileStreamExtractor.source s) < fuel ->
  exists s',
    advance fuel s w = Done (true, s', w)
    /\ skipWhile_denotes s' (Some x) xs
    /\ bound (SkipWhileStreamExtractor.source s')
       <= bound (SkipWhileStreamExtractor.source s).
Proof.
  intros (p & ys & Hp & Hys & Hxs) Hfuel. destruct s as [src q sk].
  fields. subst q. stage. pose proof (denotes_bound _ _ _ Hys) as Hlen.
  destruct sk; monad.
  - destruct (skipWhile_loop_denotes p fuel ys src c fuel w Hys Hfuel
                ltac:(lia)) as (src' & Hb & Hres).
    rewrite <- Hxs in Hres. destruct Hres as (-> & Hsrc'). fields.
    eexists. split; [reflexivity|]. split; [|exact Hb].
    exists p, xs. fields. eauto.
  - subst ys.
    destruct (denotes_advance_cons fuel _ w _ _ _ Hys Hfuel)
      as (src' & -> & Hsrc' & Hb).
    eexists. split; [reflexivity|]. split; [|exact Hb].
    exists p, xs. fields. eauto.
Qed.

Lemma skipWhile_denotes_advance_nil fuel
  (s : SkipWhileStreamExtractor.t W E T) w c :
  skipWhile_denotes s c [] ->
  bound (SkipWhileStreamExtractor.source s) < fuel ->
  exists s' c',
    advance fuel s w = Done (false, s', w)
    /\ skipWhile_denotes s' c' []
    /\ bound (SkipWhileStreamExtractor.source s')
       <= bound (SkipWhileStreamExtractor.source s).
Proof.
  intros (p & ys & Hp & Hys & Hxs) Hfuel. destruct s as [src q sk].
  fields. subst q. stage. pose proof (denotes_bound _ _ _ Hys) as Hlen.
  destruct sk; monad.
  - destruct (skipWhile_loop_denotes p fuel ys src c fuel w Hys Hfuel
                ltac:(lia)) as (src' & Hb & Hres).
    rewrite <- Hxs in Hres. destruct Hres as (c' & -> & Hsrc'). fields.
    do 2 eexists. split; [reflexivity|]. split; [|exact Hb].
    exists p, []. fields. eauto.
  - subst ys.
    destruct (denotes_advance_nil fuel _ w _ Hys Hfuel)
      as (src' & c' & -> & Hsrc' & Hb).
    do 2 eexists. split; [reflexivity|]. split; [|exact Hb].
    exists p, []. fields. eauto.
Qed.

Lemma skipWhile_denotes_get (s : SkipWhileStreamExtractor.t W E T) w x xs :
  skipWhile_denotes s (Some x) xs ->
  exists s',
    get s w = Done (x, s', w)
    /\ skipWhile_denotes s' (Some x) xs
    /\ bound (SkipWhileStreamExtractor.source s')
       <= bound (SkipWhileStreamExtractor.source s).
Proof.
  intros (p & ys & Hp & Hys & Hxs). stage.
  destruct (denotes_get _ w _ _ Hys) as (src' & -> & Hsrc' & Hb).
  eexists. split; [reflexivity|]. split; [|exact Hb].
  exists p, ys. fields. eauto.
Qed.

#[global] Instance skipWhile_denoting :
  Denotes W (SkipWhileStreamExtractor.t W E T) T :=
  {| denotes := skipWhile_denotes;
     bound := fun s => bound (SkipWhileStreamExtractor.source s);
     denotes_bound := skipWhile_denotes_bound;
     denotes_advance_cons := skipWhile_denotes_advance_cons;
     denotes_advance_nil := skipWhile_denotes_advance_nil;
     denotes_get := skipWhile_denotes_get |}.

(** *** Filter denotes [List.filter] *)

Lemma filter_loop_denotes (p : T -> bool) fuel ys :
  forall (src : E) element k w,
    denotes src (Some element) ys ->
    bound src < fuel ->
    length ys < k ->
    exists src',
      bound src' <= bound src
      /\ match List.filter p (element :: ys) with
         | x :: xs =>
             FilterStreamExtractor.advance_loop fuel k
               {| FilterStreamExtractor.source := src;
                  FilterStreamExtractor.predicate := pure p |} element w
             = Done (true, {| FilterStreamExtractor.source := src';
                              FilterStreamExtractor.predicate := pure p |}, w)
             /\ exists ys', denotes src' (Some x) ys' /\ xs = List.filter p ys'
         | [] =>
             exists c',
               FilterStreamExtractor.advance_loop fuel k
                 {| FilterStreamExtractor.source := src;
                    FilterStreamExtractor.predicate := pure p |} element w
               = Done (false, {| FilterStreamExtractor.source := src';
                                 FilterStreamExtractor.predicate := pure p |}, w)
               /\ denotes src' c' []
         end.
Proof.
  induction ys as [|y ys IH]; intros src element k w Hys Hfuel Hk;
    more_fuel k Hk; cbn [FilterStreamExtractor.advance_loop]; fields;
    monad; run_pure; cbn [List.filter];
    destruct (p element) eqn:Hel; cbn [negb].
  - exists src. split; [lia|]. split; [reflexivity|]. eauto.
  - destruct (denotes_advance_nil fuel _ w _ Hys Hfuel)
      as (src' & c' & -> & Hsrc' & Hb).
    exists src'. split; [exact Hb|]. eauto.
  - exists src. split; [lia|]. split; [reflexivity|]. eauto.
  - destruct (denotes_advance_cons fuel _ w _ _ _ Hys Hfuel)
      as (src1 & -> & Hsrc1 & Hb1).
    destruct (denotes_get _ w _ _ Hsrc1) as (src2 & -> & Hsrc2 & Hb2).
    destruct (IH src2 y k w Hsrc2) as (src' & Hb' & Hres);
      [lia | cbn [length] in Hk; lia |].
    exists src'. split; [lia|exact Hres].
Qed.

Lemma filter_advance_denotes (p : T -> bool) fuel ys (src : E) c w :
  denotes src c ys ->
  bound src < fuel ->
  exists src',
    bound src' <= bound src
    /\ match List.filter p ys with
       | x :: xs =>
           advance fuel {| FilterStreamExtractor.source := src;
                           FilterStreamExtractor.predicate := pure p |} w
           = Done (true, {| FilterStreamExtractor.source := src';
                            FilterStreamExtractor.predicate := pure p |}, w)
           /\ exists ys', denotes src' (Some x) ys' /\ xs = List.filter p ys'
       | [] =>
           exists c',
             advance fuel {| FilterStreamExtractor.source := src;
                             FilterStreamExtractor.predicate := pure p |} w
             = Done (false, {| FilterStreamExtractor.source := src';
                               FilterStreamExtractor.predicate := pure p |}, w)
             /\ denotes src' c' []
       end.
Proof.
  intros Hys Hfuel. pose proof (denotes_bound _ _ _ Hys) as Hlen. stage.
  destruct ys as [|y ys].
  - destruct (denotes_advance_nil fuel _ w _ Hys Hfuel)
      as (src' & c' & -> & Hsrc' & Hb).
    exists src'. split; [exact Hb|]. cbn [List.filter negb]. eauto.
  - destruct (denotes_advance_cons fuel _ w _ _ _ Hys Hfuel)
      as (src1 & -> & Hsrc1 & Hb1). cbn [negb].
    destruct (denotes_get _ w _ _ Hsrc1) as (src2 & -> & Hsrc2 & Hb2).
    destruct (filter_loop_denotes p fuel ys src2 y fuel w Hsrc2)
      as (src' & Hb' & Hres); [lia | cbn [length] in Hlen; lia |].
    exists src'. split; [lia|exact Hres].
Qed.

Lemma filter_denotes_bound (s : FilterStreamExtractor.t W E T) c xs :
  filter_denotes s c xs -> length xs <= bound (FilterStreamExtractor.source s).
Proof.
  intros (p & ys & _ & Hys & ->).
  pose proof (denotes_bound _ _ _ Hys). pose proof (filter_length_le p ys). lia.
Qed.

Lemma filter_denotes_advance_cons fuel
  (s : FilterStreamExtractor.t W E T) w c x xs :
  filter_denotes s c (x :: xs) ->
  bound (FilterStreamExtractor.source s) < fuel ->
  exists s',
    advance fuel s w = Done (true, s', w)
    /\ filter_denotes s' (Some x) xs
    /\ bound (FilterStreamExtractor.source s')
       <= bound (FilterStreamExtractor.source s).
Proof.
  intros (p & ys & Hp & Hys & Hxs) Hfuel. destruct s as [src q].
  fields. subst q.
  destruct (filter_advance_denotes p fuel ys src c w Hys Hfuel)
    as (src' & Hb & Hres).
  rewrite <- Hxs in Hres. destruct Hres as (-> & ys' & Hsrc' & ->).
  eexists. split; [reflexivity|]. split; [|exact Hb].
  exists p, ys'. fields. eauto.
Qed.

Lemma filter_denotes_advance_nil fuel
  (s : FilterStreamExtractor.t W E T) w c :
  filter_denotes s c [] ->
  bound (FilterStreamExtractor.source s) < fuel ->
  exists s' c',
    advance fuel s w = Done (false, s', w)
    /\ filter_denotes s' c' []
    /\ bound (FilterStreamExtractor.source s')
       <= bound (FilterStreamExtractor.source s).
Proof.
  intros (p & ys & Hp & Hys & Hxs) Hfuel. destruct s as [src q].
  fields. subst q.
  destruct (filter_advance_denotes p fuel ys src c w Hys Hfuel)
    as (src' & Hb & Hres).
  rewrite <- Hxs in Hres. destruct Hres as (c' & -> & Hsrc').
  do 2 eexists. split; [reflexivity|]. split; [|exact Hb].
  exists p, []. fields. eauto.
Qed.

Lemma filter_denotes_get (s : FilterStreamExtractor.t W E T) w x xs :
  filter_denotes s (Some x) xs ->
  exists s',
    get s w = Done (x, s', w)
    /\ filter_denotes s' (Some x) xs
    /\ bound (FilterStreamExtractor.source s')
       <= bound (FilterStreamExtractor.source s).
Proof.
  intros (p & ys & Hp & Hys & Hxs). stage.
  destruct (denotes_get _ w _ _ Hys) as (src' & -> & Hsrc' & Hb).
  eexists. split; [reflexivity|]. split; [|exact Hb].
  exists p, ys. fields. eauto.
Qed.

#[global] Instance filter_denoting :
  Denotes W (FilterStreamExtractor.t W E T) T :=
  {| denotes := filter_denotes;
     bound := fun s => bound (FilterStreamExtractor.source s);
     denotes_bound := filter_denotes_bound;
     denotes_advance_cons := filter_denotes_advance_cons;
     denotes_advance_nil := filter_denotes_advance_nil;
     denotes_get := filter_denotes_get |}.

End DenotesLoopStages.

(** ** Terminal and position-advancing operations on a denoting handle *)

Section DenotingHandles.
Context {W E T : Type} `{Denotes W E T}.

Lemma skipn_nil_nth_error (l : list T) i :
  skipn i l = [] -> nth_error l i = None /\ skipn (1 + i) l = [].
Proof.
  intros Hsk.
  assert (Hlen : length l <= i).
  { pose proof (length_skipn i l) as Hl. rewrite Hsk in Hl. cbn in Hl. lia. }
  split; [apply nth_error_None; exact Hlen | apply skipn_all2; lia].
Qed.

Lemma next_denotes fuel (h : BaseStreamInterface.t E) c xs w :
  denotes (extractor h) c xs ->
  bound (extractor h) < fuel ->
  exists h' c',
    next fuel h w = Done (hd_error xs, h', w)
    /\ denotes (extractor h') c' (tl xs)
    /\ bound (extractor h') <= bound (extractor h).
Proof.
  intros Hxs Hfuel. unfold next. monad. destruct xs as [|x xs].
  - destruct (denotes_advance_nil fuel _ w _ Hxs Hfuel)
      as (e' & c' & -> & He' & Hb).
    do 2 eexists. split; [reflexivity|]. split; [exact He'|exact Hb].
  - destruct (denotes_advance_cons fuel _ w _ _ _ Hxs Hfuel)
      as (e1 & -> & He1 & Hb1).
    destruct (denotes_get _ w _ _ He1) as (e2 & -> & He2 & Hb2).
    do 2 eexists. split; [reflexivity|].
    cbn [extractor BaseStreamInterface.make tl]. split; [exact He2|lia].
Qed.

Lemma nth_loop_denotes fuel xs : forall (e : E) c n k w,
  denotes e c xs ->
  in_size_t n ->
  bound e < fuel ->
  length xs < k ->
  exists e' c',
    nth_loop fuel k n e w = Done (e', w)
    /\ denotes e' c' (skipn (Z.to_nat n) xs)
    /\ bound e' <= bound e.
Proof.
  induction xs as [|x xs IH]; intros e c n k w Hxs Hn Hfuel Hk;
    more_fuel k Hk; cbn [nth_loop];
    destruct (Z.eqb_spec n 0) as [->|Hnz]; cbn [negb]; monad.
  - exists e, c. cbn [Z.to_nat skipn]. auto.
  - destruct (denotes_advance_nil fuel _ w _ Hxs Hfuel)
      as (e' & c' & -> & He' & Hb).
    exists e', c'. rewrite skipn_nil. auto.
  - exists e, c. cbn [Z.to_nat skipn]. auto.
  - destruct (denotes_advance_cons fuel _ w _ _ _ Hxs Hfuel)
      as (e1 & -> & He1 & Hb1).
    unfold in_size_t in Hn.
    replace (Z.to_nat n) with (1 + Z.to_nat (n - 1)) by lia.
    cbn [Nat.add skipn]. rewrite size_dec_pos by (unfold in_size_t; lia).
    destruct (IH e1 (Some x) (n - 1)%Z k w He1) as (e' & c' & Hloop & He' & Hb');
      [unfold in_size_t; lia | lia | cbn [length] in Hk; lia |].
    exists e', c'. split; [exact Hloop|]. split; [exact He'|lia].
Qed.

Lemma collect_loop_denotes fuel xs : forall (e : E) c k acc w,
  denotes e c xs ->
  bound e < fuel ->
  length xs < k ->
  exists e' c',
    collect_loop fuel k e acc w = Done (acc ++ xs, e', w)
    /\ denotes e' c' []
    /\ bound e' <= bound e.
Proof.
  induction xs as [|x xs IH]; intros e c k acc w Hxs Hfuel Hk;
    more_fuel k Hk; cbn [collect_loop]; monad.
  - destruct (denotes_advance_nil fuel _ w _ Hxs Hfuel)
      as (e' & c' & -> & He' & Hb).
    exists e', c'. rewrite app_nil_r. auto.
  - destruct (denotes_advance_cons fuel _ w _ _ _ Hxs Hfuel)
      as (e1 & -> & He1 & Hb1).
    destruct (denotes_get _ w _ _ He1) as (e2 & -> & He2 & Hb2).
    destruct (IH e2 (Some x) k (acc ++ [x]) w He2) as (e' & c' & Hloop & He' & Hb');
      [lia | cbn [length] in Hk; lia |].
    exists e', c'. rewrite Hloop, <- app_assoc.
    split; [reflexivity|]. split; [exact He'|lia].
Qed.

Lemma count_loop_denotes fuel xs : forall (e : E) c k counter w,
  denotes e c xs ->
  in_size_t counter ->
  bound e < fuel ->
  length xs < k ->
  exists e' c',
    count_loop fuel k e counter w
    = Done (size_wrap (counter + Z.of_nat (length xs)), e', w)
    /\ denotes e' c' []
    /\ bound e' <= bound e.
Proof.
  induction xs as [|x xs IH]; intros e c k counter w Hxs Hc Hfuel Hk;
    more_fuel k Hk; cbn [count_loop]; monad.
  - destruct (denotes_advance_nil fuel _ w _ Hxs Hfuel)
      as (e' & c' & -> & He' & Hb).
    exists e', c'. cbn [length Z.of_nat]. rewrite Z.add_0_r.
    unfold size_wrap. rewrite Z.mod_small by exact Hc. auto.
  - destruct (denotes_advance_cons fuel _ w _ _ _ Hxs Hfuel)
      as (e1 & -> & He1 & Hb1).
    destruct (IH e1 (Some x) k (size_inc counter) w He1)
      as (e' & c' & Hloop & He' & Hb');
      [apply size_wrap_in_range | lia | cbn [length] in Hk; lia |].
    exists e', c'. rewrite Hloop, size_wrap_inc.
    split; [do 4 f_equal; cbn [length]; lia|]. split; [exact He'|lia].
Qed.

Lemma any_loop_denotes (p : T -> bool) fuel xs : forall (e : E) c k w,
  denotes e c xs ->
  bound e < fuel ->
  length xs < k ->
  exists e' c',
    any_loop fuel k (pure p) e w = Done (existsb p xs, e', w)
    /\ denotes e' c' (tl (drop_while (fun x => negb (p x)) xs))
    /\ bound e' <= bound e.
Proof.
  induction xs as [|x xs IH]; intros e c k w Hxs Hfuel Hk;
    more_fuel k Hk; cbn [any_loop existsb drop_while]; monad.
  - destruct (denotes_advance_nil fuel _ w _ Hxs Hfuel)
      as (e' & c' & -> & He' & Hb).
    exists e', c'. auto.
  - destruct (denotes_advance_cons fuel _ w _ _ _ Hxs Hfuel)
      as (e1 & -> & He1 & Hb1).
    destruct (denotes_get _ w _ _ He1) as (e2 & -> & He2 & Hb2).
    run_pure. destruct (p x); cbn [orb negb tl].
    + exists e2, (Some x). split; [reflexivity|]. split; [exact He2|lia].
    + destruct (IH e2 (Some x) k w He2) as (e' & c' & Hloop & He' & Hb');
        [lia | cbn [length] in Hk; lia |].
      exists e', c'. split; [exact Hloop|]. split; [exact He'|lia].
Qed.

Lemma all_loop_denotes (p : T -> bool) fuel xs : forall (e : E) c k w,
  denotes e c xs ->
  bound e < fuel ->
  length xs < k ->
  exists e' c',
    all_loop fuel k (pure p) e w = Done (forallb p xs, e', w)
    /\ denotes e' c' (tl (drop_while p xs))
    /\ bound e' <= bound e.
Proof.
  induction xs as [|x xs IH]; intros e c k w Hxs Hfuel Hk;
    more_fuel k Hk; cbn [all_loop forallb drop_while]; monad.
  - destruct (denotes_advance_nil fuel _ w _ Hxs Hfuel)
      as (e' & c' & -> & He' & Hb).
    exists e', c'. auto.
  - destruct (denotes_advance_cons fuel _ w _ _ _ Hxs Hfuel)
      as (e1 & -> & He1 & Hb1).
    destruct (denotes_get _ w _ _ He1) as (e2 & -> & He2 & Hb2).
    run_pure. destruct (p x); cbn [andb negb tl].
    + destruct (IH e2 (Some x) k w He2) as (e' & c' & Hloop & He' & Hb');
        [lia | cbn [length] in Hk; lia |].
      exists e', c'. split; [exact Hloop|]. split; [exact He'|lia].
    + exists e2, (Some x). split; [reflexivity|]. split; [exact He2|lia].
Qed.

Lemma fold_loop_denotes {A : Type} (f : A -> T -> A) fuel xs :
  forall (e : E) c k a w,
    denotes e c xs ->
    bound e < fuel ->
    length xs < k ->
    exists e' c',
      fold_loop fuel k (pure2 f) e a w = Done (fold_left f xs a, e', w)
      /\ denotes e' c' []
      /\ bound e' <= bound e.
Proof.
  induction xs as [|x xs IH]; intros e c k a w Hxs Hfuel Hk;
    more_fuel k Hk; cbn [fold_loop fold_left]; monad.
  - destruct (denotes_advance_nil fuel _ w _ Hxs Hfuel)
      as (e' & c' & -> & He' & Hb).
    exists e', c'. auto.
  - destruct (denotes_advance_cons fuel _ w _ _ _ Hxs Hfuel)
      as (e1 & -> & He1 & Hb1).
    destruct (denotes_get _ w _ _ He1) as (e2 & -> & He2 & Hb2).
    unfold pure2 at 1. monad.
    destruct (IH e2 (Some x) k (f a x) w He2) as (e' & c' & Hloop & He' & Hb');
      [lia | cbn [length] in Hk; lia |].
    exists e', c'. split; [exact Hloop|]. split; [exact He'|lia].
Qed.

Lemma forEach_loop_denotes (callable : T -> comp W unit) fuel xs :
  forall (e : E) c k w,
    denotes e c xs ->
    bound e < fuel ->
    length xs < k ->
    match for_each callable xs w with
    | Done (_, w') =>
        exists e' c',
          forEach_loop fuel k callable e w = Done (e', w')
          /\ denotes e' c' []
          /\ bound e' <= bound e
    | Undefined => forEach_loop fuel k callable e w = Undefined
    | OutOfFuel => forEach_loop fuel k callable e w = OutOfFuel
    end.
Proof.
  induction xs as [|x xs IH]; intros e c k w Hxs Hfuel Hk;
    more_fuel k Hk; cbn [forEach_loop for_each]; monad.
  - destruct (denotes_advance_nil fuel _ w _ Hxs Hfuel)
      as (e' & c' & -> & He' & Hb).
    exists e', c'. auto.
  - destruct (denotes_advance_cons fuel _ w _ _ _ Hxs Hfuel)
      as (e1 & -> & He1 & Hb1).
    destruct (denotes_get _ w _ _ He1) as (e2 & -> & He2 & Hb2).
    destruct (callable x w) as [[[] w1]| |]; try reflexivity.
    specialize (IH e2 (Some x) k w1 He2 ltac:(lia)
                  ltac:(cbn [length] in Hk; lia)).
    destruct (for_each callable xs w1) as [[[] w2]| |]; try exact IH.
    destruct IH as (e' & c' & Hloop & He' & Hb').
    exists e', c'. split; [exact Hloop|]. split; [exact He'|lia].
Qed.

End DenotingHandles.

(** ** Building chains: each chaining method maps the denoted list *)

Section ChainingDenotes.
Context {W E T : Type} `{Denotes W E T}.
Implicit Types (h : BaseStreamInterface.t E) (c : option T) (ys : list T).

Lemma skip_chain h c ys n :
  denotes (extractor h) c ys -> in_size_t n ->
  denotes (extractor (skip h n)) c (skipn (Z.to_nat n) ys).
Proof. intros Hys Hn. exists ys. fields. auto. Qed.

Lemma take_chain h c ys n :
  denotes (extractor h) c ys -> in_size_t n ->
  denotes (extractor (take h n)) c (firstn (Z.to_nat n) ys).
Proof. intros Hys Hn. exists ys. fields. auto. Qed.

Lemma skipWhile_chain h c ys (p : T -> bool) :
  denotes (extractor h) c ys ->
  denotes (extractor (skipWhile h (pure p))) c (drop_while p ys).
Proof. intros Hys. exists p, ys. fields. auto. Qed.

Lemma takeWhile_chain h c ys (p : T -> bool) :
  denotes (extractor h) c ys ->
  denotes (extractor (takeWhile h (pure p))) c (take_while p ys).
Proof. intros Hys. exists p, ys. fields. auto. Qed.

Lemma filter_chain h c ys (p : T -> bool) :
  denotes (extractor h) c ys ->
  denotes (extractor (filter h (pure p))) c (List.filter p ys).
Proof. intros Hys. exists p, ys. fields. auto. Qed.

Lemma map_chain {U : Type} h c ys (f : T -> U) :
  denotes (extractor h) c ys ->
  denotes (extractor (map h (pure f))) (option_map f c) (List.map f ys).
Proof. intros Hys. exists f, c, ys. fields. auto. Qed.

Lemma collect_denotes fuel h c xs w :
  denotes (extractor h) c xs ->
  bound (extractor h) < fuel ->
  exists h' c',
    collect fuel h w = Done (xs, h', w) /\ denotes (extractor h') c' [].
Proof.
  intros Hxs Hfuel. pose proof (denotes_bound _ _ _ Hxs) as Hlen.
  destruct (collect_loop_denotes fuel xs _ c fuel [] w Hxs Hfuel ltac:(lia))
    as (e' & c' & Hloop & He' & _).
  unfold collect. monad. rewrite Hloop.
  do 2 eexists. split; [reflexivity|exact He'].
Qed.

Lemma count_denotes fuel h c xs w :
  denotes (extractor h) c xs ->
  bound (extractor h) < fuel ->
  exists h' c',
    count fuel h w = Done (size_wrap (Z.of_nat (length xs)), h', w)
    /\ denotes (extractor h') c' [].
Proof.
  intros Hxs Hfuel. pose proof (denotes_bound _ _ _ Hxs) as Hlen.
  assert (H0' : in_size_t 0) by (unfold in_size_t; split; [lia|reflexivity]).
  destruct (count_loop_denotes fuel xs _ c fuel 0%Z w Hxs H0' Hfuel ltac:(lia))
    as (e' & c' & Hloop & He' & _).
  unfold count. monad. rewrite Hloop. cbn [Z.add].
  do 2 eexists. split; [reflexivity|exact He'].
Qed.

End ChainingDenotes.

(** * Further properties of the header *)

(** X1. [next] on a handle with the elements [xs] still to come returns the
    first of them and leaves the others to come; on a handle with nothing to
    come it returns empty.  The handle is any chain with pure callables. *)
Theorem next_returns_head_leaves_tail
  (W E T : Type) (X : StreamExtractor W E T) (D : Denotes W E T)
  (h : BaseStreamInterface.t E) (c : option T) (xs : list T)
  (fuel : nat) (w : W) :
  denotes (extractor h) c xs ->
  bound (extractor h) < fuel ->
  exists h' c',
    next fuel h w = Done (hd_error xs, h', w)
    /\ denotes (extractor h') c' (tl xs).
Proof.
  intros Hxs Hfuel.
  destruct (next_denotes fuel h c xs w Hxs Hfuel) as (h' & c' & Hn & Hh' & _).
  eauto.
Qed.

(** X2. [collect] returns the elements still to come, all of them and in
    order, and leaves the handle with nothing to come. *)
Theorem collect_returns_all_in_order
  (W E T : Type) (X : StreamExtractor W E T) (D : Denotes W E T)
  (h : BaseStreamInterface.t E) (c : option T) (xs : list T)
  (fuel : nat) (w : W) :
  denotes (extractor h) c xs ->
  bound (extractor h) < fuel ->
  exists h' c',
    collect fuel h w = Done (xs, h', w) /\ denotes (extractor h') c' [].
Proof. apply collect_denotes. Qed.

(** X3. [count] returns the number of elements still to come (as a
    [size_t]: the number itself when it is below 2^64) and leaves the handle
    with nothing to come. *)
Theorem count_returns_length
  (W E T : Type) (X : StreamExtractor W E T) (D : Denotes W E T)
  (h : BaseStreamInterface.t E) (c : option T) (xs : list T)
  (fuel : nat) (w : W) :
  denotes (extractor h) c xs ->
  bound (extractor h) < fuel ->
  exists h' c',
    count fuel h w = Done (size_wrap (Z.of_nat (length xs)), h', w)
    /\ denotes (extractor h') c' []
    /\ ((Z.of_nat (length xs) < size_t_modulus)%Z ->
        size_wrap (Z.of_nat (length xs)) = Z.of_nat (length xs)).
Proof.
  intros Hxs Hfuel.
  destruct (count_denotes fuel h c xs w Hxs Hfuel) as (h' & c' & Hc & Hh').
  exists h', c'. split; [exact Hc|]. split; [exact Hh'|].
  intros Hlt. unfold size_wrap. apply Z.mod_small. lia.
Qed.

(** X4. [any(p)] returns whether some element still to come satisfies [p],
    and stops at the first that does: the elements after it are still to
    come.  Without a match nothing is left. *)
Theorem any_short_circuits
  (W E T : Type) (X : StreamExtractor W E T) (D : Denotes W E T)
  (h : BaseStreamInterface.t E) (c : option T) (xs : list T)
  (p : T -> bool) (fuel : nat) (w : W) :
  denotes (extractor h) c xs ->
  bound (extractor h) < fuel ->
  exists h' c',
    any fuel h (pure p) w = Done (existsb p xs, h', w)
    /\ denotes (extractor h') c'
         (tl (drop_while (fun x => negb (p x)) xs)).
Proof.
  intros Hxs Hfuel. pose proof (denotes_bound _ _ _ Hxs) as Hlen.
  destruct (any_loop_denotes p fuel xs _ c fuel w Hxs Hfuel ltac:(lia))
    as (e' & c' & Hloop & He' & _).
  unfold any. monad. rewrite Hloop.
  do 2 eexists. split; [reflexivity|exact He'].
Qed.

(** X5. [all(p)] returns whether every element still to come satisfies
    [p], and stops at the first that does not: the elements after it are
    still to come.  Without a failure nothing is left. *)
Theorem all_short_circuits
  (W E T : Type) (X : StreamExtractor W E T) (D : Denotes W E T)
  (h : BaseStreamInterface.t E) (c : option T) (xs : list T)
  (p : T -> bool) (fuel : nat) (w : W) :
  denotes (extractor h) c xs ->
  bound (extractor h) < fuel ->
  exists h' c',
    all fuel h (pure p) w = Done (forallb p xs, h', w)
    /\ denotes (extractor h') c' (tl (drop_while p xs)).
Proof.
  intros Hxs Hfuel. pose proof (denotes_bound _ _ _ Hxs) as Hlen.
  destruct (all_loop_denotes p fuel xs _ c fuel w Hxs Hfuel ltac:(lia))
    as (e' & c' & Hloop & He' & _).
  unfold all. monad. rewrite Hloop.
  do 2 eexists. split; [reflexivity|exact He'].
Qed.

(** X6. [fold(a, f)] with a pure [f] is the left fold of the elements still
    to come, starting from [a]. *)
Theorem fold_is_left_fold
  (W E T A : Type) (X : StreamExtractor W E T) (D : Denotes W E T)
  (h : BaseStreamInterface.t E) (c : option T) (xs : list T)
  (f : A -> T -> A) (a : A) (fuel : nat) (w : W) :
  denotes (extractor h) c xs ->
  bound (extractor h) < fuel ->
  exists h' c',
    fold fuel h a (pure2 f) w = Done (fold_left f xs a, h', w)
    /\ denotes (extractor h') c' [].
Proof.
  intros Hxs Hfuel. pose proof (denotes_bound _ _ _ Hxs) as Hlen.
  destruct (fold_loop_denotes f fuel xs _ c fuel a w Hxs Hfuel ltac:(lia))
    as (e' & c' & Hloop & He' & _).
  unfold fold. monad. rewrite Hloop.
  do 2 eexists. split; [reflexivity|exact He'].
Qed.

(** X7. [forEach(callable)] invokes the callable once on each element still
    to come, in order, and nothing else touches the world: it ends in the
    world in which running the callable over the list ends, and has no
    defined result exactly when that run has none. *)
Theorem forEach_runs_callable_in_order
  (W E T : Type) (X : StreamExtractor W E T) (D : Denotes W E T)
  (h : BaseStreamInterface.t E) (c : option T) (xs : list T)
  (callable : T -> comp W unit) (fuel : nat) (w : W) :
  denotes (extractor h) c xs ->
  bound (extractor h) < fuel ->
  match for_each callable xs w with
  | Done (_, w') =>
      exists h' c',
        forEach fuel h callable w = Done (h', w')
        /\ denotes (extractor h') c' []
  | Undefined => forEach fuel h callable w = Undefined
  | OutOfFuel => forEach fuel h callable w = OutOfFuel
  end.
Proof.
  intros Hxs Hfuel. pose proof (denotes_bound _ _ _ Hxs) as Hlen.
  pose proof (forEach_loop_denotes callable fuel xs _ c fuel w Hxs Hfuel
                ltac:(lia)) as Hloop.
  unfold forEach. monad.
  destruct (for_each callable xs w) as [[[] w']| |].
  - destruct Hloop as (e' & c' & -> & He' & _).
    do 2 eexists. split; [reflexivity|exact He'].
  - rewrite Hloop. reflexivity.
  - rewrite Hloop. reflexivity.
Qed.

(** X8. [nth(n)] returns the element at index [n] of the elements still to
    come, or empty if there are at most [n], and leaves to come the
    elements after index [n]. *)
Theorem nth_returns_index_leaves_rest
  (W E T : Type) (X : StreamExtractor W E T) (D : Denotes W E T)
  (h : BaseStreamInterface.t E) (c : option T) (xs : list T)
  (n : Z) (fuel : nat) (w : W) :
  denotes (extractor h) c xs ->
  in_size_t n ->
  bound (extractor h) < fuel ->
  exists h' c',
    nth fuel h n w = Done (nth_error xs (Z.to_nat n), h', w)
    /\ denotes (extractor h') c' (skipn (1 + Z.to_nat n) xs).
Proof.
  intros Hxs Hn Hfuel. pose proof (denotes_bound _ _ _ Hxs) as Hlen.
  destruct (nth_loop_denotes fuel xs _ c n fuel w Hxs Hn Hfuel ltac:(lia))
    as (e1 & c1 & Hloop & He1 & Hb1).
  destruct (next_denotes fuel (BaseStreamInterface.make e1) c1 _ w He1
              ltac:(cbn [extractor BaseStreamInterface.make]; lia))
    as (h' & c' & Hnext & Hh' & _).
  exists h', c'. unfold nth. monad. rewrite Hloop, Hnext.
  destruct (skipn (Z.to_nat n) xs) as [|x rest] eqn:Hsk.
  - destruct (skipn_nil_nth_error xs _ Hsk) as (-> & ->).
    split; [reflexivity|exact Hh'].
  - destruct (skipn_cons_nth_error xs _ _ _ Hsk) as (-> & -> & _).
    split; [reflexivity|exact Hh'].
Qed.

(** ** The stages over any chain *)

Section TakeUpstream.
Context {W E T : Type} `{Denotes W E T}.

(** [collect] over a [Take] stage, with what is left of the upstream. *)
Lemma take_collect_loop_upstream fuel ys : forall (src : E) c l k acc w,
  denotes src c ys ->
  in_size_t l ->
  bound src < fuel ->
  length ys < k ->
  exists src' c' l',
    collect_loop fuel k
      {| TakeStreamExtractor.source := src; TakeStreamExtractor.limit := l |}
      acc w
    = Done (acc ++ firstn (Z.to_nat l) ys,
            {| TakeStreamExtractor.source := src';
               TakeStreamExtractor.limit := l' |}, w)
    /\ denotes src' c' (skipn (Z.to_nat l) ys).
Proof.
  induction ys as [|y ys IH]; intros src c l k acc w Hys Hl Hfuel Hk;
    more_fuel k Hk; cbn [collect_loop]; stage;
    destruct (Z.eqb_spec l 0) as [->|Hnz]; cbn [negb]; monad.
  - exists src, c, 0%Z. cbn [Z.to_nat firstn skipn]. rewrite app_nil_r. auto.
  - destruct (denotes_advance_nil fuel _ w _ Hys Hfuel)
      as (src' & c' & -> & Hsrc' & Hb).
    exists src', c', (size_dec l).
    rewrite firstn_nil, skipn_nil, app_nil_r. auto.
  - exists src, c, 0%Z. cbn [Z.to_nat firstn skipn]. rewrite app_nil_r. auto.
  - destruct (denotes_advance_cons fuel _ w _ _ _ Hys Hfuel)
      as (src1 & -> & Hsrc1 & Hb1). stage.
    destruct (denotes_get _ w _ _ Hsrc1) as (src2 & -> & Hsrc2 & Hb2).
    unfold in_size_t in Hl.
    replace (Z.to_nat l) with (1 + Z.to_nat (l - 1)) by lia.
    cbn [Nat.add firstn skipn]. rewrite size_dec_pos by (unfold in_size_t; lia).
    destruct (IH src2 (Some y) (l - 1)%Z k (acc ++ [y]) w Hsrc2)
      as (src' & c' & l' & Hloop & Hsrc');
      [unfold in_size_t; lia | lia | cbn [length] in Hk; lia |].
    exists src', c', l'. rewrite Hloop, <- app_assoc. auto.
Qed.

End TakeUpstream.

(** X9. Over any chain [h] with the elements [ys] to come, [skip(n)] emits
    [ys] without its first [n] elements (nothing when there are at most
    [n]), and its [count] is the number of the others. *)
Theorem skip_drops_first_n
  (W E T : Type) (X : StreamExtractor W E T) (D : Denotes W E T)
  (h : BaseStreamInterface.t E) (c : option T) (ys : list T)
  (n : Z) (fuel : nat) (w : W) :
  denotes (extractor h) c ys ->
  in_size_t n ->
  bound (extractor h) < fuel ->
  exists h1 h2,
    collect fuel (skip h n) w = Done (skipn (Z.to_nat n) ys, h1, w)
    /\ count fuel (skip h n) w
       = Done (size_wrap (Z.of_nat (length ys - Z.to_nat n)), h2, w).
Proof.
  intros Hys Hn Hfuel. pose proof (skip_chain h c ys n Hys Hn) as Hs.
  destruct (collect_denotes fuel (skip h n) c _ w Hs Hfuel)
    as (h1 & c1 & Hc1 & _).
  destruct (count_denotes fuel (skip h n) c _ w Hs Hfuel)
    as (h2 & c2 & Hc2 & _).
  rewrite length_skipn in Hc2. eauto.
Qed.

(** X10. Over any chain [h] with the elements [ys] to come, [take(n)] emits
    the first [n] elements of [ys] (all of them when there are fewer), and
    pulls no more than those from its upstream: what follows them is still
    to come there. *)
Theorem take_emits_first_n_and_pulls_no_more
  (W E T : Type) (X : StreamExtractor W E T) (D : Denotes W E T)
  (h : BaseStreamInterface.t E) (c : option T) (ys : list T)
  (n : Z) (fuel : nat) (w : W) :
  denotes (extractor h) c ys ->
  in_size_t n ->
  bound (extractor h) < fuel ->
  exists h' c',
    collect fuel (take h n) w = Done (firstn (Z.to_nat n) ys, h', w)
    /\ denotes (TakeStreamExtractor.source (extractor h')) c'
         (skipn (Z.to_nat n) ys).
Proof.
  intros Hys Hn Hfuel. pose proof (denotes_bound _ _ _ Hys) as Hlen.
  destruct (take_collect_loop_upstream fuel ys (extractor h) c n fuel [] w
              Hys Hn Hfuel ltac:(lia)) as (src' & c' & l' & Hloop & Hsrc').
  unfold collect, take, BaseStreamInterface.make, TakeStreamExtractor.make.
  fields. monad. rewrite Hloop.
  do 2 eexists. split; [reflexivity|exact Hsrc'].
Qed.





(** X11. The stages compose as the list functions they implement: for every
    sequence [S],
    [from(S).skip(a).filter(p).map(f).takeWhile(q).skipWhile(r).take(b)
     .collect()]
    is [firstn b (drop_while r (take_while q (map f (filter p (skipn a S)))))]. *)
Theorem chain_composes_list_functions
  (W T U : Type) (S : list T) (a b : Z)
  (p : T -> bool) (f : T -> U) (q r : U -> bool) (fuel : nat) (w : W) :
  in_size_t a ->
  in_size_t b ->
  length S < fuel ->
  exists h',
    collect fuel
      (take (skipWhile (takeWhile (map (filter (skip (from S) a) (pure p))
                                     (pure f)) (pure q)) (pure r)) b) w
    = Done (firstn (Z.to_nat b)
              (drop_while r
                 (take_while q
                    (List.map f (List.filter p (skipn (Z.to_nat a) S))))),
            h', w).
Proof.
  intros Ha Hb Hfuel.
  destruct (from_denotes W T S) as (H0 & Hbound).
  pose proof (skip_chain _ _ _ a H0 Ha) as H1.
  pose proof (filter_chain _ _ _ p H1) as H2.
  pose proof (map_chain _ _ _ f H2) as H3.
  pose proof (takeWhile_chain _ _ _ q H3) as H4.
  pose proof (skipWhile_chain _ _ _ r H4) as H5.
  pose proof (take_chain _ _ _ b H5 Hb) as H6.
  destruct (collect_denotes fuel _ _ _ w H6) as (h' & c' & Hc & _);
    [|eauto].
  change (bound (W := W) (extractor (from S)) < fuel). rewrite Hbound.
  exact Hfuel.
Qed.

(** ** Callables with side effects *)

Section EffectfulStages.
Context {W E T : Type} `{Denotes W E T}.


Lemma map_collect_loop_effects {U : Type} (f : T -> comp W U) fuel xs :
  forall (src : E) c k v acc w,
    denotes src c xs ->
    bound src < fuel ->
    length xs < k ->
    match map_each f xs w with
    | Done (ys, w') =>
        exists src' c' v',
          collect_loop fuel k
            {| MapStreamExtractor.source := src;
               MapStreamExtractor.mapFunc := f;
               MapStreamExtractor.value := v |} acc w
          = Done (acc ++ ys,
                  {| MapStreamExtractor.source := src';
                     MapStreamExtractor.mapFunc := f;
                     MapStreamExtractor.value := v' |}, w')
          /\ denotes src' c' []
          /\ v' = match rev ys with [] => v | y :: _ => Some y end
    | Undefined =>
        collect_loop fuel k
          {| MapStreamExtractor.source := src;
             MapStreamExtractor.mapFunc := f;
             MapStreamExtractor.value := v |} acc w
        = Undefined
    | OutOfFuel =>
        collect_loop fuel k
          {| MapStreamExtractor.source := src;
             MapStreamExtractor.mapFunc := f;
             MapStreamExtractor.value := v |} acc w
        = OutOfFuel
    end.
Proof.
  induction xs as [|x xs IH]; intros src c k v acc w Hxs Hfuel Hk;
    more_fuel k Hk; cbn [collect_loop map_each]; stage.
  - destruct (denotes_advance_nil fuel _ w _ Hxs Hfuel)
      as (src' & c' & -> & Hsrc' & Hb).
    exists src', c', v. rewrite app_nil_r. auto.
  - destruct (denotes_advance_cons fuel _ w _ _ _ Hxs Hfuel)
      as (src1 & -> & Hsrc1 & Hb1). stage.
    destruct (denotes_get _ w _ _ Hsrc1) as (src2 & -> & Hsrc2 & Hb2).
    destruct (f x w) as [[y w1]| |]; try reflexivity.
    specialize (IH src2 (Some x) k (Some y) (acc ++ [y]) w1 Hsrc2 ltac:(lia)
                  ltac:(cbn [length] in Hk; lia)).
    destruct (map_each f xs w1) as [[ys w2]| |]; try exact IH.
    destruct IH as (src' & c' & v' & Hloop & Hsrc' & Hv').
    exists src', c', v'. rewrite Hloop, <- app_assoc.
    split; [reflexivity|]. split; [exact Hsrc'|].
    rewrite Hv'. cbn [rev].
    destruct (rev ys) as [|z zs]; reflexivity.
Qed.

(** *** A filter after an inspector *)

Lemma filter_loop_resume (p : T -> bool) (inspector : T -> comp W unit)
  fuel k (src : E) y w :
  p y = false ->
  FilterStreamExtractor.advance_loop fuel (1 + k)
    {| FilterStreamExtractor.source :=
         {| InspectStreamExtractor.source := src;
            InspectStreamExtractor.inspector := inspector |};
       FilterStreamExtractor.predicate := pure p |} y w
  = filter_resume fuel k
      {| FilterStreamExtractor.source :=
           {| InspectStreamExtractor.source := src;
              InspectStreamExtractor.inspector := inspector |};
         FilterStreamExtractor.predicate := pure p |} w.
Proof.
  intros Hy. cbn [Nat.add FilterStreamExtractor.advance_loop]. fields.
  monad. run_pure. rewrite Hy. cbn [negb].
  unfold filter_resume. fields. monad.
  destruct (advance fuel _ w) as [[[b src'] w']| |]; try reflexivity.
  destruct b; reflexivity.
Qed.

Lemma filter_resume_inspected (p : T -> bool) (step : T -> W -> W) fuel xs :
  forall (src : E) c k w,
    denotes src c xs ->
    bound src < fuel ->
    length xs <= k ->
    exists src',
      bound src' <= bound src
      /\ match drop_while (fun x => negb (p x)) xs with
         | x :: rest =>
             filter_resume fuel k
               {| FilterStreamExtractor.source :=
                    {| InspectStreamExtractor.source := src;
                       InspectStreamExtractor.inspector := records step |};
                  FilterStreamExtractor.predicate := pure p |} w
             = Done (true,
                     {| FilterStreamExtractor.source :=
                          {| InspectStreamExtractor.source := src';
                             InspectStreamExtractor.inspector := records step |};
                        FilterStreamExtractor.predicate := pure p |},
                     fold_left (fun w0 x0 => step x0 w0) (scanned p xs) w)
             /\ denotes src' (Some x) rest
         | [] =>
             exists c',
               filter_resume fuel k
                 {| FilterStreamExtractor.source :=
                      {| InspectStreamExtractor.source := src;
                         InspectStreamExtractor.inspector := records step |};
                    FilterStreamExtractor.predicate := pure p |} w
               = Done (false,
                       {| FilterStreamExtractor.source :=
                            {| InspectStreamExtractor.source := src';
                               InspectStreamExtractor.inspector :=
                                 records step |};
                          FilterStreamExtractor.predicate := pure p |},
                       fold_left (fun w0 x0 => step x0 w0) (scanned p xs) w)
               /\ denotes src' c' []
         end.
Proof.
  induction xs as [|x xs IH]; intros src c k w Hxs Hfuel Hk.
  - unfold filter_resume. fields. stage.
    destruct (denotes_advance_nil fuel _ w _ Hxs Hfuel)
      as (src' & c' & -> & Hsrc' & Hb).
    exists src'. split; [exact Hb|]. cbn [drop_while scanned fold_left negb].
    eauto.
  - destruct k as [|k]; [cbn [length] in Hk; lia|].
    destruct (denotes_advance_cons fuel _ w _ _ _ Hxs Hfuel)
      as (src1 & Hadv & Hsrc1 & Hb1).
    destruct (denotes_get _ (step x w) _ _ Hsrc1) as (src2 & Hget2 & Hsrc2 & Hb2).
    destruct (denotes_get _ w _ _ Hsrc1) as (src3 & Hget3 & Hsrc3 & Hb3).
    cbn [drop_while scanned]. destruct (p x) eqn:Hx; cbn [negb].
    + exists src3. split; [lia|]. split; [|exact Hsrc3].
      unfold filter_resume. fields. stage. rewrite Hadv. cbn [negb]. stage.
      rewrite Hget3. unfold records at 1. cbn beta iota.
      cbn [FilterStreamExtractor.advance_loop]. fields. monad. run_pure.
      rewrite Hx. reflexivity.
    + destruct (IH src3 (Some x) k (step x w) Hsrc3) as (src' & Hb' & Hres);
        [lia | cbn [length] in Hk; lia |].
      exists src'. split; [lia|].
      assert (Hstep :
        filter_resume fuel (1 + k)
          {| FilterStreamExtractor.source :=
               {| InspectStreamExtractor.source := src;
                  InspectStreamExtractor.inspector := records step |};
             FilterStreamExtractor.predicate := pure p |} w
        = filter_resume fuel k
            {| FilterStreamExtractor.source :=
                 {| InspectStreamExtractor.source := src3;
                    InspectStreamExtractor.inspector := records step |};
               FilterStreamExtractor.predicate := pure p |} (step x w)).
      { unfold filter_resume at 1. fields. stage. rewrite Hadv. cbn [negb].
        stage. rewrite Hget3. unfold records at 1. cbn beta iota.
        exact (filter_loop_resume p (records step) fuel k src3 x (step x w) Hx). }
      cbn [Nat.add] in Hstep. rewrite Hstep. cbn [fold_left]. exact Hres.
Qed.

Lemma filter_inspect_lists (p : T -> bool) xs :
  match drop_while (fun x => negb (p x)) xs with
  | x :: rest =>
      flat_map (fun y => if p y then [y; y] else [y]) xs
      = scanned p xs
        ++ x :: flat_map (fun y => if p y then [y; y] else [y]) rest
      /\ List.filter p xs = x :: List.filter p rest
      /\ length rest < length xs
  | [] =>
      flat_map (fun y => if p y then [y; y] else [y]) xs = scanned p xs
      /\ List.filter p xs = []
  end.
Proof.
  induction xs as [|y xs IH]; [split; reflexivity|].
  cbn [drop_while flat_map scanned List.filter length].
  destruct (p y) eqn:Hy; cbn [negb app].
  - repeat split. lia.
  - destruct (drop_while (fun x => negb (p x)) xs) as [|x rest].
    + destruct IH as (-> & ->). split; reflexivity.
    + destruct IH as (-> & -> & Hlt). repeat split. lia.
Qed.

Lemma filter_inspect_collect_loop (p : T -> bool) (step : T -> W -> W) fuel n :
  forall xs (src : E) c k acc w,
    length xs <= n ->
    denotes src c xs ->
    bound src < fuel ->
    length xs < k ->
    exists e',
      collect_loop fuel k
        {| FilterStreamExtractor.source :=
             {| InspectStreamExtractor.source := src;
                InspectStreamExtractor.inspector := records step |};
           FilterStreamExtractor.predicate := pure p |} acc w
      = Done (acc ++ List.filter p xs, e',
              fold_left (fun w0 x0 => step x0 w0)
                (flat_map (fun y => if p y then [y; y] else [y]) xs) w).
Proof.
  induction n as [|n IH]; intros xs src c k acc w Hn Hxs Hfuel Hk;
    more_fuel k Hk; cbn [collect_loop]; monad;
    change (advance fuel ?s ?w0) with (filter_resume fuel fuel s w0);
    pose proof (denotes_bound _ _ _ Hxs) as Hlen;
    destruct (filter_resume_inspected p step fuel xs src c fuel w Hxs Hfuel
                ltac:(lia)) as (src1 & Hb1 & Hres);
    pose proof (filter_inspect_lists p xs) as Hlists;
    destruct (drop_while (fun x => negb (p x)) xs) as [|x rest].
  - destruct Hres as (c' & -> & _). destruct Hlists as (-> & ->).
    rewrite app_nil_r. eauto.
  - destruct Hlists as (_ & _ & Hlt). lia.
  - destruct Hres as (c' & -> & _). destruct Hlists as (-> & ->).
    rewrite app_nil_r. eauto.
  - destruct Hres as (-> & Hsrc1). destruct Hlists as (-> & -> & Hlt).
    stage. stage.
    destruct (denotes_get _ (fold_left (fun w0 x0 => step x0 w0) (scanned p xs) w)
                _ _ Hsrc1) as (src2 & -> & Hsrc2 & Hb2).
    unfold records at 1. cbn beta iota.
    destruct (IH rest src2 (Some x) k (acc ++ [x])
                (step x (fold_left (fun w0 x0 => step x0 w0) (scanned p xs) w))
                ltac:(lia) Hsrc2 ltac:(lia) ltac:(lia)) as (e' & He').
    exists e'. rewrite He', <- app_assoc, fold_left_app. reflexivity.
Qed.

End EffectfulStages.


(** X13. [map(f)] then [collect], for a mapping function with side effects:
    [f] runs once on each element, in order; the collection is the list of
    its results and ends in the world in which mapping [f] over the list
    ends.  The stage's slot then holds the last result. *)
Theorem map_runs_once_per_element
  (W E T U : Type) (X : StreamExtractor W E T) (D : Denotes W E T)
  (h : BaseStreamInterface.t E) (c : option T) (xs : list T)
  (f : T -> comp W U) (fuel : nat) (w : W) :
  denotes (extractor h) c xs ->
  bound (extractor h) < fuel ->
  match map_each f xs w with
  | Done (ys, w') =>
      exists h',
        collect fuel (map h f) w = Done (ys, h', w')
        /\ MapStreamExtractor.value (extractor h')
           = match rev ys with [] => None | y :: _ => Some y end
  | Undefined => collect fuel (map h f) w = Undefined
  | OutOfFuel => collect fuel (map h f) w = OutOfFuel
  end.
Proof.
  intros Hxs Hfuel. pose proof (denotes_bound _ _ _ Hxs) as Hlen.
  pose proof (map_collect_loop_effects f fuel xs (extractor h) c fuel None []
                w Hxs Hfuel ltac:(lia)) as Hloop.
  unfold collect, map, BaseStreamInterface.make, MapStreamExtractor.make.
  fields. monad.
  destruct (map_each f xs w) as [[ys w']| |].
  - destruct Hloop as (src' & c' & v' & -> & _ & ->).
    eexists. split; reflexivity.
  - rewrite Hloop. reflexivity.
  - rewrite Hloop. reflexivity.
Qed.

(** X14. A filter placed after an inspector makes the inspector run twice
    on every element it lets through and once on every element it rejects:
    [get] of the inspect stage is called by the filter's [advance] for each
    element it examines and again by the consumer for each element emitted.
    With an inspector whose effect is [step], [collect] returns the elements
    that satisfy [p] and ends in the world reached by applying [step] along
    the list in which the retained elements appear twice. *)
Theorem filter_after_inspect_inspects_twice
  (W E T : Type) (X : StreamExtractor W E T) (D : Denotes W E T)
  (h : BaseStreamInterface.t E) (c : option T) (xs : list T)
  (p : T -> bool) (step : T -> W -> W) (fuel : nat) (w : W) :
  denotes (extractor h) c xs ->
  bound (extractor h) < fuel ->
  exists h',
    collect fuel (filter (inspect h (records step)) (pure p)) w
    = Done (List.filter p xs, h',
            fold_left (fun w0 x => step x w0)
              (flat_map (fun y => if p y then [y; y] else [y]) xs) w).
Proof.
  intros Hxs Hfuel. pose proof (denotes_bound _ _ _ Hxs) as Hlen.
  destruct (filter_inspect_collect_loop p step fuel (length xs) xs
              (extractor h) c fuel [] w (le_n _) Hxs Hfuel ltac:(lia))
    as (e' & He').
  unfold collect, filter, inspect, BaseStreamInterface.make,
    FilterStreamExtractor.make, InspectStreamExtractor.make.
  fields. monad. rewrite He'. eexists. reflexivity.
Qed.

(** ** How often the callables are called *)

(** Evaluates the calls of observed predicates. *)
Ltac run_observed :=
  repeat match goal with
    | |- context [observed ?p ?s ?x ?w] =>
        change (observed p s x w) with (Done (p x, s x w))
    end;
  cbn beta iota.

Section CallCounts.
Context {W E T : Type} `{Denotes W E T}.

(** The loop of [nth] over a [Map] stage is the loop over its upstream. *)
Lemma map_nth_loop {U : Type} fuel :
  forall k n (s : MapStreamExtractor.t W E T U) w,
    nth_loop fuel k n s w
    = match nth_loop fuel k n (MapStreamExtractor.source s) w with
      | Done (src, w') =>
          Done ({| MapStreamExtractor.source := src;
                   MapStreamExtractor.mapFunc := MapStreamExtractor.mapFunc s;
                   MapStreamExtractor.value := MapStreamExtractor.value s |},
                w')
      | Undefined => Undefined
      | OutOfFuel => OutOfFuel
      end.
Proof.
  induction k as [|k IH]; intros n [src f v] w; [reflexivity|].
  cbn [nth_loop]. fields. destruct (negb (n =? 0)%Z); [|reflexivity].
  stage. destruct (advance fuel src w) as [[[b src'] w']| |]; try reflexivity.
  destruct b; [|reflexivity]. rewrite IH. reflexivity.
Qed.

Lemma takeWhile_collect_loop_observed (p : T -> bool) (step : T -> W -> W)
  fuel xs :
  forall (src : E) c k acc w,
    denotes src c xs ->
    bound src < fuel ->
    length xs < k ->
    exists src' c',
      collect_loop fuel k
        {| TakeWhileStreamExtractor.source := src;
           TakeWhileStreamExtractor.predicate := observed p step;
           TakeWhileStreamExtractor.taking := true |} acc w
      = Done (acc ++ take_while p xs,
              {| TakeWhileStreamExtractor.source := src';
                 TakeWhileStreamExtractor.predicate := observed p step;
                 TakeWhileStreamExtractor.taking := false |},
              fold_left (fun w0 x => step x w0)
                (scanned (fun x => negb (p x)) xs) w)
      /\ denotes src' c' (tl (drop_while p xs)).
Proof.
  induction xs as [|x xs IH]; intros src c k acc w Hxs Hfuel Hk;
    more_fuel k Hk; cbn [collect_loop]; stage;
    cbn [take_while drop_while scanned].
  - destruct (denotes_advance_nil fuel _ w _ Hxs Hfuel)
      as (src' & c' & -> & Hsrc' & Hb).
    cbn [andb]. exists src', c'. rewrite app_nil_r. auto.
  - destruct (denotes_advance_cons fuel _ w _ _ _ Hxs Hfuel)
      as (src1 & -> & Hsrc1 & Hb1).
    destruct (denotes_get _ w _ _ Hsrc1) as (src2 & -> & Hsrc2 & Hb2).
    run_observed.
    destruct (p x) eqn:Hx; cbn [andb negb tl fold_left].
    + stage. destruct (denotes_get _ (step x w) _ _ Hsrc2)
        as (src3 & -> & Hsrc3 & Hb3).
      destruct (IH src3 (Some x) k (acc ++ [x]) (step x w) Hsrc3)
        as (src' & c' & Hloop & Hsrc'); [lia | cbn [length] in Hk; lia |].
      exists src', c'. rewrite Hloop, <- app_assoc. auto.
    + exists src2, (Some x). rewrite app_nil_r. auto.
Qed.

Lemma skipWhile_loop_observed (p : T -> bool) (step : T -> W -> W) fuel xs :
  forall (src : E) c k w,
    denotes src c xs ->
    bound src < fuel ->
    length xs < k ->
    exists src',
      bound src' <= bound src
      /\ match drop_while p xs with
         | x :: rest =>
             SkipWhileStreamExtractor.advance_loop fuel k
               {| SkipWhileStreamExtractor.source := src;
                  SkipWhileStreamExtractor.predicate := observed p step;
                  SkipWhileStreamExtractor.skipping := true |} w
             = Done ({| SkipWhileStreamExtractor.source := src';
                        SkipWhileStreamExtractor.predicate := observed p step;
                        SkipWhileStreamExtractor.skipping := false |},
                     fold_left (fun w0 x0 => step x0 w0)
                       (scanned (fun x0 => negb (p x0)) xs) w)
             /\ denotes src' (Some x) rest
         | [] =>
             exists c',
               SkipWhileStreamExtractor.advance_loop fuel k
                 {| SkipWhileStreamExtractor.source := src;
                    SkipWhileStreamExtractor.predicate := observed p step;
                    SkipWhileStreamExtractor.skipping := true |} w
               = Done ({| SkipWhileStreamExtractor.source := src';
                          SkipWhileStreamExtractor.predicate := observed p step;
                          SkipWhileStreamExtractor.skipping := true |},
                       fold_left (fun w0 x0 => step x0 w0)
                         (scanned (fun x0 => negb (p x0)) xs) w)
               /\ denotes src' c' []
         end.
Proof.
  induction xs as [|x xs IH]; intros src c k w Hxs Hfuel Hk;
    more_fuel k Hk;
    cbn [SkipWhileStreamExtractor.advance_loop drop_while scanned];
    fields; monad.
  - destruct (denotes_advance_nil fuel _ w _ Hxs Hfuel)
      as (src' & c' & -> & Hsrc' & Hb).
    exists src'. split; [exact Hb|]. eauto.
  - destruct (denotes_advance_cons fuel _ w _ _ _ Hxs Hfuel)
      as (src1 & -> & Hsrc1 & Hb1).
    destruct (denotes_get _ w _ _ Hsrc1) as (src2 & -> & Hsrc2 & Hb2).
    run_observed.
    destruct (p x) eqn:Hx; cbn [negb fold_left].
    + destruct (IH src2 (Some x) k (step x w) Hsrc2) as (src' & Hb' & Hres);
        [lia | cbn [length] in Hk; lia |].
      exists src'. split; [lia|exact Hres].
    + more_fuel k Hk. cbn [SkipWhileStreamExtractor.advance_loop]. fields.
      exists src2. split; [lia|]. split; [reflexivity|exact Hsrc2].
Qed.

Lemma skipWhile_collect_loop_done (q : T -> comp W bool) fuel xs :
  forall (src : E) c k acc w,
    denotes src c xs ->
    bound src < fuel ->
    length xs < k ->
    exists e',
      collect_loop fuel k
        {| SkipWhileStreamExtractor.source := src;
           SkipWhileStreamExtractor.predicate := q;
           SkipWhileStreamExtractor.skipping := false |} acc w
      = Done (acc ++ xs, e', w).
Proof.
  induction xs as [|x xs IH]; intros src c k acc w Hxs Hfuel Hk;
    more_fuel k Hk; cbn [collect_loop]; stage.
  - destruct (denotes_advance_nil fuel _ w _ Hxs Hfuel)
      as (src' & c' & -> & Hsrc' & Hb).
    rewrite app_nil_r. eauto.
  - destruct (denotes_advance_cons fuel _ w _ _ _ Hxs Hfuel)
      as (src1 & -> & Hsrc1 & Hb1). stage.
    destruct (denotes_get _ w _ _ Hsrc1) as (src2 & -> & Hsrc2 & Hb2).
    destruct (IH src2 (Some x) k (acc ++ [x]) w Hsrc2) as (e' & He');
      [lia | cbn [length] in Hk; lia |].
    exists e'. rewrite He', <- app_assoc. reflexivity.
Qed.

(** *** The filter's predicate *)

Lemma filter_loop_resume_observed (p : T -> bool) (step : T -> W -> W)
  fuel k (src : E) y w :
  p y = false ->
  FilterStreamExtractor.advance_loop fuel (1 + k)
    {| FilterStreamExtractor.source := src;
       FilterStreamExtractor.predicate := observed p step |} y w
  = filter_resume fuel k
      {| FilterStreamExtractor.source := src;
         FilterStreamExtractor.predicate := observed p step |} (step y w).
Proof.
  intros Hy. cbn [Nat.add FilterStreamExtractor.advance_loop]. fields.
  monad. run_observed. rewrite Hy. cbn [negb].
  unfold filter_resume. fields. monad.
  destruct (advance fuel src (step y w)) as [[[b src'] w']| |];
    try reflexivity.
  destruct b; reflexivity.
Qed.

Lemma filter_resume_observed (p : T -> bool) (step : T -> W -> W) fuel xs :
  forall (src : E) c k w,
    denotes src c xs ->
    bound src < fuel ->
    length xs <= k ->
    exists src',
      bound src' <= bound src
      /\ match drop_while (fun x => negb (p x)) xs with
         | x :: rest =>
             filter_resume fuel k
               {| FilterStreamExtractor.source := src;
                  FilterStreamExtractor.predicate := observed p step |} w
             = Done (true,
                     {| FilterStreamExtractor.source := src';
                        FilterStreamExtractor.predicate := observed p step |},
                     fold_left (fun w0 x0 => step x0 w0) (scanned p xs) w)
             /\ denotes src' (Some x) rest
         | [] =>
             exists c',
               filter_resume fuel k
                 {| FilterStreamExtractor.source := src;
                    FilterStreamExtractor.predicate := observed p step |} w
               = Done (false,
                       {| FilterStreamExtractor.source := src';
                          FilterStreamExtractor.predicate := observed p step |},
                       fold_left (fun w0 x0 => step x0 w0) (scanned p xs) w)
               /\ denotes src' c' []
         end.
Proof.
  induction xs as [|x xs IH]; intros src c k w Hxs Hfuel Hk.
  - unfold filter_resume. fields. monad.
    destruct (denotes_advance_nil fuel _ w _ Hxs Hfuel)
      as (src' & c' & -> & Hsrc' & Hb).
    exists src'. split; [exact Hb|]. cbn [drop_while scanned fold_left negb].
    eauto.
  - destruct k as [|k]; [cbn [length] in Hk; lia|].
    destruct (denotes_advance_cons fuel _ w _ _ _ Hxs Hfuel)
      as (src1 & Hadv & Hsrc1 & Hb1).
    destruct (denotes_get _ w _ _ Hsrc1) as (src2 & Hget & Hsrc2 & Hb2).
    cbn [drop_while scanned]. destruct (p x) eqn:Hx; cbn [negb].
    + exists src2. split; [lia|]. split; [|exact Hsrc2].
      unfold filter_resume. fields. monad. rewrite Hadv. cbn [negb].
      rewrite Hget. cbn [FilterStreamExtractor.advance_loop]. fields. monad.
      run_observed. rewrite Hx. reflexivity.
    + destruct (IH src2 (Some x) k (step x w) Hsrc2) as (src' & Hb' & Hres);
        [lia | cbn [length] in Hk; lia |].
      exists src'. split; [lia|].
      assert (Hstep :
        filter_resume fuel (1 + k)
          {| FilterStreamExtractor.source := src;
             FilterStreamExtractor.predicate := observed p step |} w
        = filter_resume fuel k
            {| FilterStreamExtractor.source := src2;
               FilterStreamExtractor.predicate := observed p step |}
            (step x w)).
      { unfold filter_resume at 1. fields. monad. rewrite Hadv. cbn [negb].
        rewrite Hget.
        exact (filter_loop_resume_observed p step fuel k src2 x w Hx). }
      cbn [Nat.add] in Hstep. rewrite Hstep. cbn [fold_left]. exact Hres.
Qed.

Lemma scanned_lists (p : T -> bool) xs :
  match drop_while (fun x => negb (p x)) xs with
  | x :: rest =>
      xs = scanned p xs ++ rest
      /\ List.filter p xs = x :: List.filter p rest
      /\ length rest < length xs
  | [] => xs = scanned p xs /\ List.filter p xs = []
  end.
Proof.
  induction xs as [|y xs IH]; [split; reflexivity|].
  cbn [drop_while scanned List.filter length].
  destruct (p y) eqn:Hy; cbn [negb app].
  - repeat split. lia.
  - destruct (drop_while (fun x => negb (p x)) xs) as [|x rest].
    + destruct IH as (IH1 & ->). split; [f_equal; exact IH1|reflexivity].
    + destruct IH as (IH1 & -> & Hlt).
      split; [f_equal; exact IH1|]. split; [reflexivity|lia].
Qed.

Lemma filter_collect_loop_observed (p : T -> bool) (step : T -> W -> W) fuel n :
  forall xs (src : E) c k acc w,
    length xs <= n ->
    denotes src c xs ->
    bound src < fuel ->
    length xs < k ->
    exists e',
      collect_loop fuel k
        {| FilterStreamExtractor.source := src;
           FilterStreamExtractor.predicate := observed p step |} acc w
      = Done (acc ++ List.filter p xs, e',
              fold_left (fun w0 x0 => step x0 w0) xs w).
Proof.
  induction n as [|n IH]; intros xs src c k acc w Hn Hxs Hfuel Hk;
    more_fuel k Hk; cbn [collect_loop]; monad;
    change (advance fuel ?s ?w0) with (filter_resume fuel fuel s w0);
    pose proof (denotes_bound _ _ _ Hxs) as Hlen;
    destruct (filter_resume_observed p step fuel xs src c fuel w Hxs Hfuel
                ltac:(lia)) as (src1 & Hb1 & Hres);
    pose proof (scanned_lists p xs) as Hlists;
    destruct (drop_while (fun x => negb (p x)) xs) as [|x rest].
  - destruct Hres as (c' & -> & _). destruct Hlists as (<- & ->).
    rewrite app_nil_r. eauto.
  - destruct Hlists as (_ & _ & Hlt). lia.
  - destruct Hres as (c' & -> & _). destruct Hlists as (<- & ->).
    rewrite app_nil_r. eauto.
  - destruct Hres as (-> & Hsrc1). destruct Hlists as (Hsplit & -> & Hlt).
    stage.
    destruct (denotes_get _ (fold_left (fun w0 x0 => step x0 w0) (scanned p xs) w)
                _ _ Hsrc1) as (src2 & -> & Hsrc2 & Hb2).
    destruct (IH rest src2 (Some x) k (acc ++ [x])
                (fold_left (fun w0 x0 => step x0 w0) (scanned p xs) w)
                ltac:(lia) Hsrc2 ltac:(lia) ltac:(lia)) as (e' & He').
    exists e'. rewrite He', <- app_assoc, <- fold_left_app, <- Hsplit.
    reflexivity.
Qed.

End CallCounts.

(** X15. After [takeWhile(p).collect()] the upstream of the stage has lost
    the element that ended the taking: what it has still to come is what
    follows the first element failing [p], so the emitted prefix and the
    rest of the upstream together miss that element.  The predicate is
    called on the elements up to and including that one, once each, and on
    no other. *)
Theorem takeWhile_drops_the_failing_element
  (W E T : Type) (X : StreamExtractor W E T) (D : Denotes W E T)
  (h : BaseStreamInterface.t E) (c : option T) (xs : list T)
  (p : T -> bool) (step : T -> W -> W) (fuel : nat) (w : W) :
  denotes (extractor h) c xs ->
  bound (extractor h) < fuel ->
  exists h' c',
    collect fuel (takeWhile h (observed p step)) w
    = Done (take_while p xs, h',
            fold_left (fun w0 x => step x w0)
              (scanned (fun x => negb (p x)) xs) w)
    /\ denotes (TakeWhileStreamExtractor.source (extractor h')) c'
         (tl (drop_while p xs)).
Proof.
  intros Hxs Hfuel. pose proof (denotes_bound _ _ _ Hxs) as Hlen.
  destruct (takeWhile_collect_loop_observed p step fuel xs (extractor h) c
              fuel [] w Hxs Hfuel ltac:(lia)) as (src' & c' & Hloop & Hsrc').
  unfold collect, takeWhile, BaseStreamInterface.make,
    TakeWhileStreamExtractor.make. fields. monad. rewrite Hloop.
  do 2 eexists. split; [reflexivity|exact Hsrc'].
Qed.

(** X16. [skipWhile(p)] calls its predicate on the leading elements up to
    and including the first that fails [p], once each, and never again:
    [collect] returns the elements from that one on. *)
Theorem skipWhile_tests_until_first_failure
  (W E T : Type) (X : StreamExtractor W E T) (D : Denotes W E T)
  (h : BaseStreamInterface.t E) (c : option T) (xs : list T)
  (p : T -> bool) (step : T -> W -> W) (fuel : nat) (w : W) :
  denotes (extractor h) c xs ->
  bound (extractor h) < fuel ->
  exists h',
    collect fuel (skipWhile h (observed p step)) w
    = Done (drop_while p xs, h',
            fold_left (fun w0 x => step x w0)
              (scanned (fun x => negb (p x)) xs) w).
Proof.
  intros Hxs Hfuel. pose proof (denotes_bound _ _ _ Hxs) as Hlen.
  destruct (skipWhile_loop_observed p step fuel xs (extractor h) c fuel w
              Hxs Hfuel ltac:(lia)) as (src1 & Hb1 & Hres).
  pose proof (length_drop_while p xs) as Hdrop.
  unfold collect, skipWhile, BaseStreamInterface.make,
    SkipWhileStreamExtractor.make. fields. monad.
  destruct fuel as [|k]; [lia|]. cbn [collect_loop]. stage.
  destruct (drop_while p xs) as [|x rest].
  - destruct Hres as (c' & -> & _). fields. cbn [negb]. eexists. reflexivity.
  - destruct Hres as (-> & Hsrc1). fields. cbn [negb]. stage.
    destruct (denotes_get _ (fold_left (fun w0 x0 => step x0 w0)
                               (scanned (fun x0 => negb (p x0)) xs) w)
                _ _ Hsrc1) as (src2 & -> & Hsrc2 & Hb2).
    destruct (skipWhile_collect_loop_done (observed p step) (S k) rest src2
                (Some x) k [x]
                (fold_left (fun w0 x0 => step x0 w0)
                   (scanned (fun x0 => negb (p x0)) xs) w) Hsrc2)
      as (e' & He'); [lia | cbn [length] in Hdrop; lia |].
    cbn [app]. rewrite He'. eexists. reflexivity.
Qed.

(** X17. [filter(p)] calls its predicate exactly once on every element of
    its upstream, in order, whether it lets the element through or not. *)
Theorem filter_tests_each_element_once
  (W E T : Type) (X : StreamExtractor W E T) (D : Denotes W E T)
  (h : BaseStreamInterface.t E) (c : option T) (xs : list T)
  (p : T -> bool) (step : T -> W -> W) (fuel : nat) (w : W) :
  denotes (extractor h) c xs ->
  bound (extractor h) < fuel ->
  exists h',
    collect fuel (filter h (observed p step)) w
    = Done (List.filter p xs, h', fold_left (fun w0 x => step x w0) xs w).
Proof.
  intros Hxs Hfuel. pose proof (denotes_bound _ _ _ Hxs) as Hlen.
  destruct (filter_collect_loop_observed p step fuel (length xs) xs
              (extractor h) c fuel [] w (le_n _) Hxs Hfuel ltac:(lia))
    as (e' & He').
  unfold collect, filter, BaseStreamInterface.make, FilterStreamExtractor.make.
  fields. monad. rewrite He'. eexists. reflexivity.
Qed.

(** X18. [nth(n)] on a mapped stream never maps the [n] elements it
    discards: the mapping function, whatever its side effects, runs once,
    on the element returned, and not at all when the stream is too short. *)
Theorem nth_maps_only_the_returned_element
  (W E T U : Type) (X : StreamExtractor W E T) (D : Denotes W E T)
  (h : BaseStreamInterface.t E) (c : option T) (xs : list T)
  (f : T -> comp W U) (n : Z) (fuel : nat) (w : W) :
  denotes (extractor h) c xs ->
  in_size_t n ->
  bound (extractor h) < fuel ->
  match nth_error xs (Z.to_nat n) with
  | Some x =>
      match f x w with
      | Done (y, w') => exists h', nth fuel (map h f) n w = Done (Some y, h', w')
      | Undefined => nth fuel (map h f) n w = Undefined
      | OutOfFuel => nth fuel (map h f) n w = OutOfFuel
      end
  | None => exists h', nth fuel (map h f) n w = Done (None, h', w)
  end.
Proof.
  intros Hxs Hn Hfuel. pose proof (denotes_bound _ _ _ Hxs) as Hlen.
  destruct (nth_loop_denotes fuel xs _ c n fuel w Hxs Hn Hfuel ltac:(lia))
    as (e1 & c1 & Hloop & He1 & Hb1).
  unfold nth, map, BaseStreamInterface.make, MapStreamExtractor.make.
  fields. monad. rewrite map_nth_loop. fields. rewrite Hloop.
  unfold next. fields. stage.
  destruct (skipn (Z.to_nat n) xs) as [|x rest] eqn:Hsk.
  - destruct (skipn_nil_nth_error xs _ Hsk) as (-> & _).
    destruct (denotes_advance_nil fuel _ w _ He1 ltac:(lia))
      as (e2 & c2 & -> & _). eexists. reflexivity.
  - destruct (skipn_cons_nth_error xs _ _ _ Hsk) as (-> & _).
    destruct (denotes_advance_cons fuel _ w _ _ _ He1 ltac:(lia))
      as (e2 & -> & He2 & _). stage.
    destruct (denotes_get _ w _ _ He2) as (e3 & -> & _).
    destruct (f x w) as [[y w']| |]; try reflexivity.
    eexists. reflexivity.
Qed.

(** * The further properties at concrete inputs *)

Lemma next_returns_head_leaves_tail_witness :
  denotes (W := unit) (extractor (from [1; 2; 3; 4]%Z)) (Some 1%Z) [1; 2; 3; 4]%Z
  /\ bound (W := unit) (extractor (from [1; 2; 3; 4]%Z)) < 5
  /\ exists h' c',
      next 5 (from [1; 2; 3; 4]%Z) tt = Done (hd_error [1; 2; 3; 4]%Z, h', tt)
      /\ denotes (W := unit) (extractor h') c' (tl [1; 2; 3; 4]%Z).
Proof.
  assert (Hd : denotes (W := unit) (extractor (from [1; 2; 3; 4]%Z)) (Some 1%Z) [1; 2; 3; 4]%Z)
    by (repeat split; cbn; lia).
  assert (Hb : bound (W := unit) (extractor (from [1; 2; 3; 4]%Z)) < 5)
    by (vm_compute; lia).
  exact (conj Hd (conj Hb (next_returns_head_leaves_tail unit _ Z _ _ (from [1; 2; 3; 4]%Z) (Some 1%Z) [1; 2; 3; 4]%Z 5 tt Hd Hb))).
Defined.

Lemma collect_returns_all_in_order_witness :
  denotes (W := unit) (extractor (from [1; 2; 3; 4]%Z)) (Some 1%Z) [1; 2; 3; 4]%Z
  /\ bound (W := unit) (extractor (from [1; 2; 3; 4]%Z)) < 5
  /\ exists h' c',
      collect 5 (from [1; 2; 3; 4]%Z) tt = Done ([1; 2; 3; 4]%Z, h', tt)
      /\ denotes (W := unit) (extractor h') c' [].
Proof.
  assert (Hd : denotes (W := unit) (extractor (from [1; 2; 3; 4]%Z)) (Some 1%Z) [1; 2; 3; 4]%Z)
    by (repeat split; cbn; lia).
  assert (Hb : bound (W := unit) (extractor (from [1; 2; 3; 4]%Z)) < 5)
    by (vm_compute; lia).
  exact (conj Hd (conj Hb (collect_returns_all_in_order unit _ Z _ _ (from [1; 2; 3; 4]%Z) (Some 1%Z) [1; 2; 3; 4]%Z 5 tt Hd Hb))).
Defined.

Lemma any_short_circuits_witness :
  denotes (W := unit) (extractor (from [1; 2; 3; 4]%Z)) (Some 1%Z) [1; 2; 3; 4]%Z
  /\ bound (W := unit) (extractor (from [1; 2; 3; 4]%Z)) < 5
  /\ exists h' c',
      any 5 (from [1; 2; 3; 4]%Z) (pure (fun x => 1 <? x)%Z) tt
      = Done (existsb (fun x => 1 <? x)%Z [1; 2; 3; 4]%Z, h', tt)
      /\ denotes (W := unit) (extractor h') c'
           (tl (drop_while (fun x => negb (1 <? x)%Z) [1; 2; 3; 4]%Z)).
Proof.
  assert (Hd : denotes (W := unit) (extractor (from [1; 2; 3; 4]%Z)) (Some 1%Z) [1; 2; 3; 4]%Z)
    by (repeat split; cbn; lia).
  assert (Hb : bound (W := unit) (extractor (from [1; 2; 3; 4]%Z)) < 5)
    by (vm_compute; lia).
  exact (conj Hd (conj Hb (any_short_circuits unit _ Z _ _ (from [1; 2; 3; 4]%Z) (Some 1%Z) [1; 2; 3; 4]%Z (fun x => 1 <? x)%Z 5 tt Hd Hb))).
Defined.

Lemma all_short_circuits_witness :
  denotes (W := unit) (extractor (from [1; 2; 3; 4]%Z)) (Some 1%Z) [1; 2; 3; 4]%Z
  /\ bound (W := unit) (extractor (from [1; 2; 3; 4]%Z)) < 5
  /\ exists h' c',
      all 5 (from [1; 2; 3; 4]%Z) (pure (fun x => x <? 3)%Z) tt
      = Done (forallb (fun x => x <? 3)%Z [1; 2; 3; 4]%Z, h', tt)
      /\ denotes (W := unit) (extractor h') c' (tl (drop_while (fun x => x <? 3)%Z [1; 2; 3; 4]%Z)).
Proof.
  assert (Hd : denotes (W := unit) (extractor (from [1; 2; 3; 4]%Z)) (Some 1%Z) [1; 2; 3; 4]%Z)
    by (repeat split; cbn; lia).
  assert (Hb : bound (W := unit) (extractor (from [1; 2; 3; 4]%Z)) < 5)
    by (vm_compute; lia).
  exact (conj Hd (conj Hb (all_short_circuits unit _ Z _ _ (from [1; 2; 3; 4]%Z) (Some 1%Z) [1; 2; 3; 4]%Z (fun x => x <? 3)%Z 5 tt Hd Hb))).
Defined.

Lemma fold_is_left_fold_witness :
  denotes (W := unit) (extractor (from [1; 2; 3; 4]%Z)) (Some 1%Z) [1; 2; 3; 4]%Z
  /\ bound (W := unit) (extractor (from [1; 2; 3; 4]%Z)) < 5
  /\ exists h' c',
      fold 5 (from [1; 2; 3; 4]%Z) 0%Z (pure2 Z.add) tt
      = Done (fold_left Z.add [1; 2; 3; 4]%Z 0%Z, h', tt)
      /\ denotes (W := unit) (extractor h') c' [].
Proof.
  assert (Hd : denotes (W := unit) (extractor (from [1; 2; 3; 4]%Z)) (Some 1%Z) [1; 2; 3; 4]%Z)
    by (repeat split; cbn; lia).
  assert (Hb : bound (W := unit) (extractor (from [1; 2; 3; 4]%Z)) < 5)
    by (vm_compute; lia).
  exact (conj Hd (conj Hb (fold_is_left_fold unit _ Z Z _ _ (from [1; 2; 3; 4]%Z) (Some 1%Z) [1; 2; 3; 4]%Z Z.add 0%Z 5 tt Hd Hb))).
Defined.

Lemma forEach_runs_callable_in_order_witness :
  denotes (W := list Z) (extractor (from [1; 2; 3; 4]%Z)) (Some 1%Z) [1; 2; 3; 4]%Z
  /\ bound (W := list Z) (extractor (from [1; 2; 3; 4]%Z)) < 5
  /\ match for_each (records (fun (x : Z) (log : list Z) => log ++ [x])) [1; 2; 3; 4]%Z [] with
    | Done (_, w') =>
        exists h' c',
          forEach 5 (from [1; 2; 3; 4]%Z) (records (fun (x : Z) (log : list Z) => log ++ [x])) [] = Done (h', w')
          /\ denotes (W := list Z) (extractor h') c' []
    | Undefined => forEach 5 (from [1; 2; 3; 4]%Z) (records (fun (x : Z) (log : list Z) => log ++ [x])) [] = Undefined
    | OutOfFuel => forEach 5 (from [1; 2; 3; 4]%Z) (records (fun (x : Z) (log : list Z) => log ++ [x])) [] = OutOfFuel
    end.
Proof.
  assert (Hd : denotes (W := list Z) (extractor (from [1; 2; 3; 4]%Z)) (Some 1%Z) [1; 2; 3; 4]%Z)
    by (repeat split; cbn; lia).
  assert (Hb : bound (W := list Z) (extractor (from [1; 2; 3; 4]%Z)) < 5)
    by (vm_compute; lia).
  exact (conj Hd (conj Hb (forEach_runs_callable_in_order (list Z) _ Z _ _ (from [1; 2; 3; 4]%Z) (Some 1%Z) [1; 2; 3; 4]%Z (records (fun (x : Z) (log : list Z) => log ++ [x])) 5 [] Hd Hb))).
Defined.

Lemma nth_returns_index_leaves_rest_witness :
  denotes (W := unit) (extractor (filter (from [1; 2; 3; 4; 5; 6]%Z) (pure Z.even))) (Some 1%Z) [2; 4; 6]%Z
  /\ in_size_t 1
  /\ bound (W := unit) (extractor (filter (from [1; 2; 3; 4; 5; 6]%Z) (pure Z.even))) < 7
  /\ exists h' c',
      nth 7 (filter (from [1; 2; 3; 4; 5; 6]%Z) (pure Z.even)) 1 tt = Done (nth_error [2; 4; 6]%Z (Z.to_nat 1), h', tt)
      /\ denotes (W := unit) (extractor h') c' (skipn (1 + Z.to_nat 1) [2; 4; 6]%Z).
Proof.
  assert (Hd : denotes (W := unit) (extractor (filter (from [1; 2; 3; 4; 5; 6]%Z) (pure Z.even))) (Some 1%Z) [2; 4; 6]%Z)
    by (exists Z.even, [1; 2; 3; 4; 5; 6]%Z; repeat split; cbn; lia).
  assert (Hn : in_size_t 1)
    by (apply in_size_t_small; lia).
  assert (Hb : bound (W := unit) (extractor (filter (from [1; 2; 3; 4; 5; 6]%Z) (pure Z.even))) < 7)
    by (vm_compute; lia).
  exact (conj Hd (conj Hn (conj Hb (nth_returns_index_leaves_rest unit _ Z _ _ (filter (from [1; 2; 3; 4; 5; 6]%Z) (pure Z.even)) (Some 1%Z) [2; 4; 6]%Z 1 7 tt Hd Hn Hb)))).
Defined.

Lemma skip_drops_first_n_witness :
  denotes (W := unit) (extractor (from [1; 2; 3; 4]%Z)) (Some 1%Z) [1; 2; 3; 4]%Z
  /\ in_size_t 3
  /\ bound (W := unit) (extractor (from [1; 2; 3; 4]%Z)) < 5
  /\ exists h1 h2,
      collect 5 (skip (from [1; 2; 3; 4]%Z) 3) tt = Done (skipn (Z.to_nat 3) [1; 2; 3; 4]%Z, h1, tt)
      /\ count 5 (skip (from [1; 2; 3; 4]%Z) 3) tt
         = Done (size_wrap (Z.of_nat (length [1; 2; 3; 4]%Z - Z.to_nat 3)), h2, tt).
Proof.
  assert (Hd : denotes (W := unit) (extractor (from [1; 2; 3; 4]%Z)) (Some 1%Z) [1; 2; 3; 4]%Z)
    by (repeat split; cbn; lia).
  assert (Hn : in_size_t 3)
    by (apply in_size_t_small; lia).
  assert (Hb : bound (W := unit) (extractor (from [1; 2; 3; 4]%Z)) < 5)
    by (vm_compute; lia).
  exact (conj Hd (conj Hn (conj Hb (skip_drops_first_n unit _ Z _ _ (from [1; 2; 3; 4]%Z) (Some 1%Z) [1; 2; 3; 4]%Z 3 5 tt Hd Hn Hb)))).
Defined.

Lemma take_emits_first_n_and_pulls_no_more_witness :
  denotes (W := unit) (extractor (from [1; 2; 3; 4]%Z)) (Some 1%Z) [1; 2; 3; 4]%Z
  /\ in_size_t 3
  /\ bound (W := unit) (extractor (from [1; 2; 3; 4]%Z)) < 5
  /\ exists h' c',
      collect 5 (take (from [1; 2; 3; 4]%Z) 3) tt = Done (firstn (Z.to_nat 3) [1; 2; 3; 4]%Z, h', tt)
      /\ denotes (W := unit) (TakeStreamExtractor.source (extractor h')) c'
           (skipn (Z.to_nat 3) [1; 2; 3; 4]%Z).
Proof.
  assert (Hd : denotes (W := unit) (extractor (from [1; 2; 3; 4]%Z)) (Some 1%Z) [1; 2; 3; 4]%Z)
    by (repeat split; cbn; lia).
  assert (Hn : in_size_t 3)
    by (apply in_size_t_small; lia).
  assert (Hb : bound (W := unit) (extractor (from [1; 2; 3; 4]%Z)) < 5)
    by (vm_compute; lia).
  exact (conj Hd (conj Hn (conj Hb (take_emits_first_n_and_pulls_no_more unit _ Z _ _ (from [1; 2; 3; 4]%Z) (Some 1%Z) [1; 2; 3; 4]%Z 3 5 tt Hd Hn Hb)))).
Defined.






Lemma map_runs_once_per_element_witness :
  denotes (W := list Z) (extractor (from [1; 2; 3; 4]%Z)) (Some 1%Z) [1; 2; 3; 4]%Z
  /\ bound (W := list Z) (extractor (from [1; 2; 3; 4]%Z)) < 5
  /\ match map_each (fun (x : Z) (log : list Z) => Done ((x * 10)%Z, log ++ [x])) [1; 2; 3; 4]%Z [] with
    | Done (ys, w') =>
        exists h',
          collect 5 (map (from [1; 2; 3; 4]%Z) (fun (x : Z) (log : list Z) => Done ((x * 10)%Z, log ++ [x]))) [] = Done (ys, h', w')
          /\ MapStreamExtractor.value (extractor h')
             = match rev ys with [] => None | y :: _ => Some y end
    | Undefined => collect 5 (map (from [1; 2; 3; 4]%Z) (fun (x : Z) (log : list Z) => Done ((x * 10)%Z, log ++ [x]))) [] = Undefined
    | OutOfFuel => collect 5 (map (from [1; 2; 3; 4]%Z) (fun (x : Z) (log : list Z) => Done ((x * 10)%Z, log ++ [x]))) [] = OutOfFuel
    end.
Proof.
  assert (Hd : denotes (W := list Z) (extractor (from [1; 2; 3; 4]%Z)) (Some 1%Z) [1; 2; 3; 4]%Z)
    by (repeat split; cbn; lia).
  assert (Hb : bound (W := list Z) (extractor (from [1; 2; 3; 4]%Z)) < 5)
    by (vm_compute; lia).
  exact (conj Hd (conj Hb (map_runs_once_per_element (list Z) _ Z Z _ _ (from [1; 2; 3; 4]%Z) (Some 1%Z) [1; 2; 3; 4]%Z (fun (x : Z) (log : list Z) => Done ((x * 10)%Z, log ++ [x])) 5 [] Hd Hb))).
Defined.

Lemma filter_after_inspect_inspects_twice_witness :
  denotes (W := list Z) (extractor (from [1; 2; 3; 4]%Z)) (Some 1%Z) [1; 2; 3; 4]%Z
  /\ bound (W := list Z) (extractor (from [1; 2; 3; 4]%Z)) < 5
  /\ exists h',
      collect 5 (filter (inspect (from [1; 2; 3; 4]%Z) (records (fun (x : Z) (log : list Z) => log ++ [x]))) (pure Z.even)) []
      = Done (List.filter Z.even [1; 2; 3; 4]%Z, h',
              fold_left (fun w0 x => (fun (x : Z) (log : list Z) => log ++ [x]) x w0)
                (flat_map (fun y => if Z.even y then [y; y] else [y]) [1; 2; 3; 4]%Z) []).
Proof.
  assert (Hd : denotes (W := list Z) (extractor (from [1; 2; 3; 4]%Z)) (Some 1%Z) [1; 2; 3; 4]%Z)
    by (repeat split; cbn; lia).
  assert (Hb : bound (W := list Z) (extractor (from [1; 2; 3; 4]%Z)) < 5)
    by (vm_compute; lia).
  exact (conj Hd (conj Hb (filter_after_inspect_inspects_twice (list Z) _ Z _ _ (from [1; 2; 3; 4]%Z) (Some 1%Z) [1; 2; 3; 4]%Z Z.even (fun (x : Z) (log : list Z) => log ++ [x]) 5 [] Hd Hb))).
Defined.

Lemma count_returns_length_witness :
  denotes (W := unit) (extractor (from [1; 2; 3; 4]%Z)) (Some 1%Z) [1; 2; 3; 4]%Z
  /\ bound (W := unit) (extractor (from [1; 2; 3; 4]%Z)) < 5
  /\ (Z.of_nat (length [1; 2; 3; 4]%Z) < size_t_modulus)%Z
  /\ exists h' c',
      count 5 (from [1; 2; 3; 4]%Z) tt = Done (size_wrap (Z.of_nat (length [1; 2; 3; 4]%Z)), h', tt)
      /\ denotes (W := unit) (extractor h') c' []
      /\ size_wrap (Z.of_nat (length [1; 2; 3; 4]%Z)) = Z.of_nat (length [1; 2; 3; 4]%Z).
Proof.
  assert (Hd : denotes (W := unit) (extractor (from [1; 2; 3; 4]%Z)) (Some 1%Z) [1; 2; 3; 4]%Z)
    by (repeat split; cbn; lia).
  assert (Hb : bound (W := unit) (extractor (from [1; 2; 3; 4]%Z)) < 5)
    by (vm_compute; lia).
  assert (Hlt : (Z.of_nat (length [1; 2; 3; 4]%Z) < size_t_modulus)%Z)
    by reflexivity.
  split; [exact Hd|]. split; [exact Hb|]. split; [exact Hlt|].
  destruct (count_returns_length unit _ Z _ _ (from [1; 2; 3; 4]%Z) (Some 1%Z) [1; 2; 3; 4]%Z 5 tt Hd Hb)
    as (h' & c' & Hc & Hh' & Hsmall).
  exists h', c'. split; [exact Hc|]. split; [exact Hh'|exact (Hsmall Hlt)].
Defined.

Lemma chain_composes_list_functions_witness :
  in_size_t 1
  /\ in_size_t 2
  /\ length [1; 2; 3; 4; 5; 6; 7; 8]%Z < 9
  /\ exists h',
      collect 9
        (take (skipWhile (takeWhile
                 (map (filter (skip (from [1; 2; 3; 4; 5; 6; 7; 8]%Z) 1)
                         (pure Z.even))
                    (pure (fun x => x * 10)%Z))
                 (pure (fun y => y <? 70)%Z))
                 (pure (fun y => y <? 30)%Z)) 2) tt
      = Done (firstn (Z.to_nat 2)
                (drop_while (fun y => y <? 30)%Z
                   (take_while (fun y => y <? 70)%Z
                      (List.map (fun x => x * 10)%Z
                         (List.filter Z.even
                            (skipn (Z.to_nat 1)
                               [1; 2; 3; 4; 5; 6; 7; 8]%Z))))),
              h', tt).
Proof.
  assert (Ha : in_size_t 1) by (apply in_size_t_small; lia).
  assert (Hb : in_size_t 2) by (apply in_size_t_small; lia).
  assert (Hlen : length [1; 2; 3; 4; 5; 6; 7; 8]%Z < 9) by (cbn; lia).
  exact (conj Ha (conj Hb (conj Hlen
           (chain_composes_list_functions unit Z Z [1; 2; 3; 4; 5; 6; 7; 8]%Z
              1 2 Z.even (fun x => x * 10)%Z (fun y => y <? 70)%Z
              (fun y => y <? 30)%Z 9 tt Ha Hb Hlen)))).
Defined.

Lemma takeWhile_drops_the_failing_element_witness :
  denotes (W := list Z) (extractor (from [1; 2; 3; 4]%Z)) (Some 1%Z) [1; 2; 3; 4]%Z
  /\ bound (W := list Z) (extractor (from [1; 2; 3; 4]%Z)) < 5
  /\ exists h' c',
      collect 5 (takeWhile (from [1; 2; 3; 4]%Z) (observed (fun x => x <? 3)%Z (fun (x : Z) (log : list Z) => log ++ [x]))) []
      = Done (take_while (fun x => x <? 3)%Z [1; 2; 3; 4]%Z, h',
              fold_left (fun w0 x => (fun (x : Z) (log : list Z) => log ++ [x]) x w0)
                (scanned (fun x => negb ((fun x => x <? 3)%Z x)) [1; 2; 3; 4]%Z) [])
      /\ denotes (W := list Z) (TakeWhileStreamExtractor.source (extractor h')) c'
           (tl (drop_while (fun x => x <? 3)%Z [1; 2; 3; 4]%Z)).
Proof.
  assert (Hd : denotes (W := list Z) (extractor (from [1; 2; 3; 4]%Z)) (Some 1%Z) [1; 2; 3; 4]%Z)
    by (repeat split; cbn; lia).
  assert (Hb : bound (W := list Z) (extractor (from [1; 2; 3; 4]%Z)) < 5)
    by (vm_compute; lia).
  exact (conj Hd (conj Hb (takeWhile_drops_the_failing_element (list Z) _ Z _ _ (from [1; 2; 3; 4]%Z) (Some 1%Z) [1; 2; 3; 4]%Z (fun x => x <? 3)%Z (fun (x : Z) (log : list Z) => log ++ [x]) 5 [] Hd Hb))).
Defined.

Lemma skipWhile_tests_until_first_failure_witness :
  denotes (W := list Z) (extractor (from [1; 2; 3; 4]%Z)) (Some 1%Z) [1; 2; 3; 4]%Z
  /\ bound (W := list Z) (extractor (from [1; 2; 3; 4]%Z)) < 5
  /\ exists h',
      collect 5 (skipWhile (from [1; 2; 3; 4]%Z) (observed (fun x => x <? 3)%Z (fun (x : Z) (log : list Z) => log ++ [x]))) []
      = Done (drop_while (fun x => x <? 3)%Z [1; 2; 3; 4]%Z, h',
              fold_left (fun w0 x => (fun (x : Z) (log : list Z) => log ++ [x]) x w0)
                (scanned (fun x => negb ((fun x => x <? 3)%Z x)) [1; 2; 3; 4]%Z) []).
Proof.
  assert (Hd : denotes (W := list Z) (extractor (from [1; 2; 3; 4]%Z)) (Some 1%Z) [1; 2; 3; 4]%Z)
    by (repeat split; cbn; lia).
  assert (Hb : bound (W := list Z) (extractor (from [1; 2; 3; 4]%Z)) < 5)
    by (vm_compute; lia).
  exact (conj Hd (conj Hb (skipWhile_tests_until_first_failure (list Z) _ Z _ _ (from [1; 2; 3; 4]%Z) (Some 1%Z) [1; 2; 3; 4]%Z (fun x => x <? 3)%Z (fun (x : Z) (log : list Z) => log ++ [x]) 5 [] Hd Hb))).
Defined.

Lemma filter_tests_each_element_once_witness :
  denotes (W := list Z) (extractor (from [1; 2; 3; 4]%Z)) (Some 1%Z) [1; 2; 3; 4]%Z
  /\ bound (W := list Z) (extractor (from [1; 2; 3; 4]%Z)) < 5
  /\ exists h',
      collect 5 (filter (from [1; 2; 3; 4]%Z) (observed Z.even (fun (x : Z) (log : list Z) => log ++ [x]))) []
      = Done (List.filter Z.even [1; 2; 3; 4]%Z, h',
              fold_left (fun w0 x => (fun (x : Z) (log : list Z) => log ++ [x]) x w0) [1; 2; 3; 4]%Z []).
Proof.
  assert (Hd : denotes (W := list Z) (extractor (from [1; 2; 3; 4]%Z)) (Some 1%Z) [1; 2; 3; 4]%Z)
    by (repeat split; cbn; lia).
  assert (Hb : bound (W := list Z) (extractor (from [1; 2; 3; 4]%Z)) < 5)
    by (vm_compute; lia).
  exact (conj Hd (conj Hb (filter_tests_each_element_once (list Z) _ Z _ _ (from [1; 2; 3; 4]%Z) (Some 1%Z) [1; 2; 3; 4]%Z Z.even (fun (x : Z) (log : list Z) => log ++ [x]) 5 [] Hd Hb))).
Defined.

Lemma nth_maps_only_the_returned_element_witness :
  denotes (W := list Z) (extractor (from [1; 2; 3; 4]%Z)) (Some 1%Z) [1; 2; 3; 4]%Z
  /\ in_size_t 2
  /\ bound (W := list Z) (extractor (from [1; 2; 3; 4]%Z)) < 5
  /\ match nth_error [1; 2; 3; 4]%Z (Z.to_nat 2) with
    | Some x =>
        match (fun (x : Z) (log : list Z) => Done ((x * 10)%Z, log ++ [x])) x [] with
        | Done (y, w') =>
            exists h', nth 5 (map (from [1; 2; 3; 4]%Z) (fun (x : Z) (log : list Z) => Done ((x * 10)%Z, log ++ [x]))) 2 [] = Done (Some y, h', w')
        | Undefined => nth 5 (map (from [1; 2; 3; 4]%Z) (fun (x : Z) (log : list Z) => Done ((x * 10)%Z, log ++ [x]))) 2 [] = Undefined
        | OutOfFuel => nth 5 (map (from [1; 2; 3; 4]%Z) (fun (x : Z) (log : list Z) => Done ((x * 10)%Z, log ++ [x]))) 2 [] = OutOfFuel
        end
    | None => exists h', nth 5 (map (from [1; 2; 3; 4]%Z) (fun (x : Z) (log : list Z) => Done ((x * 10)%Z, log ++ [x]))) 2 [] = Done (None, h', [])
    end.
Proof.
  assert (Hd : denotes (W := list Z) (extractor (from [1; 2; 3; 4]%Z)) (Some 1%Z) [1; 2; 3; 4]%Z)
    by (repeat split; cbn; lia).
  assert (Hn : in_size_t 2)
    by (apply in_size_t_small; lia).
  assert (Hb : bound (W := list Z) (extractor (from [1; 2; 3; 4]%Z)) < 5)
    by (vm_compute; lia).
  exact (conj Hd (conj Hn (conj Hb (nth_maps_only_the_returned_element (list Z) _ Z Z _ _ (from [1; 2; 3; 4]%Z) (Some 1%Z) [1; 2; 3; 4]%Z (fun (x : Z) (log : list Z) => Done ((x * 10)%Z, log ++ [x])) 2 5 [] Hd Hn Hb)))).
Defined.
